(** * MindMap Creator: a shallow embedding of [mindmap.js]

    The development follows the [MindMapCreator] class of [src/mindmap.js].
    JavaScript values are embedded as follows.

    - Strings are [string]s: one [ascii] stands for one UTF-16 code unit
      (restricted to the Latin-1 range), so [String.length] is the
      [.length] of the source.
    - Numbers that hold coordinates, sizes and the zoom factor are exact
      rationals [Q]: the rounding of IEEE doubles is abstracted away, the
      order of the operations and the comparisons are those of the source.
      Counters are natural numbers [N].
    - [Map]s are [gmap]s keyed by strings, [Set]s are duplicate-free lists in
      insertion order ([Array.from] of a [Set] is then the list itself).
      The object that holds the saved mindmaps by file name is the [gmap] of
      its own properties; reading and assigning a property go through
      [Object.prototype] as in the language ([object_get], [object_set]).
      [JSON.parse] of [JSON.stringify] is the identity on the own properties
      and on the strings and finite numbers that the records are made of.
    - The instance fields of the class are the fields of one record, and every
      method is a function from states to states (with a result when the
      method returns one).  The DOM is not part of the state: what a handler
      reads from it (pointer position, modifier keys, the value of an input
      field) is a parameter of the handler. *)

From Stdlib Require Import Ascii String QArith Qminmax Qround Lqa.
From stdpp Require Import gmap strings list fin_maps pretty.

(** ** JavaScript strings *)

(** [s.split(sep)] for a one-character separator, generalised to a predicate
    on characters: the pieces between separators, empty pieces included. *)
Fixpoint split_on (sep : ascii → bool) (s : string) : list string :=
  match s with
  | "" => [""]
  | String c r =>
      if sep c then "" :: split_on sep r
      else match split_on sep r with
           | w :: ws => String c w :: ws
           | [] => [String c ""]
           end
  end.

Definition is_space_char (c : ascii) : bool := Ascii.eqb c " ".

(** [text.split(' ')] *)
Definition split_space (text : string) : list string :=
  split_on is_space_char text.

(** [lines.join(' ')] *)
Fixpoint join_space (l : list string) : string :=
  match l with
  | [] => ""
  | [w] => w
  | w :: ws => w +:+ " " +:+ join_space ws
  end.

(** A string in a boolean position: only the empty string is falsy. *)
Definition truthy (s : string) : bool := negb (String.eqb s "").

(** An optional string ([null], [undefined] or a string) in a boolean
    position. *)
Definition truthy_opt (o : option string) : bool :=
  match o with
  | Some s => truthy s
  | None => false
  end.

(** The white space of ECMAScript within the Latin-1 range: TAB, LF, VT, FF,
    CR, SP and NBSP. *)
Definition is_whitespace (c : ascii) : bool :=
  let n := nat_of_ascii c in
  (Nat.leb 9 n && Nat.leb n 13) || Nat.eqb n 32 || Nat.eqb n 160.

Fixpoint trim_start (s : string) : string :=
  match s with
  | "" => ""
  | String c r => if is_whitespace c then trim_start r else s
  end.

(** [s.trim()] *)
Definition trim (s : string) : string :=
  String.rev (trim_start (String.rev (trim_start s))).

(** ** Geometry and layout *)

(** The size computation that [createNode] (lines 333-346), [saveNodeEdit]
    (lines 838-851) and [saveMultipleNodeEdit] (lines 886-897) each carry
    inline.  [Math.max(...lengths)] is [max_list]: [split] never returns an
    empty array, so the [-Infinity] of an empty spread is out of reach. *)
Definition minSize : Q := 60.

Definition baseSize (text shape : string) : Q :=
  let words := split_space text in
  let longestWord := max_list (String.length <$> words) in
  let totalWords := length words in
  let baseSize :=
    Qmax minSize (inject_Z (Z.of_nat (longestWord * 8 + totalWords * 4))) in
  if String.eqb shape "circle" then baseSize * 1.4 else baseSize.

(** [renderWrappedText], lines 1221-1243: the per-line character limit. *)
Definition fontSize (size : Q) : Q := Qmax 10 (Qmin 16 (size / 3)).

Definition maxWidth (size : Q) (shape : string) : Q :=
  if String.eqb shape "rectangle" then (size * 1.6) * 0.9
  else if String.eqb shape "square" then size * 0.9
  else size * 0.7.

Definition maxCharsPerLine (size : Q) (shape : string) : Z :=
  let avgCharWidth := (fontSize size * 0.5)%Q in
  Qfloor (maxWidth size shape / avgCharWidth)%Q.

(** One iteration of the loop of lines 1250-1265 on the pair
    [(lines, currentLine)]. *)
Definition wrap_step (limit : Z) (st : list string * string) (word : string)
  : list string * string :=
  let '(lines, currentLine) := st in
  let testLine :=
    if truthy currentLine then currentLine +:+ " " +:+ word else word in
  if (Z.of_nat (String.length testLine) <=? limit)%Z then (lines, testLine)
  else if truthy currentLine then (lines ++ [currentLine], word)
  else (lines ++ [word], "").

(** Lines 1246-1269: the lines for a given limit. *)
Definition wrap_lines (limit : Z) (text : string) : list string :=
  let '(lines, currentLine) :=
    foldl (wrap_step limit) ([], "") (split_space text) in
  if truthy currentLine then lines ++ [currentLine] else lines.

(** [renderWrappedText(textElement, text, size, textColor, shape)]: the
    [textContent] of the [tspan]s appended to the text element, in order. *)
Definition renderWrappedText (text : string) (size : Q) (shape : string)
  : list string :=
  wrap_lines (maxCharsPerLine size shape) text.

(** The non-empty pieces of a text between separators. *)
Definition tokens (sep : ascii → bool) (text : string) : list string :=
  filter (λ w, w ≠ "") (split_on sep text).

(** The words of a text as the spec has them, for comparison with the code:
    section 4.1 splits the text "on whitespace into words", so the words are
    the maximal runs of characters that are not white space. *)
Definition spec_words (text : string) : list string :=
  tokens is_whitespace text.

(** [computeNodeSize] as section 4.1 of the spec words it, on the words of
    [spec_words], for comparison with [baseSize]. *)
Definition spec_computeNodeSize (text shape : string) : Q :=
  let words := spec_words text in
  let longestWord := max_list (String.length <$> words) in
  let wordCount := length words in
  let baseSize :=
    Qmax 60 (inject_Z (Z.of_nat (longestWord * 8 + wordCount * 4))) in
  if String.eqb shape "circle" then baseSize * 1.4 else baseSize.

(** ** The data model *)

Module Point.
Record t := mk { x : Q; y : Q }.
End Point.

(** A node object as [createNode] builds it (lines 348-359). *)
Module Node.
Record t := mk {
  id : string;
  x : Q;
  y : Q;
  text : string;
  color : string;
  textColor : string;
  shape : string;
  size : Q;
  radius : Q
}.
End Node.

(** A connection object as [createConnection] builds it (lines 493-497);
    [end_] is the field [end]. *)
Module Connection.
Record t := mk { id : string; start : string; end_ : string }.
End Connection.

(** The three tools that [setTool] is called with (lines 76-78). *)
Module Tool.
Inductive t := select | node | connection.
End Tool.

#[global] Instance Tool_eq_dec : EqDecision Tool.t.
Proof. solve_decision. Defined.

(** The record that [saveMindMap] stores under a file name (lines 1070-1077):
    [nodes] and [connections] are the arrays of [key, value] pairs that
    [Array.from(map.entries())] returns. *)
Module MindmapData.
Record t := mk {
  title : string;
  nodes : list (string * Node.t);
  connections : list (string * Connection.t);
  nodeCounter : N;
  connectionCounter : N;
  savedAt : string
}.
End MindmapData.

(** The [line] element held in [this.tempConnection]: its attributes
    [x1], [y1], [x2], [y2]. *)
Definition TempLine : Type := Q * Q * Q * Q.

(** The fields assigned in the constructor (lines 9-22), the three fields
    that the edit dialog adds later ([selectedShape], [currentEditingNode],
    [currentEditingNodes]), and [mindmaps], the object stored under the key
    ['mindmaps'] of [localStorage] (its JSON text is parsed and written back
    whole by lines 1079-1081, so the map of file names to records stands for
    it). *)
Record MindMapCreator := mkMindMapCreator {
  nodes : gmap string Node.t;
  connections : gmap string Connection.t;
  selectedNodes : list string;
  selectedConnections : list string;
  currentTool : Tool.t;
  isConnecting : bool;
  connectionStart : option string;
  tempConnection : option TempLine;
  isDragging : bool;
  dragOffset : Point.t;
  nodeCounter : N;
  connectionCounter : N;
  zoom : Q;
  pan : Point.t;
  selectedShape : option string;
  currentEditingNode : option string;
  currentEditingNodes : option (list string);
  mindmaps : gmap string MindmapData.t
}.

(** Field assignments [this.f = v]. *)
Definition set_nodes (v : gmap string Node.t) (s : MindMapCreator)
  : MindMapCreator :=
  mkMindMapCreator v (connections s) (selectedNodes s) (selectedConnections s)
    (currentTool s) (isConnecting s) (connectionStart s) (tempConnection s)
    (isDragging s) (dragOffset s) (nodeCounter s) (connectionCounter s)
    (zoom s) (pan s) (selectedShape s) (currentEditingNode s)
    (currentEditingNodes s) (mindmaps s).

Definition set_connections (v : gmap string Connection.t) (s : MindMapCreator)
  : MindMapCreator :=
  mkMindMapCreator (nodes s) v (selectedNodes s) (selectedConnections s)
    (currentTool s) (isConnecting s) (connectionStart s) (tempConnection s)
    (isDragging s) (dragOffset s) (nodeCounter s) (connectionCounter s)
    (zoom s) (pan s) (selectedShape s) (currentEditingNode s)
    (currentEditingNodes s) (mindmaps s).

Definition set_selectedNodes (v : list string) (s : MindMapCreator)
  : MindMapCreator :=
  mkMindMapCreator (nodes s) (connections s) v (selectedConnections s)
    (currentTool s) (isConnecting s) (connectionStart s) (tempConnection s)
    (isDragging s) (dragOffset s) (nodeCounter s) (connectionCounter s)
    (zoom s) (pan s) (selectedShape s) (currentEditingNode s)
    (currentEditingNodes s) (mindmaps s).

Definition set_selectedConnections (v : list string) (s : MindMapCreator)
  : MindMapCreator :=
  mkMindMapCreator (nodes s) (connections s) (selectedNodes s) v
    (currentTool s) (isConnecting s) (connectionStart s) (tempConnection s)
    (isDragging s) (dragOffset s) (nodeCounter s) (connectionCounter s)
    (zoom s) (pan s) (selectedShape s) (currentEditingNode s)
    (currentEditingNodes s) (mindmaps s).

Definition set_currentTool (v : Tool.t) (s : MindMapCreator)
  : MindMapCreator :=
  mkMindMapCreator (nodes s) (connections s) (selectedNodes s)
    (selectedConnections s) v (isConnecting s) (connectionStart s)
    (tempConnection s) (isDragging s) (dragOffset s) (nodeCounter s)
    (connectionCounter s) (zoom s) (pan s) (selectedShape s)
    (currentEditingNode s) (currentEditingNodes s) (mindmaps s).

Definition set_isConnecting (v : bool) (s : MindMapCreator)
  : MindMapCreator :=
  mkMindMapCreator (nodes s) (connections s) (selectedNodes s)
    (selectedConnections s) (currentTool s) v (connectionStart s)
    (tempConnection s) (isDragging s) (dragOffset s) (nodeCounter s)
    (connectionCounter s) (zoom s) (pan s) (selectedShape s)
    (currentEditingNode s) (currentEditingNodes s) (mindmaps s).

Definition set_connectionStart (v : option string) (s : MindMapCreator)
  : MindMapCreator :=
  mkMindMapCreator (nodes s) (connections s) (selectedNodes s)
    (selectedConnections s) (currentTool s) (isConnecting s) v
    (tempConnection s) (isDragging s) (dragOffset s) (nodeCounter s)
    (connectionCounter s) (zoom s) (pan s) (selectedShape s)
    (currentEditingNode s) (currentEditingNodes s) (mindmaps s).

Definition set_tempConnection (v : option TempLine) (s : MindMapCreator)
  : MindMapCreator :=
  mkMindMapCreator (nodes s) (connections s) (selectedNodes s)
    (selectedConnections s) (currentTool s) (isConnecting s)
    (connectionStart s) v (isDragging s) (dragOffset s) (nodeCounter s)
    (connectionCounter s) (zoom s) (pan s) (selectedShape s)
    (currentEditingNode s) (currentEditingNodes s) (mindmaps s).

Definition set_isDragging (v : bool) (s : MindMapCreator)
  : MindMapCreator :=
  mkMindMapCreator (nodes s) (connections s) (selectedNodes s)
    (selectedConnections s) (currentTool s) (isConnecting s)
    (connectionStart s) (tempConnection s) v (dragOffset s) (nodeCounter s)
    (connectionCounter s) (zoom s) (pan s) (selectedShape s)
    (currentEditingNode s) (currentEditingNodes s) (mindmaps s).

Definition set_dragOffset (v : Point.t) (s : MindMapCreator)
  : MindMapCreator :=
  mkMindMapCreator (nodes s) (connections s) (selectedNodes s)
    (selectedConnections s) (currentTool s) (isConnecting s)
    (connectionStart s) (tempConnection s) (isDragging s) v (nodeCounter s)
    (connectionCounter s) (zoom s) (pan s) (selectedShape s)
    (currentEditingNode s) (currentEditingNodes s) (mindmaps s).

Definition set_nodeCounter (v : N) (s : MindMapCreator)
  : MindMapCreator :=
  mkMindMapCreator (nodes s) (connections s) (selectedNodes s)
    (selectedConnections s) (currentTool s) (isConnecting s)
    (connectionStart s) (tempConnection s) (isDragging s) (dragOffset s) v
    (connectionCounter s) (zoom s) (pan s) (selectedShape s)
    (currentEditingNode s) (currentEditingNodes s) (mindmaps s).

Definition set_connectionCounter (v : N) (s : MindMapCreator)
  : MindMapCreator :=
  mkMindMapCreator (nodes s) (connections s) (selectedNodes s)
    (selectedConnections s) (currentTool s) (isConnecting s)
    (connectionStart s) (tempConnection s) (isDragging s) (dragOffset s)
    (nodeCounter s) v (zoom s) (pan s) (selectedShape s)
    (currentEditingNode s) (currentEditingNodes s) (mindmaps s).

Definition set_zoom (v : Q) (s : MindMapCreator)
  : MindMapCreator :=
  mkMindMapCreator (nodes s) (connections s) (selectedNodes s)
    (selectedConnections s) (currentTool s) (isConnecting s)
    (connectionStart s) (tempConnection s) (isDragging s) (dragOffset s)
    (nodeCounter s) (connectionCounter s) v (pan s) (selectedShape s)
    (currentEditingNode s) (currentEditingNodes s) (mindmaps s).

Definition set_pan (v : Point.t) (s : MindMapCreator)
  : MindMapCreator :=
  mkMindMapCreator (nodes s) (connections s) (selectedNodes s)
    (selectedConnections s) (currentTool s) (isConnecting s)
    (connectionStart s) (tempConnection s) (isDragging s) (dragOffset s)
    (nodeCounter s) (connectionCounter s) (zoom s) v (selectedShape s)
    (currentEditingNode s) (currentEditingNodes s) (mindmaps s).

Definition set_selectedShape (v : option string) (s : MindMapCreator)
  : MindMapCreator :=
  mkMindMapCreator (nodes s) (connections s) (selectedNodes s)
    (selectedConnections s) (currentTool s) (isConnecting s)
    (connectionStart s) (tempConnection s) (isDragging s) (dragOffset s)
    (nodeCounter s) (connectionCounter s) (zoom s) (pan s) v
    (currentEditingNode s) (currentEditingNodes s) (mindmaps s).

Definition set_currentEditingNode (v : option string) (s : MindMapCreator)
  : MindMapCreator :=
  mkMindMapCreator (nodes s) (connections s) (selectedNodes s)
    (selectedConnections s) (currentTool s) (isConnecting s)
    (connectionStart s) (tempConnection s) (isDragging s) (dragOffset s)
    (nodeCounter s) (connectionCounter s) (zoom s) (pan s) (selectedShape s) v
    (currentEditingNodes s) (mindmaps s).

Definition set_currentEditingNodes (v : option (list string)) (s : MindMapCreator)
  : MindMapCreator :=
  mkMindMapCreator (nodes s) (connections s) (selectedNodes s)
    (selectedConnections s) (currentTool s) (isConnecting s)
    (connectionStart s) (tempConnection s) (isDragging s) (dragOffset s)
    (nodeCounter s) (connectionCounter s) (zoom s) (pan s) (selectedShape s)
    (currentEditingNode s) v (mindmaps s).

Definition set_mindmaps (v : gmap string MindmapData.t) (s : MindMapCreator)
  : MindMapCreator :=
  mkMindMapCreator (nodes s) (connections s) (selectedNodes s)
    (selectedConnections s) (currentTool s) (isConnecting s)
    (connectionStart s) (tempConnection s) (isDragging s) (dragOffset s)
    (nodeCounter s) (connectionCounter s) (zoom s) (pan s) (selectedShape s)
    (currentEditingNode s) (currentEditingNodes s) v.

(** ** JavaScript containers and operators *)

(** [Set.prototype.has], [add] and [delete] on a set kept as the list of its
    elements in insertion order. *)
Definition set_has (x : string) (l : list string) : bool :=
  bool_decide (x ∈ l).

Definition set_add (x : string) (l : list string) : list string :=
  if set_has x l then l else l ++ [x].

Definition set_delete (x : string) (l : list string) : list string :=
  filter (λ y, y ≠ x) l.

(** [new Map(entries)]: the pairs are inserted from left to right, a later
    pair replaces an earlier one with the same key. *)
Definition Map_of_entries {V} (entries : list (string * V)) : gmap string V :=
  foldl (λ m e, <[e.1 := e.2]> m) ∅ entries.

(** [Array.from(map.entries())], up to the order of the pairs. *)
Definition entries {V} (m : gmap string V) : list (string * V) :=
  map_to_list m.

(** The property names that an object made by [JSON.parse] inherits from
    [Object.prototype]; [__proto__] is an accessor, the others hold
    functions. *)
Definition Object_prototype_keys : list string :=
  ["constructor"; "__defineGetter__"; "__defineSetter__"; "hasOwnProperty";
   "__lookupGetter__"; "__lookupSetter__"; "isPrototypeOf";
   "propertyIsEnumerable"; "toString"; "valueOf"; "__proto__";
   "toLocaleString"].

(** What [obj[key]] evaluates to, for an object given by its own
    properties: the own value, or a member of [Object.prototype] (a function,
    or the prototype itself for [__proto__]), or [undefined]. *)
Inductive Property (V : Type) :=
  | own (v : V)
  | inherited
  | undefined.
Arguments own {V} v.
Arguments inherited {V}.
Arguments undefined {V}.

Definition object_get {V} (obj : gmap string V) (key : string) : Property V :=
  match obj !! key with
  | Some v => own v
  | None =>
      if bool_decide (key ∈ Object_prototype_keys) then inherited
      else undefined
  end.

(** The own properties after [obj[key] = v]: the assignment makes or
    replaces an own property, except that [__proto__], when it is not an own
    property, is the inherited setter, which replaces the prototype and adds
    no property. *)
Definition object_set {V} (obj : gmap string V) (key : string) (v : V)
  : gmap string V :=
  match obj !! key with
  | Some _ => <[key := v]> obj
  | None => if String.eqb key "__proto__" then obj else <[key := v]> obj
  end.

(** [a || b] on strings. *)
Definition or_string (a b : string) : string := if truthy a then a else b.

(** [n || 0] on a counter. *)
Definition or_zero (n : N) : N := if (n =? 0)%N then 0%N else n.

(** [a > b] on numbers. *)
Definition Qgtb (a b : Q) : bool := negb (Qle_bool a b).

(** ** The methods of [MindMapCreator] *)

(** Lines 7-22, for a given content of [localStorage]. *)
Definition constructor (stored : gmap string MindmapData.t) : MindMapCreator :=
  {| nodes := ∅;
     connections := ∅;
     selectedNodes := [];
     selectedConnections := [];
     currentTool := Tool.select;
     isConnecting := false;
     connectionStart := None;
     tempConnection := None;
     isDragging := false;
     dragOffset := Point.mk 0 0;
     nodeCounter := 0;
     connectionCounter := 0;
     zoom := 1;
     pan := Point.mk 0 0;
     selectedShape := None;
     currentEditingNode := None;
     currentEditingNodes := None;
     mindmaps := stored |}.

(** [clearTempConnection], lines 561-566. *)
Definition clearTempConnection (s : MindMapCreator) : MindMapCreator :=
  match tempConnection s with
  | Some _ => set_tempConnection None s
  | None => s
  end.

(** [setTool], lines 169-186. *)
Definition setTool (tool : Tool.t) (s : MindMapCreator) : MindMapCreator :=
  clearTempConnection
    (set_connectionStart None (set_isConnecting false (set_currentTool tool s))).

(** [clearSelection], lines 635-640. *)
Definition clearSelection (s : MindMapCreator) : MindMapCreator :=
  set_selectedConnections [] (set_selectedNodes [] s).

(** [createNode], lines 329-366: the new state and the returned id. *)
Definition createNode (x y : Q) (text color textColor shape : string)
  (s : MindMapCreator) : string * MindMapCreator :=
  let counter := N.succ (nodeCounter s) in
  let nodeId := "node_" +:+ pretty counter in
  let size := baseSize text shape in
  let node := Node.mk nodeId x y text color textColor shape size size in
  (nodeId,
   set_nodes (<[nodeId := node]> (nodes s)) (set_nodeCounter counter s)).

(** [createWelcomeNode], lines 157-164, for the client size of the canvas. *)
Definition createWelcomeNode (clientWidth clientHeight : Q)
  (s : MindMapCreator) : MindMapCreator :=
  (createNode (clientWidth / 2) (clientHeight / 2) "Welcome to MindMap!"
     "#4A90E2" "#FFFFFF" "circle" s).2.

(** [handleCanvasClick], lines 191-206: [x] and [y] are relative to the
    canvas, [onNode] says whether the target is inside a node element. *)
Definition handleCanvasClick (x y : Q) (onNode : bool) (s : MindMapCreator)
  : MindMapCreator :=
  match currentTool s with
  | Tool.node =>
      let adjustedX := (x / zoom s - Point.x (pan s))%Q in
      let adjustedY := (y / zoom s - Point.y (pan s))%Q in
      (createNode adjustedX adjustedY "New Node" "#4A90E2" "#FFFFFF" "circle"
         s).2
  | Tool.select => if negb onNode then clearSelection s else s
  | Tool.connection => s
  end.

(** [moveNode], lines 645-660. *)
Definition moveNode (nodeId : string) (x y : Q) (s : MindMapCreator)
  : MindMapCreator :=
  match nodes s !! nodeId with
  | None => s
  | Some node =>
      let node' :=
        Node.mk (Node.id node) x y (Node.text node) (Node.color node)
          (Node.textColor node) (Node.shape node) (Node.size node)
          (Node.radius node) in
      set_nodes (<[nodeId := node']> (nodes s)) s
  end.

(** [updateTempConnection], lines 539-556. *)
Definition updateTempConnection (x y : Q) (s : MindMapCreator)
  : MindMapCreator :=
  match connectionStart s with
  | Some start =>
      if truthy start then
        match nodes s !! start with
        | Some startNode =>
            set_tempConnection
              (Some (Node.x startNode, Node.y startNode, x, y))
              (clearTempConnection s)
        | None => s
        end
      else s
  | None => s
  end.

(** [handleCanvasMouseMove], lines 211-232. *)
Definition handleCanvasMouseMove (x y : Q) (s : MindMapCreator)
  : MindMapCreator :=
  let s1 :=
    if isDragging s && bool_decide (0 < length (selectedNodes s)) then
      let mouseX := (x / zoom s - Point.x (pan s))%Q in
      let mouseY := (y / zoom s - Point.y (pan s))%Q in
      let newX := (mouseX - Point.x (dragOffset s))%Q in
      let newY := (mouseY - Point.y (dragOffset s))%Q in
      foldl (λ st nodeId, moveNode nodeId newX newY st) s (selectedNodes s)
    else s in
  if isConnecting s1 && truthy_opt (connectionStart s1)
  then updateTempConnection x y s1
  else s1.

(** [handleCanvasMouseDown], lines 237-272: [target] is the [data-node-id]
    of the node element that contains the event target, if there is one. *)
Definition handleCanvasMouseDown (target : option string) (x y : Q)
  (ctrlKey metaKey : bool) (s : MindMapCreator) : MindMapCreator :=
  match target, currentTool s with
  | Some nodeId, Tool.select =>
      match nodes s !! nodeId with
      | Some node =>
          if negb ctrlKey && negb metaKey then
            let s1 :=
              if negb (set_has nodeId (selectedNodes s)) then
                let s0 := clearSelection s in
                set_selectedNodes (set_add nodeId (selectedNodes s0)) s0
              else s in
            let s2 := set_isDragging true s1 in
            let mouseX := (x / zoom s2 - Point.x (pan s2))%Q in
            let mouseY := (y / zoom s2 - Point.y (pan s2))%Q in
            set_dragOffset
              (Point.mk (mouseX - Node.x node) (mouseY - Node.y node)) s2
          else s
      | None => s
      end
  | _, _ => s
  end.

(** [handleCanvasMouseUp], lines 277-280. *)
Definition handleCanvasMouseUp (s : MindMapCreator) : MindMapCreator :=
  set_isDragging false s.

(** [handleCanvasWheel], lines 285-291. *)
Definition handleCanvasWheel (deltaY : Q) (s : MindMapCreator)
  : MindMapCreator :=
  let delta := (if Qgtb deltaY 0 then 0.9 else 1.1)%Q in
  let s1 := set_zoom (zoom s * delta) s in
  set_zoom (Qmax 0.1 (Qmin 3 (zoom s1))) s1.

(** [zoomIn], [zoomOut] and [resetZoom], lines 981-1001. *)
Definition zoomIn (s : MindMapCreator) : MindMapCreator :=
  set_zoom (Qmin 3 (zoom s * 1.2)) s.

Definition zoomOut (s : MindMapCreator) : MindMapCreator :=
  set_zoom (Qmax 0.1 (zoom s / 1.2)) s.

Definition resetZoom (s : MindMapCreator) : MindMapCreator :=
  set_pan (Point.mk 0 0) (set_zoom 1 s).

(** [selectNode], [toggleNodeSelection] and [selectConnection],
    lines 571-599. *)
Definition selectNode (nodeId : string) (s : MindMapCreator)
  : MindMapCreator :=
  let s0 := clearSelection s in
  set_selectedNodes (set_add nodeId (selectedNodes s0)) s0.

Definition toggleNodeSelection (nodeId : string) (s : MindMapCreator)
  : MindMapCreator :=
  if set_has nodeId (selectedNodes s)
  then set_selectedNodes (set_delete nodeId (selectedNodes s)) s
  else set_selectedNodes (set_add nodeId (selectedNodes s)) s.

Definition selectConnection (connectionId : string) (s : MindMapCreator)
  : MindMapCreator :=
  let s0 := clearSelection s in
  set_selectedConnections (set_add connectionId (selectedConnections s0)) s0.

(** [createConnection], lines 491-502: the returned id and the new state.
    [renderConnection] (lines 507-524) only draws, and draws nothing when an
    end point is missing. *)
Definition createConnection (startNodeId endNodeId : string)
  (s : MindMapCreator) : string * MindMapCreator :=
  let counter := N.succ (connectionCounter s) in
  let connectionId := "connection_" +:+ pretty counter in
  let connection := Connection.mk connectionId startNodeId endNodeId in
  (connectionId,
   set_connections (<[connectionId := connection]> (connections s))
     (set_connectionCounter counter s)).

(** [startConnection], lines 470-474. *)
Definition startConnection (nodeId : string) (s : MindMapCreator)
  : MindMapCreator :=
  selectNode nodeId
    (set_connectionStart (Some nodeId) (set_isConnecting true s)).

(** [completeConnection], lines 479-486. *)
Definition completeConnection (nodeId : string) (s : MindMapCreator)
  : MindMapCreator :=
  let s1 :=
    match connectionStart s with
    | Some start =>
        if truthy start && bool_decide (start ≠ nodeId)
        then (createConnection start nodeId s).2
        else s
    | None => s
    end in
  clearTempConnection (set_connectionStart None (set_isConnecting false s1)).

(** [handleNodeClick], lines 444-465. *)
Definition handleNodeClick (ctrlKey metaKey : bool) (nodeId : string)
  (s : MindMapCreator) : MindMapCreator :=
  match currentTool s with
  | Tool.connection =>
      if negb (isConnecting s) then startConnection nodeId s
      else if bool_decide (connectionStart s ≠ Some nodeId)
      then completeConnection nodeId s
      else s
  | Tool.select =>
      if ctrlKey || metaKey then toggleNodeSelection nodeId s
      else selectNode nodeId s
  | Tool.node => s
  end.

(** [handleConnectionClick], lines 529-534. *)
Definition handleConnectionClick (connectionId : string) (s : MindMapCreator)
  : MindMapCreator :=
  match currentTool s with
  | Tool.select => selectConnection connectionId s
  | _ => s
  end.

(** [deleteConnection], lines 955-961. *)
Definition deleteConnection (connectionId : string) (s : MindMapCreator)
  : MindMapCreator :=
  set_connections (delete connectionId (connections s)) s.

(** [deleteNode], lines 931-950: the ids of the connections that touch the
    node are collected first, then deleted one by one, then the node. *)
Definition deleteNode (nodeId : string) (s : MindMapCreator)
  : MindMapCreator :=
  let connectionsToDelete :=
    (filter (λ e, Connection.start e.2 = nodeId ∨ Connection.end_ e.2 = nodeId)
       (entries (connections s))).*1 in
  let s1 :=
    foldl (λ st connectionId, deleteConnection connectionId st) s
      connectionsToDelete in
  set_nodes (delete nodeId (nodes s1)) s1.

(** [deleteSelected], lines 914-926. *)
Definition deleteSelected (s : MindMapCreator) : MindMapCreator :=
  let s1 :=
    foldl (λ st connectionId, deleteConnection connectionId st) s
      (selectedConnections s) in
  let s2 := foldl (λ st nodeId, deleteNode nodeId st) s1 (selectedNodes s1) in
  clearSelection s2.

(** [clearAll], lines 966-976, for the answer given to [confirm]. *)
Definition clearAll (confirmed : bool) (s : MindMapCreator) : MindMapCreator :=
  if confirmed then
    set_connectionCounter 0
      (set_nodeCounter 0
         (clearSelection (set_connections ∅ (set_nodes ∅ s))))
  else s.

(** [handleKeyDown], lines 296-316: [tagName] is that of the event target;
    [showSaveModal] only changes the page. *)
Definition handleKeyDown (tagName key : string) (ctrlKey : bool)
  (s : MindMapCreator) : MindMapCreator :=
  if String.eqb tagName "INPUT" || String.eqb tagName "TEXTAREA" then s
  else if String.eqb key "Delete" || String.eqb key "Backspace"
  then deleteSelected s
  else if String.eqb key "Escape" then setTool Tool.select (clearSelection s)
  else s.

(** [editMultipleNodes], lines 743-778.  When the first selected id has no
    node, line 757 throws after [currentEditingNodes] has been assigned. *)
Definition editMultipleNodes (s : MindMapCreator) : MindMapCreator :=
  let firstNode := head (selectedNodes s) ≫= λ firstNodeId, nodes s !! firstNodeId in
  let s1 := set_currentEditingNodes (Some (selectedNodes s)) s in
  match firstNode with
  | Some firstNode =>
      set_selectedShape (Some (or_string (Node.shape firstNode) "circle")) s1
  | None => s1
  end.

(** [editNode], lines 705-738. *)
Definition editNode (nodeId : string) (s : MindMapCreator) : MindMapCreator :=
  if bool_decide (1 < length (selectedNodes s)) then editMultipleNodes s
  else
    match nodes s !! nodeId with
    | None => s
    | Some node =>
        set_selectedShape (Some (or_string (Node.shape node) "circle"))
          (set_currentEditingNode (Some nodeId) s)
    end.

(** [hideNodeModal], lines 795-805. *)
Definition hideNodeModal (s : MindMapCreator) : MindMapCreator :=
  set_currentEditingNodes None (set_currentEditingNode None s).

(** The body of the [forEach] of [saveMultipleNodeEdit], lines 874-906. *)
Definition saveMultipleNodeEdit_each (newColor newTextColor : string)
  (newShape : option string) (s : MindMapCreator) (nodeId : string)
  : MindMapCreator :=
  match nodes s !! nodeId with
  | None => s
  | Some node =>
      let shape :=
        match newShape with
        | Some sh => if truthy sh then sh else Node.shape node
        | None => Node.shape node
        end in
      let size := baseSize (Node.text node) shape in
      let node' :=
        Node.mk (Node.id node) (Node.x node) (Node.y node) (Node.text node)
          newColor newTextColor shape size size in
      set_nodes (<[nodeId := node']> (nodes s)) s
  end.

(** [saveMultipleNodeEdit], lines 868-909: [nodeColor] and [textColor] are the
    values of the two colour inputs.  Without a list of nodes being edited
    the [forEach] of line 874 throws and nothing changes. *)
Definition saveMultipleNodeEdit (nodeColor textColor : string)
  (s : MindMapCreator) : MindMapCreator :=
  match currentEditingNodes s with
  | None => s
  | Some editing =>
      hideNodeModal
        (foldl (saveMultipleNodeEdit_each nodeColor textColor (selectedShape s))
           s editing)
  end.

(** [saveNodeEdit], lines 810-863: [nodeText], [nodeColor] and [textColor]
    are the values of the three inputs of the dialog. *)
Definition saveNodeEdit (nodeText nodeColor textColor : string)
  (s : MindMapCreator) : MindMapCreator :=
  if match currentEditingNodes s with
     | Some editing => bool_decide (1 < length editing)
     | None => false
     end
  then saveMultipleNodeEdit nodeColor textColor s
  else
    match currentEditingNode s with
    | None => s
    | Some editingId =>
        if truthy editingId then
          match nodes s !! editingId with
          | None => s
          | Some node =>
              let newText := trim nodeText in
              let newShape :=
                match selectedShape s with
                | Some sh =>
                    if truthy sh then sh
                    else or_string (Node.shape node) "circle"
                | None => or_string (Node.shape node) "circle"
                end in
              let text := if truthy newText then newText else Node.text node in
              let size := baseSize text newShape in
              let node' :=
                Node.mk (Node.id node) (Node.x node) (Node.y node) text
                  nodeColor textColor newShape size size in
              hideNodeModal (set_nodes (<[editingId := node']> (nodes s)) s)
          end
        else s
    end.

(** [saveMindMap], lines 1063-1088: [saveFileName] is the value of the input,
    [now] the result of [new Date().toISOString()].  The JSON text written to
    [localStorage] holds the own properties of [savedMaps] after the
    assignment of line 1080. *)
Definition saveMindMap (saveFileName now : string) (s : MindMapCreator)
  : MindMapCreator :=
  let fileName := trim saveFileName in
  if negb (truthy fileName) then s
  else
    let mindmapData :=
      MindmapData.mk fileName (entries (nodes s)) (entries (connections s))
        (nodeCounter s) (connectionCounter s) now in
    set_mindmaps (object_set (mindmaps s) fileName mindmapData) s.

(** [loadMindMap], lines 1093-1127: [selectedFile] is the text of the
    [.file-name] element of the selected item of the list, if one is
    selected; [confirmed] is the answer to the [confirm] of [clearAll].
    Line 1102 reads [savedMaps[fileName]]: a member of [Object.prototype]
    passes the test of line 1104, and its [nodes], [connections] and
    counters are [undefined], so that [new Map(undefined)] is empty and
    [undefined || 0] is 0. *)
Definition loadMindMap (selectedFile : option string) (confirmed : bool)
  (s : MindMapCreator) : MindMapCreator :=
  match selectedFile with
  | None => s
  | Some fileName =>
      match object_get (mindmaps s) fileName with
      | undefined => s
      | own mindmapData =>
          let s1 := clearAll confirmed s in
          let s2 :=
            set_nodes (Map_of_entries (MindmapData.nodes mindmapData)) s1 in
          let s3 :=
            set_connections
              (Map_of_entries (MindmapData.connections mindmapData)) s2 in
          let s4 :=
            set_nodeCounter (or_zero (MindmapData.nodeCounter mindmapData))
              s3 in
          set_connectionCounter
            (or_zero (MindmapData.connectionCounter mindmapData)) s4
      | inherited =>
          let s1 := clearAll confirmed s in
          let s2 := set_nodes ∅ s1 in
          let s3 := set_connections ∅ s2 in
          let s4 := set_nodeCounter 0 s3 in
          set_connectionCounter 0 s4
      end
  end.

(** [deleteSavedFile], lines 1171-1181. *)
Definition deleteSavedFile (fileName : string) (confirmed : bool)
  (s : MindMapCreator) : MindMapCreator :=
  if confirmed then set_mindmaps (delete fileName (mindmaps s)) s else s.

(** ** The interaction state machine *)

(** The events that the listeners of lines 56-152 and 389-390 react to, with
    what each handler reads of the event and of the page.  Handlers that only
    change the page (resize, opening and closing of the save dialog) are left
    out; [Reload] is a reload of the page, which constructs a new
    [MindMapCreator] over the same [localStorage]. *)
Inductive Event :=
  | CanvasClick (x y : Q) (onNode : bool)
  | CanvasMouseMove (x y : Q)
  | CanvasMouseDown (target : option string) (x y : Q) (ctrlKey metaKey : bool)
  | CanvasMouseUp
  | CanvasWheel (deltaY : Q)
  | KeyDown (tagName key : string) (ctrlKey : bool)
  | ToolBtn (tool : Tool.t)
  | DeleteBtn
  | ClearBtn (confirmed : bool)
  | ZoomInBtn
  | ZoomOutBtn
  | ResetZoomBtn
  | NodeClick (nodeId : string) (ctrlKey metaKey : bool)
  | NodeDblClick (nodeId : string)
  | ConnectionClick (connectionId : string)
  | ShapeOptionClick (shape : option string)
  | CancelEdit
  | SaveEdit (nodeText nodeColor textColor : string)
  | ConfirmSave (saveFileName now : string)
  | ConfirmLoad (selectedFile : option string) (confirmed : bool)
  | DeleteFileBtn (fileName : string) (confirmed : bool)
  | WelcomeTimer (clientWidth clientHeight : Q)
  | Reload.

Definition handle (e : Event) (s : MindMapCreator) : MindMapCreator :=
  match e with
  | CanvasClick x y onNode => handleCanvasClick x y onNode s
  | CanvasMouseMove x y => handleCanvasMouseMove x y s
  | CanvasMouseDown target x y ctrlKey metaKey =>
      handleCanvasMouseDown target x y ctrlKey metaKey s
  | CanvasMouseUp => handleCanvasMouseUp s
  | CanvasWheel deltaY => handleCanvasWheel deltaY s
  | KeyDown tagName key ctrlKey => handleKeyDown tagName key ctrlKey s
  | ToolBtn tool => setTool tool s
  | DeleteBtn => deleteSelected s
  | ClearBtn confirmed => clearAll confirmed s
  | ZoomInBtn => zoomIn s
  | ZoomOutBtn => zoomOut s
  | ResetZoomBtn => resetZoom s
  | NodeClick nodeId ctrlKey metaKey => handleNodeClick ctrlKey metaKey nodeId s
  | NodeDblClick nodeId => editNode nodeId s
  | ConnectionClick connectionId => handleConnectionClick connectionId s
  | ShapeOptionClick shape => set_selectedShape shape s
  | CancelEdit => hideNodeModal s
  | SaveEdit nodeText nodeColor textColor =>
      saveNodeEdit nodeText nodeColor textColor s
  | ConfirmSave saveFileName now => saveMindMap saveFileName now s
  | ConfirmLoad selectedFile confirmed => loadMindMap selectedFile confirmed s
  | DeleteFileBtn fileName confirmed => deleteSavedFile fileName confirmed s
  | WelcomeTimer clientWidth clientHeight =>
      createWelcomeNode clientWidth clientHeight s
  | Reload => constructor (mindmaps s)
  end.

(** The state after a sequence of events, oldest first. *)
Definition run (events : list Event) (s : MindMapCreator) : MindMapCreator :=
  foldl (λ st e, handle e st) s events.

(** A browser that has never stored a mindmap. *)
Definition initial : MindMapCreator := constructor ∅.

(** The states the application can be in. *)
Definition reachable (s : MindMapCreator) : Prop :=
  ∃ events, s = run events initial.

(** ** The operations of the graph model, as a caller may sequence them *)

Inductive ModelOp :=
  | AddNode (x y : Q) (text color textColor shape : string)
  | AddEdge (startNodeId endNodeId : string)
  | MoveNode (nodeId : string) (x y : Q)
  | RemoveNode (nodeId : string)
  | RemoveEdge (connectionId : string)
  | Clear.

Definition apply_op (op : ModelOp) (s : MindMapCreator) : MindMapCreator :=
  match op with
  | AddNode x y text color textColor shape =>
      (createNode x y text color textColor shape s).2
  | AddEdge startNodeId endNodeId =>
      (createConnection startNodeId endNodeId s).2
  | MoveNode nodeId x y => moveNode nodeId x y s
  | RemoveNode nodeId => deleteNode nodeId s
  | RemoveEdge connectionId => deleteConnection connectionId s
  | Clear => clearAll true s
  end.

Definition apply_ops (ops : list ModelOp) (s : MindMapCreator)
  : MindMapCreator :=
  foldl (λ st op, apply_op op st) s ops.

(** Both end points of every [AddEdge] of the sequence are nodes of the model
    at the time of the call. *)
Fixpoint endpoints_given (ops : list ModelOp) (s : MindMapCreator) : Prop :=
  match ops with
  | [] => True
  | op :: rest =>
      match op with
      | AddEdge a b => is_Some (nodes s !! a) ∧ is_Some (nodes s !! b)
      | _ => True
      end ∧ endpoints_given rest (apply_op op s)
  end.

(** [addEdge] as section 4.2 of the spec words it, for comparison with
    [createConnection]: it "fails with ReferenceError if either id is absent
    from the node set; otherwise assigns id = connection_ + ++counter,
    stores, returns id". *)
Inductive AddEdgeResult :=
  | ReferenceError
  | EdgeId (id : string).

Definition spec_addEdge (startId endId : string) (s : MindMapCreator)
  : AddEdgeResult * MindMapCreator :=
  match nodes s !! startId, nodes s !! endId with
  | Some _, Some _ =>
      let counter := N.succ (connectionCounter s) in
      let id := "connection_" +:+ pretty counter in
      (EdgeId id,
       set_connections
         (<[id := Connection.mk id startId endId]> (connections s))
         (set_connectionCounter counter s))
  | _, _ => (ReferenceError, s)
  end.

(** ** Properties of states *)

(** Every edge's end points exist in the node set. *)
Definition edges_closed (s : MindMapCreator) : Prop :=
  ∀ k c, connections s !! k = Some c →
    is_Some (nodes s !! Connection.start c) ∧
    is_Some (nodes s !! Connection.end_ c).

(** The id was made from [prefix] and a counter value not above [counter]. *)
Definition id_below (prefix : string) (counter : N) (id : string) : Prop :=
  ∃ k : N, id = prefix +:+ pretty k ∧ (k ≤ counter)%N.

(** The keys of a map were made from [prefix] and counter values not above
    [counter]. *)
Definition keys_below {V} (prefix : string) (counter : N) (m : gmap string V)
  : Prop :=
  ∀ k, is_Some (m !! k) → id_below prefix counter k.

(** The keys of both maps were made by the counters of the document. *)
Definition ids_bounded (s : MindMapCreator) : Prop :=
  keys_below "node_" (nodeCounter s) (nodes s) ∧
  keys_below "connection_" (connectionCounter s) (connections s).

Definition data_ids_bounded (d : MindmapData.t) : Prop :=
  (∀ e, e ∈ MindmapData.nodes d →
     id_below "node_" (MindmapData.nodeCounter d) e.1) ∧
  (∀ e, e ∈ MindmapData.connections d →
     id_below "connection_" (MindmapData.connectionCounter d) e.1).

Definition store_ids_bounded (s : MindMapCreator) : Prop :=
  ∀ name d, mindmaps s !! name = Some d → data_ids_bounded d.

(** No edge joins a node to itself, in the document and in the store. *)
Definition no_self_loop (c : Connection.t) : Prop :=
  Connection.start c ≠ Connection.end_ c.

Definition no_self_loops (m : gmap string Connection.t) : Prop :=
  ∀ k c, m !! k = Some c → no_self_loop c.

Definition no_stored_self_loops (stored : gmap string MindmapData.t) : Prop :=
  ∀ name d, stored !! name = Some d →
    ∀ e, e ∈ MindmapData.connections d → no_self_loop e.2.

Definition loop_free (s : MindMapCreator) : Prop :=
  no_self_loops (connections s) ∧ no_stored_self_loops (mindmaps s).

(** A connection is only in progress under the connection tool. *)
Definition connecting_under_tool (s : MindMapCreator) : Prop :=
  isConnecting s = true → currentTool s = Tool.connection.

Definition zoom_in_range (s : MindMapCreator) : Prop :=
  (0.1 <= zoom s)%Q ∧ (zoom s <= 3)%Q.

(** Events that neither reset nor replace the two counters. *)
Definition keeps_counters (e : Event) : Prop :=
  match e with
  | ClearBtn true | ConfirmLoad _ _ | Reload => False
  | _ => True
  end.

(** The number of space characters of a text. *)
Fixpoint count_spaces (s : string) : nat :=
  match s with
  | "" => 0
  | String c r => (if is_space_char c then 1 else 0) + count_spaces r
  end.

(** What the loop knows about the words longer than the limit that it has
    consumed: each is a finished line or is the line in progress; and below
    a negative limit no line is ever in progress. *)
Definition long_words_kept (limit : Z) (done_words : list string)
  (st : list string * string) : Prop :=
  (∀ w, w ∈ done_words → (limit < Z.of_nat (String.length w))%Z →
     w ∈ st.1 ∨ (st.2 = w ∧ w ≠ "")) ∧
  ((limit < 0)%Z → st.2 = "").

(** What [saveMultipleNodeEdit] makes of one node. *)
Definition batch_edited (newColor newTextColor : string)
  (newShape : option string) (node : Node.t) : Node.t :=
  let shape :=
    match newShape with
    | Some sh => if truthy sh then sh else Node.shape node
    | None => Node.shape node
    end in
  let size := baseSize (Node.text node) shape in
  Node.mk (Node.id node) (Node.x node) (Node.y node) (Node.text node)
    newColor newTextColor shape size size.

(** [s'] differs from [s] at most in its nodes and connections. *)
Definition graph_update (s s' : MindMapCreator) : Prop :=
  s' = set_connections (connections s') (set_nodes (nodes s') s).

(** [s'] has the fields of [s] except that nodes and connections may have
    been removed. *)
Definition shrinks (s s' : MindMapCreator) : Prop :=
  graph_update s s' ∧ nodes s' ⊆ nodes s ∧ connections s' ⊆ connections s.

(** The ids of the document and of every stored document were made by the
    counters kept with them. *)
Definition counters_cover (s : MindMapCreator) : Prop :=
  ids_bounded s ∧ store_ids_bounded s.

(** The finished lines of a loop state, with the line in progress when there
    is one (lines 1267-1269). *)
Definition flush (st : list string * string) : list string :=
  if truthy st.2 then st.1 ++ [st.2] else st.1.

(** ** Further methods of [MindMapCreator] *)

(** [text.substring(0, n)] for a whole number [n] of characters: the first
    [n] characters, the whole text when it has fewer. *)
Fixpoint string_take (n : nat) (s : string) : string :=
  match n, s with
  | S n', String c r => String c (string_take n' r)
  | _, _ => ""
  end.

(** The end index that [substring] makes of a number: its integer part, and
    0 for a negative number. *)
Definition substring_end (q : Q) : nat := Z.to_nat (Qfloor q).

(** [truncateText], lines 1214-1216. *)
Definition truncateText (text : string) (maxLength : Q) : string :=
  if Qgtb (inject_Z (Z.of_nat (String.length text))) maxLength
  then string_take (substring_end maxLength) text +:+ "..."
  else text.

(** [wrapText], lines 1294-1306, the legacy method. *)
Definition wrapText (text : string) (radius : Q) : string :=
  let baseCharsPerRadius : Q := 0.4%Q in
  let maxChars := Qfloor (radius * baseCharsPerRadius) in
  if (Z.of_nat (String.length text) <=? maxChars)%Z then text
  else string_take (Z.to_nat (Z.max 1 (maxChars - 3))) text +:+ "...".

(** [a || b] on numbers: zero is falsy. *)
Definition or_number (a b : Q) : Q := if Qeq_bool a 0 then b else a.

(** The element that [createNodeShape] returns: its classes, its geometry
    attributes, and the three attributes common to all shapes. *)
Module ShapeElement.
Inductive geometry :=
  | rect (x y width height rx : Q)
  | circle (r : Q).
Record t := mk {
  classes : list string;
  geom : geometry;
  fill : string;
  stroke : string;
  strokeWidth : string
}.
End ShapeElement.

(** [createNodeShape], lines 398-439. *)
Definition createNodeShape (node : Node.t) : ShapeElement.t :=
  let shape := or_string (Node.shape node) "circle" in
  let size := or_number (Node.size node) (or_number (Node.radius node) 40) in
  let '(classes, geom) :=
    if String.eqb shape "square" then
      (["node-shape"; "node-square"],
       ShapeElement.rect (- size / 2) (- size / 2) size size 8)
    else if String.eqb shape "rectangle" then
      let rectWidth := (size * 1.6)%Q in
      let rectHeight := (size * 0.8)%Q in
      (["node-shape"; "node-rectangle"],
       ShapeElement.rect (- rectWidth / 2) (- rectHeight / 2)
         rectWidth rectHeight 8)
    else
      (["node-shape"; "node-circle"], ShapeElement.circle (size / 2)) in
  ShapeElement.mk classes geom (Node.color node) "rgba(255, 255, 255, 0.8)"
    "2".

(** The width of the drawn shape: the [width] of a rectangle, the diameter
    of a circle. *)
Definition drawn_width (g : ShapeElement.geometry) : Q :=
  match g with
  | ShapeElement.rect _ _ width _ _ => width
  | ShapeElement.circle r => 2 * r
  end.

(** ** Further properties of states *)

(** A node as the code leaves it in the model: stored under its own id, with
    a text and a shape that are not empty, and a size (and radius) computed
    from that text and shape. *)
Definition node_ok (k : string) (n : Node.t) : Prop :=
  Node.id n = k ∧
  Node.text n ≠ "" ∧
  Node.shape n ≠ "" ∧
  Node.size n = baseSize (Node.text n) (Node.shape n) ∧
  Node.radius n = Node.size n.

(** An edge as the code leaves it in the model: stored under its own id, with
    a start id that is not empty. *)
Definition connection_ok (k : string) (c : Connection.t) : Prop :=
  Connection.id c = k ∧ Connection.start c ≠ "".

Definition document_ok (s : MindMapCreator) : Prop :=
  (∀ k n, nodes s !! k = Some n → node_ok k n) ∧
  (∀ k c, connections s !! k = Some c → connection_ok k c).

Definition data_ok (name : string) (d : MindmapData.t) : Prop :=
  MindmapData.title d = name ∧
  name ≠ "" ∧
  (∀ e, e ∈ MindmapData.nodes d → node_ok e.1 e.2) ∧
  (∀ e, e ∈ MindmapData.connections d → connection_ok e.1 e.2).

Definition well_formed (s : MindMapCreator) : Prop :=
  document_ok s ∧ ∀ name d, mindmaps s !! name = Some d → data_ok name d.

(** The preview line exists only while a connection is in progress from a
    remembered start. *)
Definition preview_ok (s : MindMapCreator) : Prop :=
  tempConnection s ≠ None →
  isConnecting s = true ∧ truthy_opt (connectionStart s) = true.

(** [n] wheel events with the same [deltaY]. *)
Definition wheel_steps (n : nat) (deltaY : Q) : list Event :=
  replicate n (CanvasWheel deltaY).


(** The event writes or removes the stored document called [name]: a save
    whose trimmed file name is [name], or a confirmed deletion of [name]. *)
Definition touches_file (name : string) (e : Event) : Prop :=
  match e with
  | ConfirmSave saveFileName _ => trim saveFileName = name
  | DeleteFileBtn fileName true => fileName = name
  | _ => False
  end.

(** The transform functions of CSS that the code uses. *)
Inductive TransformFunction :=
  | scale (k : Q)
  | translate (tx ty : Q).

(** [updateTransform], lines 1006-1010: the transform list
    [scale(zoom) translate(pan.x px, pan.y px)] that both layers get. *)
Definition updateTransform (s : MindMapCreator) : list TransformFunction :=
  [scale (zoom s); translate (Point.x (pan s)) (Point.y (pan s))].

(** Where a transform list, taken about the origin of the layer, shows a
    point of the layer: the functions apply from right to left. *)
Definition apply_transform (f : TransformFunction) (p : Point.t) : Point.t :=
  match f with
  | scale k => Point.mk (k * Point.x p) (k * Point.y p)
  | translate tx ty => Point.mk (Point.x p + tx) (Point.y p + ty)
  end.

Definition shown_at (fs : list TransformFunction) (p : Point.t) : Point.t :=
  foldr apply_transform p fs.

(** What [moveNode] makes of a node. *)
Definition moved_to (x y : Q) (node : Node.t) : Node.t :=
  Node.mk (Node.id node) x y (Node.text node) (Node.color node)
    (Node.textColor node) (Node.shape node) (Node.size node)
    (Node.radius node).

(** A list of nodes under batch edit, when one is kept, has at least two
    ids: [editMultipleNodes] is only reached from [editNode] with more than
    one node selected. *)
Definition batch_list_ok (s : MindMapCreator) : Prop :=
  ∀ editing, currentEditingNodes s = Some editing → 1 < length editing.
(** * The model at work *)

Example split_space_ex : split_space "a  b " = ["a"; ""; "b"; ""].
Proof. reflexivity. Qed.

Example spec_words_ex :
  spec_words ("a  b" +:+ String "009"%char "c ") = ["a"; "b"; "c"].
Proof. reflexivity. Qed.

Example trim_ex : trim "  my map " = "my map".
Proof. reflexivity. Qed.

(** 5*8 + 2*4 = 48 is below the minimum of 60, and 60 * 1.4 = 84. *)
Example baseSize_hello : baseSize "Hello World" "circle" == 84.
Proof. vm_compute. reflexivity. Qed.

Example baseSize_long :
  baseSize "Interdisciplinary" "square" = inject_Z 140.
Proof. reflexivity. Qed.

Example maxChars_ex : maxCharsPerLine 84 "circle" = 7%Z.
Proof. reflexivity. Qed.

Example wrap_ex : wrap_lines 5 "ab cd efghijkl m" = ["ab cd"; "efghijkl"; "m"].
Proof. reflexivity. Qed.

(** Spaces at the ends and doubled spaces can be lost, words are not. *)
Example wrap_spaces_ex : wrap_lines 3 " a  bcdefg h " = ["a "; "bcdefg"; "h "].
Proof. reflexivity. Qed.

(** Two nodes, an edge between them, and the first node deleted again. *)
Example graph_ex :
  let n1 := createNode 0 0 "Hello World" "#4A90E2" "#FFFFFF" "circle" initial in
  let n2 := createNode 100 0 "Hi" "#4A90E2" "#FFFFFF" "circle" n1.2 in
  let c1 := createConnection n1.1 n2.1 n2.2 in
  let s := deleteNode n1.1 c1.2 in
  (n1.1, n2.1, c1.1) = ("node_1", "node_2", "connection_1") ∧
  (map_to_list (nodes s)).*1 = ["node_2"] ∧
  map_to_list (connections s) = [].
Proof. by vm_compute. Qed.

(** Wheel steps of 0.9 from zoom 1 reach the lower bound and stay there. *)
Example wheel_ex :
  zoom (run [CanvasWheel 120] initial) == 0.9 ∧
  zoom (run [CanvasWheel (-120)] initial) == 1.1 ∧
  zoom (run (replicate 22 (CanvasWheel 120)) initial) = 0.1%Q ∧
  zoom (run (replicate 40 (CanvasWheel 120)) initial) = 0.1%Q.
Proof. by vm_compute. Qed.

(** * Splitting and joining *)

Lemma split_on_not_nil sep s : split_on sep s ≠ [].
Proof.
  destruct s as [|c r]; simpl; [done|].
  destruct (sep c); [done|]. by destruct (split_on sep r).
Qed.

Lemma is_space_char_true c : is_space_char c = true → c = " "%char.
Proof. unfold is_space_char. by intros ?%Ascii.eqb_eq. Qed.

Lemma join_space_cons_char c w ws :
  join_space (String c w :: ws) = String c (join_space (w :: ws)).
Proof. by destruct ws. Qed.

Lemma join_space_cons w w' ws :
  join_space (w :: w' :: ws) = w +:+ " " +:+ join_space (w' :: ws).
Proof. done. Qed.

(** Joining the pieces with the separator gives the text back. *)
Lemma join_split_space text : join_space (split_space text) = text.
Proof.
  unfold split_space. induction text as [|c r IH]; simpl; [done|].
  destruct (is_space_char c) eqn:Hc.
  - apply is_space_char_true in Hc as ->.
    destruct (split_on is_space_char r) as [|w ws] eqn:Hr.
    { by destruct (split_on_not_nil is_space_char r). }
    rewrite join_space_cons, IH. done.
  - destruct (split_on is_space_char r) as [|w ws] eqn:Hr.
    { by destruct (split_on_not_nil is_space_char r). }
    rewrite join_space_cons_char, IH. done.
Qed.

(** There is one piece more than there are spaces. *)
Lemma length_split_space text :
  length (split_space text) = S (count_spaces text).
Proof.
  unfold split_space. induction text as [|c r IH]; simpl; [done|].
  destruct (is_space_char c); simpl.
  - by rewrite IH.
  - destruct (split_on is_space_char r) eqn:Hr; simpl in *; [done|]. by rewrite IH.
Qed.

Lemma split_on_app_sep sep c a b :
  sep c = true →
  split_on sep (a +:+ String c b) = split_on sep a ++ split_on sep b.
Proof.
  intros Hc. induction a as [|d a IH]; simpl.
  - by rewrite Hc.
  - rewrite IH. destruct (sep d); [done|].
    destruct (split_on sep a) as [|w ws] eqn:Ha; [|done].
    by destruct (split_on_not_nil sep a).
Qed.

Section tokens.
Variable sep : ascii → bool.
Hypothesis sep_space : sep " "%char = true.

Lemma tokens_empty : tokens sep "" = [].
Proof. unfold tokens. simpl. by rewrite filter_cons_False, filter_nil by naive_solver. Qed.

Lemma tokens_app_space a b :
  tokens sep (a +:+ " " +:+ b) = tokens sep a ++ tokens sep b.
Proof.
  unfold tokens. change (" " +:+ b) with (String " " b).
  by rewrite split_on_app_sep, filter_app.
Qed.

Lemma tokens_join_space l :
  tokens sep (join_space l) = concat (tokens sep <$> l).
Proof.
  induction l as [|w [|w' ws] IH].
  - apply tokens_empty.
  - simpl. by rewrite app_nil_r.
  - rewrite join_space_cons, tokens_app_space, IH. done.
Qed.

Lemma tokens_of_text text :
  tokens sep text = concat (tokens sep <$> split_space text).
Proof. by rewrite <-tokens_join_space, join_split_space. Qed.

(** The loop of [renderWrappedText] keeps the tokens of the words it has
    consumed, in order. *)
Lemma wrap_step_tokens limit lines currentLine word :
  let st := wrap_step limit (lines, currentLine) word in
  concat (tokens sep <$> st.1) ++ tokens sep st.2
  = (concat (tokens sep <$> lines) ++ tokens sep currentLine)
      ++ tokens sep word.
Proof.
  unfold wrap_step, truthy.
  destruct (String.eqb_spec currentLine "") as [->|Hne]; simpl.
  - rewrite tokens_empty, app_nil_r.
    case_match; simpl; [done|].
    by rewrite fmap_app, concat_app, tokens_empty; simpl; rewrite !app_nil_r.
  - case_match; simpl.
    + by rewrite tokens_app_space, app_assoc.
    + by rewrite fmap_app, concat_app; simpl; rewrite app_nil_r.
Qed.

Lemma wrap_fold_tokens limit words lines currentLine :
  let st := foldl (wrap_step limit) (lines, currentLine) words in
  concat (tokens sep <$> st.1) ++ tokens sep st.2
  = (concat (tokens sep <$> lines) ++ tokens sep currentLine)
      ++ concat (tokens sep <$> words).
Proof.
  revert lines currentLine.
  induction words as [|w ws IH]; intros lines currentLine; cbv zeta in *;
    cbn [foldl fmap list_fmap concat fst snd].
  - by rewrite app_nil_r.
  - pose proof (wrap_step_tokens limit lines currentLine w) as H.
    destruct (wrap_step limit (lines, currentLine) w) as [lines' cur'].
    cbv zeta in H. simpl in H. rewrite IH, H. by rewrite <-!app_assoc.
Qed.

Lemma wrap_lines_tokens limit text :
  tokens sep (join_space (wrap_lines limit text)) = tokens sep text.
Proof.
  rewrite tokens_join_space, (tokens_of_text text). unfold wrap_lines.
  pose proof (wrap_fold_tokens limit (split_space text) [] "") as H.
  cbv zeta in H. destruct (foldl _ _ _) as [lines cur].
  cbn [fst snd fmap list_fmap concat] in H.
  rewrite tokens_empty in H. cbn [app] in H. rewrite <-H.
  unfold truthy. destruct (String.eqb_spec cur "") as [->|Hne]; simpl.
  - by rewrite tokens_empty, app_nil_r.
  - by rewrite fmap_app, concat_app; simpl; rewrite app_nil_r.
Qed.

End tokens.

(** * Long words *)

Lemma string_length_app a b :
  String.length (a +:+ b) = String.length a + String.length b.
Proof. induction a; simpl; [done|]. by rewrite IHa. Qed.

Lemma truthy_true s : truthy s = true ↔ s ≠ "".
Proof. unfold truthy. destruct (String.eqb_spec s ""); naive_solver. Qed.

Lemma truthy_false s : truthy s = false ↔ s = "".
Proof. unfold truthy. destruct (String.eqb_spec s ""); naive_solver. Qed.

Lemma wrap_step_long limit done_words st word :
  long_words_kept limit done_words st →
  long_words_kept limit (word :: done_words) (wrap_step limit st word).
Proof.
  destruct st as [lines cur]. intros [Hkept Hneg]. simpl in *.
  unfold wrap_step.
  destruct (truthy cur) eqn:Hcur.
  - apply truthy_true in Hcur.
    assert (¬ (limit < 0)%Z) as Hpos by (intros ?; by apply Hcur, Hneg).
    destruct (Z.leb_spec (Z.of_nat (String.length (cur +:+ " " +:+ word))) limit)
      as [Hfit|Hover]; split; simpl.
    + rewrite !string_length_app in Hfit. simpl in Hfit.
      intros w [->|Hw]%elem_of_cons Hlong; [lia|].
      destruct (Hkept w Hw Hlong) as [?|[-> _]]; [by left|lia].
    + intros ?. lia.
    + intros w [->|Hw]%elem_of_cons Hlong.
      * right. split; [done|]. intros ->. simpl in Hlong. lia.
      * left. apply elem_of_app.
        destruct (Hkept w Hw Hlong) as [?|[-> _]]; [by left|].
        right. by apply list_elem_of_singleton.
    + intros ?. lia.
  - apply truthy_false in Hcur as ->.
    destruct (Z.leb_spec (Z.of_nat (String.length word)) limit)
      as [Hfit|Hover]; split; simpl.
    + intros w [->|Hw]%elem_of_cons Hlong; [lia|].
      destruct (Hkept w Hw Hlong) as [?|[<- ?]]; [by left|done].
    + intros ?. lia.
    + intros w [->|Hw]%elem_of_cons Hlong.
      * left. apply elem_of_app. right. by apply list_elem_of_singleton.
      * destruct (Hkept w Hw Hlong) as [?|[<- ?]]; [|done].
        left. apply elem_of_app. by left.
    + done.
Qed.

Lemma wrap_fold_long limit words done_words st :
  long_words_kept limit done_words st →
  long_words_kept limit (reverse words ++ done_words)
    (foldl (wrap_step limit) st words).
Proof.
  revert done_words st.
  induction words as [|w ws IH]; intros done_words st Hst; simpl; [done|].
  rewrite reverse_cons, <-app_assoc. simpl.
  by apply IH, wrap_step_long.
Qed.

(** A word longer than the limit is a line of its own. *)
Lemma wrap_lines_long limit text w :
  w ∈ split_space text → (limit < Z.of_nat (String.length w))%Z →
  w ∈ wrap_lines limit text.
Proof.
  intros Hw Hlong. unfold wrap_lines.
  assert (long_words_kept limit [] ([], "")) as Hinit.
  { split; simpl; [|done]. intros ? []%elem_of_nil. }
  apply (wrap_fold_long limit (split_space text)) in Hinit.
  rewrite app_nil_r in Hinit.
  destruct (foldl _ _ _) as [lines cur]. destruct Hinit as [Hkept _].
  simpl in Hkept.
  destruct (Hkept w) as [?|[-> Hne]]; [by apply elem_of_reverse|done|..].
  - destruct (truthy cur); [apply elem_of_app; by left|done].
  - apply truthy_true in Hne. rewrite Hne. apply elem_of_app. right.
    by apply list_elem_of_singleton.
Qed.

(** * Texts without empty pieces *)

Lemma string_app_assoc a b c : (a +:+ b) +:+ c = a +:+ (b +:+ c).
Proof.
  induction a as [|x a IH]; [done|].
  change (String x ((a +:+ b) +:+ c) = String x (a +:+ (b +:+ c))).
  by f_equal.
Qed.

Lemma join_space_snoc l x :
  l ≠ [] → join_space (l ++ [x]) = join_space l +:+ " " +:+ x.
Proof.
  induction l as [|a [|b l] IH]; intros Hl; [done|done|].
  change ((a :: b :: l) ++ [x]) with (a :: b :: (l ++ [x])).
  rewrite !join_space_cons, string_app_assoc.
  change (b :: l ++ [x]) with ((b :: l) ++ [x]). rewrite IH by done.
  by rewrite (string_app_assoc " ").
Qed.

Lemma join_space_snoc_any l x :
  join_space (l ++ [x])
  = if decide (l = []) then x else join_space l +:+ " " +:+ x.
Proof.
  destruct (decide (l = [])) as [->|Hl]; [done|]. by apply join_space_snoc.
Qed.

Lemma wrap_lines_flush limit text :
  wrap_lines limit text
  = flush (foldl (wrap_step limit) ([], "") (split_space text)).
Proof. unfold wrap_lines, flush. by destruct (foldl _ _ _). Qed.

(** On non-empty words the loop only regroups: the lines so far, joined, are
    the words so far, joined. *)
Lemma wrap_step_exact limit st done_words w :
  w ≠ "" →
  join_space (flush st) = join_space done_words →
  (flush st = [] ↔ done_words = []) →
  join_space (flush (wrap_step limit st w)) = join_space (done_words ++ [w]) ∧
  flush (wrap_step limit st w) ≠ [].
Proof.
  destruct st as [lines cur]. intros Hw Hjoin Hnil.
  apply truthy_true in Hw as Hwt. unfold wrap_step.
  rewrite (join_space_snoc_any done_words).
  unfold flush in Hjoin, Hnil. cbn [fst snd] in Hjoin, Hnil.
  destruct (truthy cur) eqn:Hcur.
  - assert (done_words ≠ []) as Hdone.
    { intros H. apply Hnil in H. by destruct lines. }
    rewrite decide_False by done.
    assert (truthy (cur +:+ " " +:+ w) = true) as Htest.
    { apply truthy_true. apply truthy_true in Hcur. by destruct cur. }
    destruct (Z.leb _ _); unfold flush; cbn [fst snd];
      rewrite ?Htest, ?Hwt.
    + split; [|by destruct lines]. rewrite <-Hjoin.
      rewrite !join_space_snoc_any. destruct (decide (lines = [])); [done|].
      by rewrite !string_app_assoc.
    + split; [|by destruct lines].
      rewrite join_space_snoc by (by destruct lines). by rewrite Hjoin.
  - assert (join_space (lines ++ [w])
            = if decide (done_words = []) then w
              else join_space done_words +:+ " " +:+ w) as Hgoal.
    { rewrite join_space_snoc_any, Hjoin.
      destruct (decide (lines = [])) as [Hl|Hl];
        destruct (decide (done_words = [])) as [Hd|Hd]; try done.
      - by apply Hnil in Hl.
      - by apply Hnil in Hd. }
    destruct (Z.leb _ _); unfold flush; cbn [fst snd]; rewrite ?Hwt.
    + split; [done|by destruct lines].
    + rewrite (proj2 (truthy_false "")) by done.
      split; [done|by destruct lines].
Qed.

Lemma wrap_fold_exact limit words st done_words :
  (∀ w, w ∈ words → w ≠ "") →
  join_space (flush st) = join_space done_words →
  (flush st = [] ↔ done_words = []) →
  join_space (flush (foldl (wrap_step limit) st words))
  = join_space (done_words ++ words).
Proof.
  revert st done_words.
  induction words as [|w ws IH]; intros st done_words Hne Hjoin Hnil.
  - by rewrite app_nil_r.
  - cbn [foldl].
    destruct (wrap_step_exact limit st done_words w) as [Hjoin' Hnil'];
      [apply Hne; by left|done|done|].
    rewrite (IH _ (done_words ++ [w])).
    + by rewrite <-app_assoc.
    + intros w' Hw'. apply Hne. by right.
    + done.
    + split; [done|]. by destruct done_words.
Qed.

(** A text without leading, trailing or doubled spaces is reproduced
    character for character. *)
Lemma wrap_lines_exact limit text :
  (∀ w, w ∈ split_space text → w ≠ "") →
  join_space (wrap_lines limit text) = text.
Proof.
  intros Hne. rewrite wrap_lines_flush.
  rewrite (wrap_fold_exact limit (split_space text) ([], "") []);
    [apply join_split_space|done..].
Qed.

(** * Node size *)

Lemma split_space_no_space text w :
  w ∈ split_space text → count_spaces w = 0.
Proof.
  unfold split_space. revert w.
  induction text as [|c r IH]; intros w; simpl.
  - by intros ->%list_elem_of_singleton.
  - destruct (is_space_char c) eqn:Hc.
    + intros [->|Hw]%elem_of_cons; [done|by apply IH].
    + destruct (split_on is_space_char r) as [|v vs] eqn:Hr.
      { by destruct (split_on_not_nil is_space_char r). }
      intros [->|Hw]%elem_of_cons; simpl.
      * rewrite Hc. apply IH. by left.
      * apply IH. by right.
Qed.

Lemma max_list_ge (l : list nat) n : n ∈ l → n ≤ max_list l.
Proof.
  induction 1 as [n l|n m l _ IH]; simpl; lia.
Qed.

Lemma baseSize_min text shape : (60 <= baseSize text shape)%Q.
Proof.
  unfold baseSize, minSize.
  set (b := Qmax 60 _).
  assert (60 <= b)%Q as Hb by apply Q.le_max_l.
  destruct (String.eqb shape "circle"); [|done].
  apply Qle_trans with (60 * 1.4)%Q; [by vm_compute|].
  apply Qmult_le_compat_r; [done|by vm_compute].
Qed.

Lemma baseSize_circle_min text : (84 <= baseSize text "circle")%Q.
Proof.
  unfold baseSize, minSize. simpl.
  apply Qle_trans with (60 * 1.4)%Q; [by vm_compute|].
  apply Qmult_le_compat_r; [apply Q.le_max_l|by vm_compute].
Qed.

(** C4 (as amended).  The size of a node computed at creation is a function
    of its text and shape: [max(60, longestWord*8 + wordCount*4)], times 1.4
    for a circle, where the words are the pieces of the text between single
    space characters (U+0020): joined by single spaces they give the text
    back, none contains a space, their number is the number of spaces plus
    one (so empty pieces count as words, and a tab or a line break does not
    separate words), and [longestWord] is the greatest length of a piece.
    Hence the size is at least 60, and at least 84 for a circle. *)
Theorem createNode_size x y text color textColor shape s :
  let words := split_space text in
  let longestWord := max_list (String.length <$> words) in
  let wordCount := length words in
  let base :=
    Qmax 60 (inject_Z (Z.of_nat (longestWord * 8 + wordCount * 4))) in
  let created := createNode x y text color textColor shape s in
  ∃ node,
    nodes created.2 !! created.1 = Some node ∧
    Node.text node = text ∧
    Node.shape node = shape ∧
    Node.size node =
      (if String.eqb shape "circle" then base * 1.4 else base)%Q ∧
    join_space words = text ∧
    (∀ w, w ∈ words →
       count_spaces w = 0 ∧ String.length w ≤ longestWord) ∧
    wordCount = S (count_spaces text) ∧
    (60 <= Node.size node)%Q ∧
    (shape = "circle" → (84 <= Node.size node)%Q).
Proof.
  intros words longestWord wordCount base created.
  eexists. split; [apply lookup_insert_eq|]. simpl.
  repeat split.
  - apply join_split_space.
  - by eapply split_space_no_space.
  - apply max_list_ge, list_elem_of_fmap. eauto.
  - apply length_split_space.
  - apply baseSize_min.
  - intros ->. apply baseSize_circle_min.
Qed.

Lemma createNode_size_witness :
  let created := createNode 0 0 "Hi" "#4A90E2" "#FFFFFF" "circle" initial in
  ∃ node,
    nodes created.2 !! created.1 = Some node ∧ (84 <= Node.size node)%Q.
Proof.
  destruct (createNode_size 0 0 "Hi" "#4A90E2" "#FFFFFF" "circle" initial)
    as (node & Hnode & _ & _ & _ & _ & _ & _ & _ & Hcircle).
  exists node. split; [exact Hnode|]. apply Hcircle. reflexivity.
Defined.

(** C4 as the spec states it fails: a tab lies inside one word of the code
    and between two words of the spec, so that on a 15-character text of two
    7-letter words the code computes 15*8 + 1*4 = 124 where the spec has
    7*8 + 2*4 = 64; and between two spaces in a row the code counts an empty
    word, so that it computes 7*8 + 3*4 = 68 where the spec has
    7*8 + 2*4 = 64. *)
Lemma createNode_size_counterexample :
  let text := "aaaaaaa" +:+ String "009"%char "bbbbbbb" in
  let created := createNode 0 0 text "#4A90E2" "#FFFFFF" "square" initial in
  let text' := "aaaaaaa  b" in
  let created' := createNode 0 0 text' "#4A90E2" "#FFFFFF" "square" initial in
  ∃ node node',
    nodes created.2 !! created.1 = Some node ∧
    Node.size node = 124%Q ∧
    spec_computeNodeSize text "square" = 64%Q ∧
    ¬ (Node.size node == spec_computeNodeSize text "square")%Q ∧
    nodes created'.2 !! created'.1 = Some node' ∧
    Node.size node' = 68%Q ∧
    spec_computeNodeSize text' "square" = 64%Q ∧
    ¬ (Node.size node' == spec_computeNodeSize text' "square")%Q.
Proof.
  do 2 eexists. split; [apply lookup_insert_eq|].
  split; [by vm_compute|]. split; [by vm_compute|].
  split; [vm_compute; discriminate|].
  split; [apply lookup_insert_eq|].
  split; [by vm_compute|]. split; [by vm_compute|].
  vm_compute. discriminate.
Qed.

(** * Line wrapping *)

(** C5.  For every text, size and shape, the lines produced by
    [renderWrappedText], joined with single spaces, have the words of the
    text, in order and unchanged: both its words in the sense of the spec
    (maximal runs of characters that are not white space) and the non-empty
    pieces between spaces that the code works on.  A word longer than the
    limit of characters per line is a line by itself.  When no piece between
    spaces is empty (no leading, trailing or doubled space), the joined lines
    are the text itself, character for character; otherwise only spaces can
    be missing. *)
Theorem renderWrappedText_keeps_words text size shape :
  let lines := renderWrappedText text size shape in
  spec_words (join_space lines) = spec_words text ∧
  tokens is_space_char (join_space lines) = tokens is_space_char text ∧
  (∀ w, w ∈ split_space text →
     (maxCharsPerLine size shape < Z.of_nat (String.length w))%Z →
     w ∈ lines) ∧
  ((∀ w, w ∈ split_space text → w ≠ "") → join_space lines = text).
Proof.
  intros lines. subst lines. unfold renderWrappedText, spec_words.
  split; [by apply wrap_lines_tokens|].
  split; [by apply wrap_lines_tokens|].
  split; [intros w; apply wrap_lines_long|apply wrap_lines_exact].
Qed.

Lemma renderWrappedText_keeps_words_witness :
  "cdefghijk" ∈ renderWrappedText "ab cdefghijk" 60 "circle".
Proof.
  apply (renderWrappedText_keeps_words "ab cdefghijk" 60 "circle").
  - vm_compute. apply list_elem_of_further, list_elem_of_here.
  - vm_compute. reflexivity.
Defined.

(** * Moving a node *)

(** C10.  [moveNode(id, x, y)] on a node of the model overwrites [x] and [y]
    of that node and nothing else: the other fields of the node, the other
    nodes, the edges and the rest of the state are as before; for an id that
    is not in the model the whole state is unchanged. *)
Theorem moveNode_frame nodeId x y s :
  let s' := moveNode nodeId x y s in
  (∀ node, nodes s !! nodeId = Some node →
     ∃ node', nodes s' !! nodeId = Some node' ∧
       Node.x node' = x ∧ Node.y node' = y ∧
       Node.id node' = Node.id node ∧ Node.text node' = Node.text node ∧
       Node.color node' = Node.color node ∧
       Node.textColor node' = Node.textColor node ∧
       Node.shape node' = Node.shape node ∧
       Node.size node' = Node.size node ∧
       Node.radius node' = Node.radius node) ∧
  (∀ other, other ≠ nodeId → nodes s' !! other = nodes s !! other) ∧
  connections s' = connections s ∧
  s' = set_nodes (nodes s') s ∧
  (nodes s !! nodeId = None → s' = s).
Proof.
  intros s'. subst s'. unfold moveNode.
  destruct (nodes s !! nodeId) as [node|] eqn:Hnode; simpl.
  - split; [|split; [|done]].
    + intros ? [= <-]. eexists. split; [apply lookup_insert_eq|]. done.
    + intros other Hne. by apply lookup_insert_ne.
  - repeat split; try done. by destruct s.
Qed.

Lemma moveNode_frame_witness :
  let s := (createNode 0 0 "Hi" "#4A90E2" "#FFFFFF" "circle" initial).2 in
  ∃ node', nodes (moveNode "node_1" 5 7 s) !! "node_1" = Some node' ∧
    Node.x node' = 5%Q ∧ Node.y node' = 7%Q ∧ Node.text node' = "Hi".
Proof.
  intros s.
  destruct (moveNode_frame "node_1" 5 7 s) as (Hmoved & _).
  destruct (Hmoved (Node.mk "node_1" 0 0 "Hi" "#4A90E2" "#FFFFFF" "circle"
                      (baseSize "Hi" "circle") (baseSize "Hi" "circle")))
    as (node' & Hn & Hx & Hy & _ & Ht & _).
  { apply lookup_insert_eq. }
  exists node'. repeat split; assumption.
Defined.

(** * Creating a connection *)

Lemma id_below_fresh prefix counter :
  ¬ id_below prefix counter (prefix +:+ pretty (N.succ counter)).
Proof.
  intros (k & Hk & Hle). apply (inj (String.app prefix)) in Hk.
  apply (inj pretty) in Hk. lia.
Qed.

(** C1 (as amended).  [createConnection(startId, endId)] never fails and
    does not look at the node set: it increments the counter, stores the edge
    [{id, start, end}] under the id "connection_" + counter and returns that
    id, leaving the nodes alone.  When both ids are in the node set this is
    what the spec asks of [addEdge]; and when the ids of the model were made
    by its counters the edge is a new one. *)
Theorem createConnection_stores startNodeId endNodeId s :
  let created := createConnection startNodeId endNodeId s in
  let id := "connection_" +:+ pretty (N.succ (connectionCounter s)) in
  created.1 = id ∧
  connectionCounter created.2 = N.succ (connectionCounter s) ∧
  connections created.2
    = <[id := Connection.mk id startNodeId endNodeId]> (connections s) ∧
  connections created.2 !! id
    = Some (Connection.mk id startNodeId endNodeId) ∧
  nodes created.2 = nodes s ∧
  (is_Some (nodes s !! startNodeId) → is_Some (nodes s !! endNodeId) →
     spec_addEdge startNodeId endNodeId s = (EdgeId created.1, created.2)) ∧
  (ids_bounded s → connections s !! id = None).
Proof.
  simpl. repeat split.
  - apply lookup_insert_eq.
  - intros [? Ha] [? Hb]. unfold spec_addEdge. by rewrite Ha, Hb.
  - intros [_ Hb].
    destruct (connections s !! _) eqn:Hc; [|done].
    destruct (id_below_fresh "connection_" (connectionCounter s)).
    apply Hb. by rewrite Hc.
Qed.

(** C1 as the spec states it fails: with an end point that is not in the
    node set the call returns an id and the edge set has one edge more, where
    the spec has a [ReferenceError] and an unchanged edge set. *)
Lemma createConnection_counterexample :
  let s := (createNode 0 0 "A" "#4A90E2" "#FFFFFF" "circle" initial).2 in
  let created := createConnection "node_1" "node_7" s in
  is_Some (nodes s !! "node_1") ∧
  nodes s !! "node_7" = None ∧
  spec_addEdge "node_1" "node_7" s = (ReferenceError, s) ∧
  created.1 = "connection_1" ∧
  connections s !! "connection_1" = None ∧
  connections created.2 !! "connection_1"
    = Some (Connection.mk "connection_1" "node_1" "node_7") ∧
  connections created.2 ≠ connections s.
Proof.
  intros s created.
  split; [by eexists; vm_compute|].
  repeat split; by vm_compute.
Qed.

(** * Batch edit *)

Lemma batch_edited_idemp c tc sh node :
  batch_edited c tc sh (batch_edited c tc sh node) = batch_edited c tc sh node.
Proof.
  unfold batch_edited. simpl.
  destruct sh as [sh|]; [destruct (truthy sh) eqn:Hsh; rewrite ?Hsh|]; done.
Qed.

Lemma saveMultipleNodeEdit_each_lookup c tc sh s nodeId k :
  nodes (saveMultipleNodeEdit_each c tc sh s nodeId) !! k
  = if decide (k = nodeId) then batch_edited c tc sh <$> nodes s !! k
    else nodes s !! k.
Proof.
  unfold saveMultipleNodeEdit_each.
  destruct (nodes s !! nodeId) as [node|] eqn:Hnode; simpl.
  - destruct (decide (k = nodeId)) as [->|Hne].
    + by rewrite lookup_insert_eq, Hnode.
    + by rewrite lookup_insert_ne.
  - destruct (decide (k = nodeId)) as [->|Hne]; [by rewrite Hnode|done].
Qed.

Lemma saveMultipleNodeEdit_each_graph c tc sh s nodeId :
  saveMultipleNodeEdit_each c tc sh s nodeId
  = set_nodes (nodes (saveMultipleNodeEdit_each c tc sh s nodeId)) s.
Proof.
  unfold saveMultipleNodeEdit_each.
  destruct (nodes s !! nodeId); simpl; [done|by destruct s].
Qed.

Lemma saveMultipleNodeEdit_fold_lookup c tc sh editing s k :
  nodes (foldl (saveMultipleNodeEdit_each c tc sh) s editing) !! k
  = if decide (k ∈ editing) then batch_edited c tc sh <$> nodes s !! k
    else nodes s !! k.
Proof.
  revert s. induction editing as [|a l IH]; intros s; cbn [foldl].
  - destruct (decide (k ∈ [])) as [[]%elem_of_nil|]; done.
  - rewrite IH, saveMultipleNodeEdit_each_lookup.
    destruct (decide (k = a)) as [->|Hne].
    + destruct (decide (a ∈ a :: l)) as [_|[]]; [|by left].
      destruct (decide (a ∈ l)); [|done].
      destruct (nodes s !! a); simpl; [|done].
      by rewrite batch_edited_idemp.
    + destruct (decide (k ∈ l)) as [Hin|Hnin];
        destruct (decide (k ∈ a :: l)) as [Hin'|Hnin']; try done.
      * destruct Hnin'. by right.
      * by apply elem_of_cons in Hin' as [?|?].
Qed.

Lemma nodes_update_trans s y x :
  y = set_nodes (nodes y) s → x = set_nodes (nodes x) y →
  x = set_nodes (nodes x) s.
Proof. intros Hy Hx. rewrite Hx, Hy. reflexivity. Qed.

Lemma saveMultipleNodeEdit_fold_graph c tc sh editing s :
  foldl (saveMultipleNodeEdit_each c tc sh) s editing
  = set_nodes (nodes (foldl (saveMultipleNodeEdit_each c tc sh) s editing)) s.
Proof.
  revert s. induction editing as [|a l IH]; intros s; cbn [foldl].
  - by destruct s.
  - eapply nodes_update_trans; [|apply IH].
    apply saveMultipleNodeEdit_each_graph.
Qed.

(** C8.  With more than one node selected, opening the edit dialog records
    the selected ids; saving then gives every recorded node that is in the
    model the fill colour and the text colour of the dialog and the shape
    chosen there (the node keeps its shape when none is chosen), keeps its
    text, whatever the text input holds, and computes its size from its own
    text and its shape after the edit:
    [max(60, longestWord*8 + wordCount*4)], times 1.4 for a circle, over the
    pieces of the node's own text between single spaces.  Nodes that were
    not recorded, and the edges, are unchanged, and no node appears or
    disappears. *)
Theorem saveNodeEdit_batch :
  (∀ s0 nodeId,
     1 < length (selectedNodes s0) →
     currentEditingNodes (editNode nodeId s0) = Some (selectedNodes s0) ∧
     nodes (editNode nodeId s0) = nodes s0) ∧
  (∀ nodeText nodeColor textColor editing s,
     currentEditingNodes s = Some editing →
     1 < length editing →
     let s' := saveNodeEdit nodeText nodeColor textColor s in
     (∀ nodeId node,
        nodeId ∈ editing → nodes s !! nodeId = Some node →
        let words := split_space (Node.text node) in
        let longestWord := max_list (String.length <$> words) in
        let wordCount := length words in
        let base :=
          Qmax 60 (inject_Z (Z.of_nat (longestWord * 8 + wordCount * 4))) in
        ∃ node',
          nodes s' !! nodeId = Some node' ∧
          Node.color node' = nodeColor ∧
          Node.textColor node' = textColor ∧
          Node.shape node' =
            match selectedShape s with
            | Some chosen => if truthy chosen then chosen else Node.shape node
            | None => Node.shape node
            end ∧
          Node.text node' = Node.text node ∧
          Node.size node' = baseSize (Node.text node) (Node.shape node') ∧
          Node.size node' =
            (if String.eqb (Node.shape node') "circle" then base * 1.4
             else base)%Q ∧
          Node.radius node' = Node.size node' ∧
          join_space words = Node.text node ∧
          (∀ w, w ∈ words →
             count_spaces w = 0 ∧ String.length w ≤ longestWord) ∧
          wordCount = S (count_spaces (Node.text node)) ∧
          Node.id node' = Node.id node ∧
          Node.x node' = Node.x node ∧
          Node.y node' = Node.y node) ∧
     (∀ nodeId, nodeId ∉ editing → nodes s' !! nodeId = nodes s !! nodeId) ∧
     (∀ nodeId, nodes s !! nodeId = None → nodes s' !! nodeId = None) ∧
     connections s' = connections s).
Proof.
  split.
  - intros s0 nodeId Hsel. unfold editNode.
    rewrite bool_decide_eq_true_2 by done.
    unfold editMultipleNodes. by destruct (_ ≫= _).
  - intros nodeText nodeColor textColor editing s Hed Hlen s'. subst s'.
    unfold saveNodeEdit, saveMultipleNodeEdit. rewrite Hed.
    rewrite bool_decide_eq_true_2 by done. simpl.
    split; [|split; [|split]].
    + intros nodeId node Hin Hnode.
      exists (batch_edited nodeColor textColor (selectedShape s) node).
      split.
      { by rewrite saveMultipleNodeEdit_fold_lookup, decide_True, Hnode. }
      do 7 (split; [done|]).
      split; [apply join_split_space|].
      split; [|split; [apply length_split_space|by repeat split]].
      intros w Hw. split; [by eapply split_space_no_space|].
      apply max_list_ge, list_elem_of_fmap. eauto.
    + intros nodeId Hnin.
      by rewrite saveMultipleNodeEdit_fold_lookup, decide_False.
    + intros nodeId Hnone.
      rewrite saveMultipleNodeEdit_fold_lookup, Hnone.
      by destruct (decide _).
    + by rewrite saveMultipleNodeEdit_fold_graph.
Qed.

Lemma saveNodeEdit_batch_witness :
  let s :=
    run
      [WelcomeTimer 800 600; ToolBtn Tool.node; CanvasClick 100 0 false;
       ToolBtn Tool.select; NodeClick "node_1" true false;
       NodeClick "node_2" true false; NodeDblClick "node_1";
       ShapeOptionClick (Some "square")]
      initial in
  let s' := saveNodeEdit "ignored" "#FF0000" "#000000" s in
  ∃ node1 node2,
    nodes s' !! "node_1" = Some node1 ∧
    nodes s' !! "node_2" = Some node2 ∧
    Node.color node1 = "#FF0000" ∧ Node.color node2 = "#FF0000" ∧
    Node.shape node1 = "square" ∧ Node.shape node2 = "square" ∧
    Node.text node1 = "Welcome to MindMap!" ∧ Node.text node2 = "New Node" ∧
    Node.size node1 = 76%Q ∧ Node.size node2 = 60%Q.
Proof.
  intros s s'.
  destruct (proj2 saveNodeEdit_batch "ignored" "#FF0000" "#000000"
              ["node_1"; "node_2"] s) as (Hedit & _).
  { by vm_compute. }
  { vm_compute. lia. }
  fold s' in Hedit.
  assert (∃ n, nodes s !! "node_1" = Some n ∧
               Node.text n = "Welcome to MindMap!") as (n1 & Hn1 & Ht1)
    by (eexists; split; by vm_compute).
  assert (∃ n, nodes s !! "node_2" = Some n ∧ Node.text n = "New Node")
    as (n2 & Hn2 & Ht2) by (eexists; split; by vm_compute).
  assert (selectedShape s = Some "square") as Hshape by (by vm_compute).
  clearbody s' s.
  destruct (Hedit "node_1" n1) as
    (node1 & Hs1 & Hc1 & _ & Hsh1 & Hx1 & Hsz1 & _);
    [apply list_elem_of_here|done|].
  destruct (Hedit "node_2" n2) as
    (node2 & Hs2 & Hc2 & _ & Hsh2 & Hx2 & Hsz2 & _);
    [apply list_elem_of_further, list_elem_of_here|done|].
  rewrite Hshape in Hsh1, Hsh2. cbn in Hsh1, Hsh2.
  rewrite Hsh1, Ht1 in Hsz1. rewrite Hsh2, Ht2 in Hsz2.
  exists node1, node2.
  split; [done|]. split; [done|]. split; [done|]. split; [done|].
  split; [done|]. split; [done|].
  split; [congruence|]. split; [congruence|].
  split; [rewrite Hsz1|rewrite Hsz2]; by vm_compute.
Defined.

(** * Methods that only touch the graph *)

Lemma foldl_invariant {A B} (P : A → Prop) (f : A → B → A) l a :
  P a → (∀ a' b, P a' → P (f a' b)) → P (foldl f a l).
Proof.
  intros Ha Hf. revert a Ha.
  induction l as [|b l IH]; intros a Ha; simpl; [done|]. by apply IH, Hf.
Qed.

Lemma graph_update_refl s : graph_update s s.
Proof. unfold graph_update. by destruct s. Qed.

Lemma graph_update_set_nodes s s' v :
  graph_update s s' → graph_update s (set_nodes v s').
Proof. unfold graph_update. intros ->. reflexivity. Qed.

Lemma graph_update_set_connections s s' v :
  graph_update s s' → graph_update s (set_connections v s').
Proof. unfold graph_update. intros ->. reflexivity. Qed.

Lemma graph_update_moveNode s s' nodeId x y :
  graph_update s s' → graph_update s (moveNode nodeId x y s').
Proof.
  intros H. unfold moveNode. destruct (nodes s' !! nodeId); [|done].
  by apply graph_update_set_nodes.
Qed.

Lemma graph_update_deleteConnection s s' k :
  graph_update s s' → graph_update s (deleteConnection k s').
Proof. intros H. by apply graph_update_set_connections. Qed.

Lemma graph_update_foldl {B} (f : MindMapCreator → B → MindMapCreator) l s s' :
  (∀ t b, graph_update s t → graph_update s (f t b)) →
  graph_update s s' → graph_update s (foldl f s' l).
Proof. intros Hf Hs. by apply (foldl_invariant (graph_update s)). Qed.

Lemma graph_update_deleteNode s s' nodeId :
  graph_update s s' → graph_update s (deleteNode nodeId s').
Proof.
  intros H. unfold deleteNode. apply graph_update_set_nodes.
  apply graph_update_foldl; [|done].
  intros t k. apply graph_update_deleteConnection.
Qed.

Lemma graph_update_move_all s x y l :
  graph_update s (foldl (λ st nodeId, moveNode nodeId x y st) s l).
Proof.
  apply graph_update_foldl; [|apply graph_update_refl].
  intros t k. apply graph_update_moveNode.
Qed.

Lemma graph_update_delete_all s :
  graph_update s
    (foldl (λ st nodeId, deleteNode nodeId st)
       (foldl (λ st k, deleteConnection k st) s (selectedConnections s))
       (selectedNodes
          (foldl (λ st k, deleteConnection k st) s (selectedConnections s)))).
Proof.
  apply graph_update_foldl.
  - intros t k. apply graph_update_deleteNode.
  - apply graph_update_foldl; [|apply graph_update_refl].
    intros t k. apply graph_update_deleteConnection.
Qed.

(** The fields that a graph update leaves alone. *)
Lemma graph_update_fields s s' :
  graph_update s s' →
  zoom s' = zoom s ∧ pan s' = pan s ∧ mindmaps s' = mindmaps s ∧
  nodeCounter s' = nodeCounter s ∧
  connectionCounter s' = connectionCounter s ∧
  currentTool s' = currentTool s ∧ isConnecting s' = isConnecting s ∧
  connectionStart s' = connectionStart s ∧
  tempConnection s' = tempConnection s ∧
  selectedNodes s' = selectedNodes s ∧
  selectedConnections s' = selectedConnections s.
Proof. unfold graph_update. intros ->. by repeat split. Qed.

(** * Properties of objects *)

Lemma object_set_Some {V} (obj : gmap string V) key v j y :
  object_set obj key v !! j = Some y →
  key = j ∧ v = y ∨ key ≠ j ∧ obj !! j = Some y.
Proof.
  unfold object_set. destruct (obj !! key) eqn:Hkey.
  - apply lookup_insert_Some.
  - destruct (String.eqb key "__proto__"); [|apply lookup_insert_Some].
    intros Hj. right. split; [|done]. intros ->. congruence.
Qed.

Lemma object_set_stored {V} (obj : gmap string V) key v :
  key ≠ "__proto__" → object_set obj key v = <[key := v]> obj.
Proof.
  intros Hkey. unfold object_set. destruct (obj !! key); [done|].
  by destruct (String.eqb_spec key "__proto__").
Qed.

Lemma object_get_own {V} (obj : gmap string V) key v :
  object_get obj key = own v ↔ obj !! key = Some v.
Proof.
  unfold object_get. destruct (obj !! key); [naive_solver|].
  case_bool_decide; naive_solver.
Qed.

(** [loadMindMap] by the cases of its property read. *)
Lemma loadMindMap_eq selectedFile confirmed s :
  loadMindMap selectedFile confirmed s
  = match selectedFile with
    | None => s
    | Some fileName =>
        match mindmaps s !! fileName with
        | Some mindmapData =>
            set_connectionCounter
              (or_zero (MindmapData.connectionCounter mindmapData))
              (set_nodeCounter (or_zero (MindmapData.nodeCounter mindmapData))
                 (set_connections
                    (Map_of_entries (MindmapData.connections mindmapData))
                    (set_nodes (Map_of_entries (MindmapData.nodes mindmapData))
                       (clearAll confirmed s))))
        | None =>
            if bool_decide (fileName ∈ Object_prototype_keys)
            then set_connectionCounter 0
                   (set_nodeCounter 0
                      (set_connections ∅
                         (set_nodes ∅ (clearAll confirmed s))))
            else s
        end
    end.
Proof.
  unfold loadMindMap, object_get. destruct selectedFile as [fileName|]; [|done].
  destruct (mindmaps s !! fileName); [done|]. by case_bool_decide.
Qed.

(** Unfolding of the methods that are not loops. *)
Ltac unfold_methods :=
  rewrite ?loadMindMap_eq in *;
  unfold handleCanvasClick, handleCanvasMouseDown, handleCanvasMouseUp,
    handleCanvasWheel, handleKeyDown, handleNodeClick, handleConnectionClick,
    editNode, editMultipleNodes, saveNodeEdit, hideNodeModal, saveMindMap,
    deleteSavedFile, createWelcomeNode, clearAll, setTool,
    updateTempConnection, startConnection, completeConnection, selectNode,
    toggleNodeSelection, selectConnection, createConnection, createNode,
    clearSelection, clearTempConnection, zoomIn, zoomOut, resetZoom,
    constructor, object_get, object_set in *.

(** * The view transform *)

Lemma handleCanvasMouseMove_view x y s :
  zoom (handleCanvasMouseMove x y s) = zoom s ∧
  pan (handleCanvasMouseMove x y s) = pan s.
Proof.
  unfold handleCanvasMouseMove.
  set (s1 := if _ && _ then _ else s).
  assert (graph_update s s1) as Hs1.
  { subst s1. destruct (_ && _);
      [apply graph_update_move_all|apply graph_update_refl]. }
  apply graph_update_fields in Hs1 as (Hz & Hp & _).
  rewrite <-Hz, <-Hp. clearbody s1. unfold_methods.
  by repeat (case_match; simpl).
Qed.

Lemma deleteSelected_view s :
  zoom (deleteSelected s) = zoom s ∧ pan (deleteSelected s) = pan s.
Proof.
  unfold deleteSelected. simpl.
  by pose proof (graph_update_fields _ _ (graph_update_delete_all s))
    as (-> & -> & _).
Qed.

Lemma saveMultipleNodeEdit_view c tc s :
  zoom (saveMultipleNodeEdit c tc s) = zoom s ∧
  pan (saveMultipleNodeEdit c tc s) = pan s.
Proof.
  unfold saveMultipleNodeEdit. destruct (currentEditingNodes s); [|done].
  simpl. by rewrite saveMultipleNodeEdit_fold_graph.
Qed.

(** Every event other than the three zoom steps, the reset and a reload of
    the page leaves zoom and pan as they are. *)
Lemma handle_view e s :
  match e with
  | CanvasWheel _ | ZoomInBtn | ZoomOutBtn | ResetZoomBtn | Reload => True
  | _ => zoom (handle e s) = zoom s ∧ pan (handle e s) = pan s
  end.
Proof.
  destruct e; simpl; try done;
    try apply handleCanvasMouseMove_view; try apply deleteSelected_view.
  all: unfold_methods; repeat (case_match; simpl; try done);
    try apply deleteSelected_view; try apply saveMultipleNodeEdit_view.
Qed.

(** C9.  The three zoom steps leave the pan offset unchanged; [resetZoom]
    sets zoom to 1 and pan to (0, 0); and no handler other than the reset
    assigns the pan at all (a reload of the page constructs a new object,
    whose pan is again (0, 0)). *)
Theorem zoom_steps_keep_pan s :
  pan (zoomIn s) = pan s ∧
  pan (zoomOut s) = pan s ∧
  (∀ deltaY, pan (handleCanvasWheel deltaY s) = pan s) ∧
  zoom (resetZoom s) = 1%Q ∧
  pan (resetZoom s) = Point.mk 0 0 ∧
  (∀ e, e ≠ ResetZoomBtn → e ≠ Reload → pan (handle e s) = pan s).
Proof.
  repeat split; try done.
  intros e Hreset Hreload. pose proof (handle_view e s) as H.
  destruct e; try done; by destruct H.
Qed.

Lemma zoom_steps_keep_pan_witness :
  pan (handle (CanvasWheel 120) (handle ZoomInBtn initial)) = Point.mk 0 0.
Proof.
  destruct (zoom_steps_keep_pan (handle ZoomInBtn initial))
    as (_ & _ & _ & _ & _ & Hother).
  rewrite (Hother (CanvasWheel 120)); [reflexivity|discriminate|discriminate].
Defined.

Lemma clamp_in_range z : (0.1 <= Qmax 0.1 (Qmin 3 z))%Q ∧ (Qmax 0.1 (Qmin 3 z) <= 3)%Q.
Proof.
  split; [apply Q.le_max_l|].
  apply Q.max_lub; [by vm_compute|apply Q.le_min_l].
Qed.

Lemma zoomIn_in_range s : zoom_in_range s → zoom_in_range (zoomIn s).
Proof.
  unfold zoom_in_range, zoomIn. simpl. intros [Hlo Hhi]. split.
  - apply Q.min_glb; [by vm_compute|]. lra.
  - apply Q.le_min_l.
Qed.

Lemma zoomOut_in_range s : zoom_in_range s → zoom_in_range (zoomOut s).
Proof.
  unfold zoom_in_range, zoomOut. simpl. intros [Hlo Hhi]. split.
  - apply Q.le_max_l.
  - apply Q.max_lub; [by vm_compute|].
    apply Qle_shift_div_r; [by vm_compute|]. lra.
Qed.

Lemma handle_zoom_in_range e s : zoom_in_range s → zoom_in_range (handle e s).
Proof.
  intros Hs. pose proof (handle_view e s) as H. unfold zoom_in_range.
  destruct e;
    first [ rewrite (proj1 H); exact Hs
          | apply clamp_in_range
          | by apply zoomIn_in_range
          | by apply zoomOut_in_range
          | split; by vm_compute ].
Qed.

(** An invariant of the handlers holds in every state of a run. *)
Lemma run_invariant (P : MindMapCreator → Prop) events s :
  (∀ e t, P t → P (handle e t)) → P s → P (run events s).
Proof.
  intros Hstep Hs. unfold run.
  apply foldl_invariant; [done|]. intros t e. apply Hstep.
Qed.

(** C6.  From the zoom of 1 that the constructor sets, after every finite
    sequence of events (among them the zoom-in and zoom-out buttons, wheel
    events with any [deltaY], and the reset) the zoom factor lies within
    [0.1, 3]. *)
Theorem zoom_stays_in_range events :
  zoom initial = 1%Q ∧
  (0.1 <= zoom (run events initial))%Q ∧
  (zoom (run events initial) <= 3)%Q.
Proof.
  split; [done|].
  change (zoom_in_range (run events initial)).
  apply run_invariant; [apply handle_zoom_in_range|].
  split; by vm_compute.
Qed.

(** * Deleting *)

Lemma delete_all_graph s ks :
  let s' := foldl (λ st k, deleteConnection k st) s ks in
  s' = set_connections (connections s') s.
Proof.
  revert s. induction ks as [|a l IH]; intros s; cbn [foldl].
  - by destruct s.
  - cbv zeta in IH. rewrite IH at 1. reflexivity.
Qed.

Lemma delete_all_lookup s ks k :
  connections (foldl (λ st k, deleteConnection k st) s ks) !! k
  = if decide (k ∈ ks) then None else connections s !! k.
Proof.
  revert s. induction ks as [|a l IH]; intros s; cbn [foldl].
  - destruct (decide (k ∈ [])) as [[]%elem_of_nil|]; done.
  - rewrite IH. unfold deleteConnection. simpl.
    destruct (decide (k ∈ l)) as [Hin|Hnin];
      destruct (decide (k ∈ a :: l)) as [Hin'|Hnin']; try done.
    + destruct Hnin'. by right.
    + apply elem_of_cons in Hin' as [->|?]; [|done]. apply lookup_delete_eq.
    + apply lookup_delete_ne. intros ->. apply Hnin'. by left.
Qed.

Lemma deleteNode_nodes nodeId s :
  nodes (deleteNode nodeId s) = delete nodeId (nodes s).
Proof.
  unfold deleteNode. simpl. by rewrite delete_all_graph.
Qed.

(** [deleteNode] keeps exactly the connections that do not touch the node. *)
Lemma deleteNode_connections nodeId s k :
  connections (deleteNode nodeId s) !! k
  = match connections s !! k with
    | Some c =>
        if decide (Connection.start c = nodeId ∨ Connection.end_ c = nodeId)
        then None else Some c
    | None => None
    end.
Proof.
  unfold deleteNode. simpl. rewrite delete_all_lookup. unfold entries.
  destruct (decide (k ∈ _)) as [Hin|Hnin].
  - apply list_elem_of_fmap in Hin as ([k' c] & -> & Hin).
    apply list_elem_of_filter in Hin as [Hp Hin].
    apply elem_of_map_to_list in Hin. simpl in *. rewrite Hin.
    by rewrite decide_True.
  - destruct (connections s !! k) as [c|] eqn:Hc; [|done].
    destruct (decide _) as [Hp|]; [|done].
    destruct Hnin. apply list_elem_of_fmap. exists (k, c). split; [done|].
    apply list_elem_of_filter. split; [done|]. by apply elem_of_map_to_list.
Qed.

Lemma deleteNode_connections_sub nodeId s :
  connections (deleteNode nodeId s) ⊆ connections s.
Proof.
  apply map_subseteq_spec. intros k c. rewrite deleteNode_connections.
  destruct (connections s !! k); [|done]. by destruct (decide _).
Qed.

Lemma shrinks_refl s : shrinks s s.
Proof. split; [apply graph_update_refl|done]. Qed.

Lemma shrinks_deleteConnection s s' k :
  shrinks s s' → shrinks s (deleteConnection k s').
Proof.
  intros (Hg & Hn & Hc). split; [by apply graph_update_deleteConnection|].
  split; [done|]. simpl. etrans; [apply delete_subseteq|done].
Qed.

Lemma shrinks_deleteNode s s' nodeId :
  shrinks s s' → shrinks s (deleteNode nodeId s').
Proof.
  intros (Hg & Hn & Hc). split; [by apply graph_update_deleteNode|]. split.
  - rewrite deleteNode_nodes. etrans; [apply delete_subseteq|done].
  - etrans; [apply deleteNode_connections_sub|done].
Qed.

Lemma shrinks_deleteSelected s :
  ∃ s', shrinks s s' ∧ deleteSelected s = clearSelection s'.
Proof.
  eexists. split; [|reflexivity].
  apply (foldl_invariant (shrinks s)).
  - apply (foldl_invariant (shrinks s)); [apply shrinks_refl|].
    intros t k. apply shrinks_deleteConnection.
  - intros t k. apply shrinks_deleteNode.
Qed.

(** * End points of edges *)

Lemma edges_closed_createNode x y text color textColor shape s :
  edges_closed s →
  edges_closed (createNode x y text color textColor shape s).2.
Proof.
  intros Hs k c Hc. simpl in *. destruct (Hs k c Hc) as [Ha Hb].
  split; apply lookup_insert_is_Some'; by right.
Qed.

Lemma edges_closed_createConnection a b s :
  is_Some (nodes s !! a) → is_Some (nodes s !! b) → edges_closed s →
  edges_closed (createConnection a b s).2.
Proof.
  intros Ha Hb Hs k c. simpl.
  intros [[_ <-]|[_ Hc]]%lookup_insert_Some; [done|]. by apply (Hs k).
Qed.

Lemma edges_closed_moveNode nodeId x y s :
  edges_closed s → edges_closed (moveNode nodeId x y s).
Proof.
  intros Hs. unfold moveNode.
  destruct (nodes s !! nodeId) as [node|] eqn:Hnode; [|done].
  intros k c Hc. simpl in *. destruct (Hs k c Hc) as [Ha Hb].
  split; apply lookup_insert_is_Some'; by right.
Qed.

Lemma deleteNode_connections_Some nodeId s k c :
  connections (deleteNode nodeId s) !! k = Some c ↔
  connections s !! k = Some c ∧
  Connection.start c ≠ nodeId ∧ Connection.end_ c ≠ nodeId.
Proof.
  rewrite deleteNode_connections.
  destruct (connections s !! k) as [c'|]; [|split; [done|by intros [? _]]].
  destruct (decide _) as [Hp|Hnp].
  - split; [done|]. intros ([= ->] & Ha & Hb). by destruct Hp.
  - split; [|by intros [? _]]. intros [= ->]. split; [done|].
    split; intros ?; apply Hnp; auto.
Qed.

Lemma edges_closed_deleteNode nodeId s :
  edges_closed s → edges_closed (deleteNode nodeId s).
Proof.
  intros Hs k c (Hc & Ha & Hb)%deleteNode_connections_Some.
  rewrite deleteNode_nodes. destruct (Hs k c Hc) as [[na Hna] [nb Hnb]].
  split; eexists; rewrite lookup_delete_ne; done.
Qed.

Lemma edges_closed_deleteConnection k s :
  edges_closed s → edges_closed (deleteConnection k s).
Proof.
  intros Hs k' c Hc. simpl in Hc.
  apply lookup_delete_Some in Hc as [_ Hc]. by apply (Hs k').
Qed.

Lemma edges_closed_apply_ops ops s :
  edges_closed s → endpoints_given ops s → edges_closed (apply_ops ops s).
Proof.
  revert s. induction ops as [|op ops IH]; intros s Hs Hgiven; [done|].
  destruct Hgiven as [Hop Hrest]. apply IH; [|done].
  destruct op; simpl.
  - by apply edges_closed_createNode.
  - destruct Hop. by apply edges_closed_createConnection.
  - by apply edges_closed_moveNode.
  - by apply edges_closed_deleteNode.
  - by apply edges_closed_deleteConnection.
  - by intros k c Hc.
Qed.

(** C2 (as amended).  In any state, [deleteNode(id)] removes the node and
    exactly the edges whose start or end is [id], so that no remaining edge
    refers to [id]; and when every edge's end points exist in the node set
    before the call, they do after it.  That invariant holds in the empty
    model and after every sequence of [createNode], [createConnection],
    [moveNode], [deleteNode], [deleteConnection] and [clearAll] in which
    [createConnection] is only called with ids that are in the node set. *)
Theorem deleteNode_keeps_edges_closed :
  (∀ s nodeId,
     nodes (deleteNode nodeId s) = delete nodeId (nodes s) ∧
     (∀ k c,
        connections (deleteNode nodeId s) !! k = Some c ↔
        connections s !! k = Some c ∧
        Connection.start c ≠ nodeId ∧ Connection.end_ c ≠ nodeId) ∧
     (edges_closed s → edges_closed (deleteNode nodeId s))) ∧
  edges_closed initial ∧
  (∀ ops s,
     edges_closed s → endpoints_given ops s →
     edges_closed (apply_ops ops s)).
Proof.
  split; [|split].
  - intros s nodeId. split; [apply deleteNode_nodes|].
    split; [apply deleteNode_connections_Some|apply edges_closed_deleteNode].
  - by intros k c Hc.
  - apply edges_closed_apply_ops.
Qed.

Lemma deleteNode_keeps_edges_closed_witness :
  edges_closed
    (deleteNode "node_1"
       (apply_ops
          [AddNode 0 0 "A" "#4A90E2" "#FFFFFF" "circle";
           AddNode 100 0 "B" "#4A90E2" "#FFFFFF" "circle";
           AddEdge "node_1" "node_2"]
          initial)).
Proof.
  destruct deleteNode_keeps_edges_closed as (Hdelete & Hinitial & Hops).
  apply Hdelete. apply Hops; [exact Hinitial|].
  simpl. repeat split; eexists; vm_compute; reflexivity.
Defined.

(** C2 as the spec states it fails.  After the welcome node, two nodes are
    added with the node tool.  Under the connection tool, a click on node_2
    starts a connection; the Delete key removes node_2, which the click had
    selected, and leaves the connection in progress; a click on node_3 then
    stores an edge from node_2.  That edge has no start node, and it is
    still there after [deleteNode] of the welcome node.  The same happens
    with [createConnection] called on an id that is not in the model. *)
Lemma edges_closed_counterexample :
  let events :=
    [WelcomeTimer 800 600; ToolBtn Tool.node; CanvasClick 100 100 false;
     CanvasClick 300 100 false; ToolBtn Tool.connection;
     NodeClick "node_2" false false; KeyDown "BODY" "Delete" false;
     NodeClick "node_3" false false] in
  let s := run events initial in
  let s' := deleteNode "node_1" s in
  let t :=
    apply_ops
      [AddNode 0 0 "A" "#4A90E2" "#FFFFFF" "circle";
       AddEdge "node_1" "node_9"; RemoveNode "node_5"] initial in
  connections s' !! "connection_1"
    = Some (Connection.mk "connection_1" "node_2" "node_3") ∧
  nodes s' !! "node_2" = None ∧
  ¬ edges_closed s ∧
  ¬ edges_closed s' ∧
  ¬ edges_closed t.
Proof.
  intros events s s' t.
  assert (connections s' !! "connection_1"
          = Some (Connection.mk "connection_1" "node_2" "node_3")) as Hc'
    by (by vm_compute).
  assert (nodes s' !! "node_2" = None) as Hn' by (by vm_compute).
  assert (connections s !! "connection_1"
          = Some (Connection.mk "connection_1" "node_2" "node_3")) as Hc
    by (by vm_compute).
  assert (nodes s !! "node_2" = None) as Hn by (by vm_compute).
  assert (connections t !! "connection_1"
          = Some (Connection.mk "connection_1" "node_1" "node_9")) as Hct
    by (by vm_compute).
  assert (nodes t !! "node_9" = None) as Hnt by (by vm_compute).
  clearbody s' t. clearbody s. clear events.
  split; [exact Hc'|]. split; [exact Hn'|].
  split; [|split]; intros H.
  - destruct (H _ _ Hc) as [[? Hsome] _]. cbn [Connection.start] in Hsome.
    rewrite Hn in Hsome. discriminate.
  - destruct (H _ _ Hc') as [[? Hsome] _]. cbn [Connection.start] in Hsome.
    rewrite Hn' in Hsome. discriminate.
  - destruct (H _ _ Hct) as [_ [? Hsome]]. cbn [Connection.end_] in Hsome.
    rewrite Hnt in Hsome. discriminate.
Qed.

(** * What the looping handlers leave alone *)

Lemma moveNode_is_Some nodeId x y s k :
  is_Some (nodes (moveNode nodeId x y s) !! k) ↔ is_Some (nodes s !! k).
Proof.
  unfold moveNode. destruct (nodes s !! nodeId) as [node|] eqn:Hnode; [|done].
  simpl. rewrite lookup_insert_is_Some'. split; [|by right].
  intros [->|?]; [by rewrite Hnode|done].
Qed.

Lemma moveNode_connections nodeId x y s :
  connections (moveNode nodeId x y s) = connections s.
Proof. unfold moveNode. by destruct (nodes s !! nodeId). Qed.

Lemma handleCanvasMouseMove_fields x y s :
  let s' := handleCanvasMouseMove x y s in
  isConnecting s' = isConnecting s ∧ currentTool s' = currentTool s ∧
  mindmaps s' = mindmaps s ∧
  nodeCounter s' = nodeCounter s ∧
  connectionCounter s' = connectionCounter s ∧
  connections s' = connections s ∧
  (∀ k, is_Some (nodes s' !! k) ↔ is_Some (nodes s !! k)).
Proof.
  unfold handleCanvasMouseMove.
  set (s1 := if _ && _ then _ else s).
  assert (graph_update s s1 ∧ connections s1 = connections s ∧
          ∀ k, is_Some (nodes s1 !! k) ↔ is_Some (nodes s !! k)) as Hs1.
  { subst s1. destruct (_ && _); [|split; [apply graph_update_refl|done]].
    apply (foldl_invariant (λ t, graph_update s t ∧
      connections t = connections s ∧
      ∀ k, is_Some (nodes t !! k) ↔ is_Some (nodes s !! k))).
    - split; [apply graph_update_refl|done].
    - intros t k (Hg & Hc & Hn). split; [by apply graph_update_moveNode|].
      split; [by rewrite moveNode_connections|].
      intros k'. by rewrite moveNode_is_Some. }
  destruct Hs1 as (Hg & Hc & Hn).
  apply graph_update_fields in Hg
    as (_ & _ & Hm & Hnc & Hcc & Ht & Hi & _).
  rewrite <-Hm, <-Hnc, <-Hcc, <-Ht, <-Hi, <-Hc.
  setoid_rewrite <-Hn. clearbody s1. unfold_methods.
  by repeat (case_match; simpl).
Qed.

Lemma deleteSelected_fields s :
  let s' := deleteSelected s in
  isConnecting s' = isConnecting s ∧ currentTool s' = currentTool s ∧
  mindmaps s' = mindmaps s ∧
  nodeCounter s' = nodeCounter s ∧
  connectionCounter s' = connectionCounter s ∧
  nodes s' ⊆ nodes s ∧ connections s' ⊆ connections s.
Proof.
  destruct (shrinks_deleteSelected s) as (g & (Hg & Hn & Hc) & ->).
  apply graph_update_fields in Hg
    as (_ & _ & Hm & Hnc & Hcc & Ht & Hi & _).
  simpl. by rewrite Hm, Hnc, Hcc, Ht, Hi.
Qed.

Lemma saveMultipleNodeEdit_fields c tc s :
  let s' := saveMultipleNodeEdit c tc s in
  isConnecting s' = isConnecting s ∧ currentTool s' = currentTool s ∧
  mindmaps s' = mindmaps s ∧
  nodeCounter s' = nodeCounter s ∧
  connectionCounter s' = connectionCounter s ∧
  connections s' = connections s ∧
  (∀ k, is_Some (nodes s' !! k) ↔ is_Some (nodes s !! k)).
Proof.
  unfold saveMultipleNodeEdit.
  destruct (currentEditingNodes s) as [editing|]; [|done]. simpl.
  rewrite saveMultipleNodeEdit_fold_graph. simpl. repeat split; try done.
  all: rewrite saveMultipleNodeEdit_fold_lookup; destruct (decide _);
    by rewrite ?fmap_is_Some.
Qed.

(** * A connection in progress *)

Arguments handleCanvasMouseMove : simpl never.
Arguments deleteSelected : simpl never.
Arguments saveMultipleNodeEdit : simpl never.
Arguments deleteNode : simpl never.

Lemma handle_connecting_under_tool e s :
  connecting_under_tool s → connecting_under_tool (handle e s).
Proof.
  unfold connecting_under_tool. intros Hs.
  pose proof (handleCanvasMouseMove_fields) as Hmove.
  pose proof (deleteSelected_fields s) as (Hdi & Hdt & _).
  pose proof (saveMultipleNodeEdit_fields) as Hbatch.
  destruct e; cbn.
  2: { by destruct (Hmove x y s) as (-> & -> & _). }
  all: unfold_methods; repeat (case_match; cbn; try done).
  all: rewrite ?Hdi, ?Hdt.
  all: try (destruct (Hbatch nodeColor textColor s) as (-> & -> & _)).
  all: intros Hi; try discriminate; try done; specialize (Hs Hi); congruence.
Qed.

(** * Maps and their arrays of entries *)

Lemma Map_of_entries_acc_lookup {V} (l : list (string * V))
  (acc : gmap string V) k v :
  foldl (λ m e, <[e.1 := e.2]> m) acc l !! k = Some v →
  (k, v) ∈ l ∨ acc !! k = Some v.
Proof.
  revert acc. induction l as [|[k' v'] l IH]; intros acc; simpl; [by right|].
  intros [Hin|Hacc]%IH; [left; by right|].
  apply lookup_insert_Some in Hacc as [[-> ->]|[_ Hacc]]; [left; by left|].
  by right.
Qed.

Lemma Map_of_entries_lookup {V} (l : list (string * V)) k v :
  Map_of_entries l !! k = Some v → (k, v) ∈ l.
Proof.
  intros [?|Hempty]%Map_of_entries_acc_lookup; [done|].
  by rewrite lookup_empty in Hempty.
Qed.

Lemma Map_of_entries_acc_NoDup {V} (l : list (string * V))
  (acc : gmap string V) k :
  NoDup l.*1 →
  foldl (λ m e, <[e.1 := e.2]> m) acc l !! k
  = match list_to_map (M := gmap string V) l !! k with
    | Some v => Some v
    | None => acc !! k
    end.
Proof.
  revert acc. induction l as [|[k' v'] l IH]; intros acc Hnd; simpl.
  - by rewrite lookup_empty.
  - apply NoDup_cons in Hnd as [Hk' Hnd]. rewrite IH by done.
    destruct (decide (k = k')) as [->|Hne].
    + rewrite (not_elem_of_list_to_map_1 _ k') by done.
      by rewrite !lookup_insert_eq.
    + rewrite !lookup_insert_ne by done. done.
Qed.

(** [new Map(Array.from(m.entries()))] is [m] again. *)
Lemma Map_of_entries_entries {V} (m : gmap string V) :
  Map_of_entries (entries m) = m.
Proof.
  apply map_eq. intros k. unfold Map_of_entries, entries.
  rewrite Map_of_entries_acc_NoDup by apply NoDup_fst_map_to_list.
  rewrite list_to_map_to_list, lookup_empty. by destruct (m !! k).
Qed.

Lemma or_zero_id n : or_zero n = n.
Proof. unfold or_zero. by destruct (N.eqb_spec n 0). Qed.

(** * Self-loops *)

Lemma no_self_loops_empty : no_self_loops ∅.
Proof. intros k c Hc. by rewrite lookup_empty in Hc. Qed.

Lemma no_self_loops_insert m k c :
  no_self_loop c → no_self_loops m → no_self_loops (<[k := c]> m).
Proof.
  intros Hc Hm k' c' [[_ <-]|[_ Hc']]%lookup_insert_Some; [done|].
  by apply (Hm k').
Qed.

Lemma no_self_loops_subseteq m m' :
  m' ⊆ m → no_self_loops m → no_self_loops m'.
Proof. intros Hsub Hm k c Hc. apply (Hm k). by eapply lookup_weaken. Qed.

Lemma no_self_loops_Map_of_entries l :
  (∀ e, e ∈ l → no_self_loop e.2) → no_self_loops (Map_of_entries l).
Proof. intros Hl k c Hc%Map_of_entries_lookup. by apply (Hl (k, c)). Qed.

Lemma no_self_loops_entries m e :
  no_self_loops m → e ∈ entries m → no_self_loop e.2.
Proof.
  destruct e as [k c]. intros Hm Hin%elem_of_map_to_list. by apply (Hm k).
Qed.

Lemma no_stored_self_loops_insert stored name d :
  (∀ e, e ∈ MindmapData.connections d → no_self_loop e.2) →
  no_stored_self_loops stored →
  no_stored_self_loops (<[name := d]> stored).
Proof.
  intros Hd Hs name' d' [[_ <-]|[_ Hd']]%lookup_insert_Some; [done|].
  by apply (Hs name').
Qed.

Lemma no_stored_self_loops_delete stored name :
  no_stored_self_loops stored → no_stored_self_loops (delete name stored).
Proof. intros Hs name' d' [_ Hd']%lookup_delete_Some. by apply (Hs name'). Qed.

Lemma loop_free_completeConnection nodeId s :
  loop_free s → loop_free (completeConnection nodeId s).
Proof.
  intros Hs. unfold completeConnection.
  set (s1 := match connectionStart s with Some _ => _ | None => _ end).
  assert (loop_free s1) as [Hc1 Hm1].
  { subst s1. destruct (connectionStart s) as [start|]; [|done].
    destruct (truthy start && bool_decide (start ≠ nodeId)) eqn:Hg; [|done].
    apply andb_prop in Hg as [_ Hne%bool_decide_eq_true].
    destruct Hs as [Hc Hm]. split; [|done]. cbn.
    by apply no_self_loops_insert. }
  clearbody s1. unfold clearTempConnection. split; by case_match; cbn.
Qed.

Lemma loop_free_handleNodeClick ctrlKey metaKey nodeId s :
  loop_free s → loop_free (handleNodeClick ctrlKey metaKey nodeId s).
Proof.
  intros Hs. unfold handleNodeClick.
  repeat (case_match; try done); try by apply loop_free_completeConnection.
  all: by unfold_methods; repeat (case_match; cbn).
Qed.

Lemma loop_free_deleteSelected s : loop_free s → loop_free (deleteSelected s).
Proof.
  intros [Hc Hm].
  destruct (deleteSelected_fields s) as (_ & _ & Hstore & _ & _ & _ & Hsub).
  split; [by eapply no_self_loops_subseteq|]. by rewrite Hstore.
Qed.

Lemma handle_loop_free e s : loop_free s → loop_free (handle e s).
Proof.
  intros Hs. pose proof Hs as [Hc Hm].
  pose proof handleCanvasMouseMove_fields as Hmove.
  pose proof saveMultipleNodeEdit_fields as Hbatch.
  destruct e; cbn;
    try (by apply loop_free_handleNodeClick);
    try (by apply loop_free_deleteSelected).
  2: { unfold loop_free.
       by destruct (Hmove x y s) as (_ & _ & -> & _ & _ & -> & _). }
  all: unfold_methods; repeat (case_match; cbn; try done).
  all: try (by apply loop_free_deleteSelected).
  all: unfold loop_free; cbn.
  all: try by destruct (Hbatch nodeColor textColor s)
    as (_ & _ & -> & _ & _ & -> & _).
  all: try (split; [apply no_self_loops_empty|done]).
  all: try (split; [done|]).
  all: try by apply no_stored_self_loops_delete.
  all: try (apply no_stored_self_loops_insert; [|done]; cbn;
            intros e; by apply no_self_loops_entries).
  all: try (split; [|done]; apply no_self_loops_Map_of_entries;
            by eapply Hm).
  all: done.
Qed.

(** C7.  In every state that the application can be in, while a connection
    is in progress and the node that started it is remembered, a click on
    that node changes nothing at all: the state after the click is the state
    before it, so no edge is created and the connection stays in progress.
    And no sequence of events ever leaves an edge from a node to itself in
    the model. *)
Theorem same_node_click_is_noop :
  (∀ events nodeId ctrlKey metaKey,
     let s := run events initial in
     isConnecting s = true → connectionStart s = Some nodeId →
     handle (NodeClick nodeId ctrlKey metaKey) s = s) ∧
  (∀ events k c,
     connections (run events initial) !! k = Some c →
     Connection.start c ≠ Connection.end_ c).
Proof.
  split.
  - intros events nodeId ctrlKey metaKey s Hconnecting Hstart.
    assert (connecting_under_tool s) as Htool.
    { apply run_invariant; [apply handle_connecting_under_tool|done]. }
    cbn. unfold handleNodeClick.
    rewrite (Htool Hconnecting), Hconnecting, Hstart. cbn.
    by rewrite bool_decide_eq_false_2 by (by intros []).
  - intros events k c Hc.
    assert (loop_free (run events initial)) as [Hloops _].
    { apply run_invariant; [apply handle_loop_free|].
      split; [apply no_self_loops_empty|]. intros name d Hd.
      change (mindmaps initial) with (∅ : gmap string MindmapData.t) in Hd.
      by rewrite lookup_empty in Hd. }
    by apply (Hloops k).
Qed.

Lemma same_node_click_is_noop_witness :
  let events :=
    [ToolBtn Tool.node; CanvasClick 0 0 false; ToolBtn Tool.connection;
     NodeClick "node_1" false false] in
  handle (NodeClick "node_1" false false) (run events initial)
  = run events initial.
Proof.
  intros events.
  apply (proj1 same_node_click_is_noop events "node_1" false false).
  - vm_compute. reflexivity.
  - vm_compute. reflexivity.
Defined.

(** * Ids and counters *)

Lemma keys_below_empty {V} prefix counter :
  keys_below (V := V) prefix counter ∅.
Proof. intros k [v Hv]. by rewrite lookup_empty in Hv. Qed.

Lemma id_below_mono prefix c c' k :
  (c ≤ c')%N → id_below prefix c k → id_below prefix c' k.
Proof. intros Hle (n & -> & Hn). exists n. split; [done|lia]. Qed.

Lemma keys_below_dom {V W} prefix c (m : gmap string V) (m' : gmap string W) :
  (∀ k, is_Some (m' !! k) → is_Some (m !! k)) →
  keys_below prefix c m → keys_below prefix c m'.
Proof. intros Hdom Hm k Hk. by apply Hm, Hdom. Qed.

Lemma keys_below_insert_new {V} prefix c (m : gmap string V) v :
  keys_below prefix c m →
  keys_below prefix (N.succ c) (<[prefix +:+ pretty (N.succ c) := v]> m).
Proof.
  intros Hm k [<-|Hk]%lookup_insert_is_Some'.
  - exists (N.succ c). split; [done|lia].
  - apply (id_below_mono prefix c); [lia|by apply Hm].
Qed.

Lemma keys_below_Map_of_entries {V} prefix c (l : list (string * V)) :
  (∀ e, e ∈ l → id_below prefix c e.1) →
  keys_below prefix c (Map_of_entries l).
Proof. intros Hl k [v Hv%Map_of_entries_lookup]. by apply (Hl (k, v)). Qed.

Lemma keys_below_entries {V} prefix c (m : gmap string V) e :
  keys_below prefix c m → e ∈ entries m → id_below prefix c e.1.
Proof.
  destruct e as [k v]. intros Hm Hin%elem_of_map_to_list. apply Hm. by exists v.
Qed.

Lemma counters_cover_ext s s' :
  (∀ k, is_Some (nodes s' !! k) → is_Some (nodes s !! k)) →
  (∀ k, is_Some (connections s' !! k) → is_Some (connections s !! k)) →
  nodeCounter s' = nodeCounter s →
  connectionCounter s' = connectionCounter s →
  mindmaps s' = mindmaps s →
  counters_cover s → counters_cover s'.
Proof.
  intros Hn Hc Hnc Hcc Hm [[Hnodes Hconns] Hstore].
  split; [split|].
  - rewrite Hnc. by eapply keys_below_dom.
  - rewrite Hcc. by eapply keys_below_dom.
  - unfold store_ids_bounded. by rewrite Hm.
Qed.

Lemma counters_cover_initial stored :
  (∀ name d, stored !! name = Some d → data_ids_bounded d) →
  counters_cover (constructor stored).
Proof.
  intros Hstored. split; [split; apply keys_below_empty|done].
Qed.

Lemma counters_cover_createNode x y text color textColor shape s :
  counters_cover s →
  counters_cover (createNode x y text color textColor shape s).2.
Proof.
  intros [[Hnodes Hconns] Hstore]. split; [split|done]; cbn; [|done].
  by apply keys_below_insert_new.
Qed.

Lemma counters_cover_createConnection a b s :
  counters_cover s → counters_cover (createConnection a b s).2.
Proof.
  intros [[Hnodes Hconns] Hstore]. split; [split|done]; cbn; [done|].
  by apply keys_below_insert_new.
Qed.

Lemma counters_cover_completeConnection nodeId s :
  counters_cover s → counters_cover (completeConnection nodeId s).
Proof.
  intros Hs. unfold completeConnection.
  set (s1 := match connectionStart s with Some _ => _ | None => _ end).
  assert (counters_cover s1) as Hs1.
  { subst s1. repeat case_match; try done.
    by apply counters_cover_createConnection. }
  clearbody s1. revert Hs1. apply counters_cover_ext.
  all: unfold clearTempConnection; by case_match; cbn.
Qed.

Lemma counters_cover_handleNodeClick ctrlKey metaKey nodeId s :
  counters_cover s → counters_cover (handleNodeClick ctrlKey metaKey nodeId s).
Proof.
  intros Hs. unfold handleNodeClick.
  repeat (case_match; try done);
    try by apply counters_cover_completeConnection.
  all: revert Hs; apply counters_cover_ext.
  all: by unfold_methods; repeat (case_match; cbn).
Qed.

Lemma counters_cover_deleteSelected s :
  counters_cover s → counters_cover (deleteSelected s).
Proof.
  destruct (deleteSelected_fields s) as (_ & _ & Hm & Hnc & Hcc & Hn & Hc).
  apply counters_cover_ext; try done.
  - intros k [v Hv]. exists v. by eapply lookup_weaken.
  - intros k [v Hv]. exists v. by eapply lookup_weaken.
Qed.

Lemma counters_cover_handleCanvasMouseMove x y s :
  counters_cover s → counters_cover (handleCanvasMouseMove x y s).
Proof.
  destruct (handleCanvasMouseMove_fields x y s)
    as (_ & _ & Hm & Hnc & Hcc & Hc & Hn).
  apply counters_cover_ext; try done.
  - intros k. by rewrite Hn.
  - intros k. by rewrite Hc.
Qed.

Lemma counters_cover_saveNodeEdit nodeText nodeColor textColor s :
  counters_cover s →
  counters_cover (saveNodeEdit nodeText nodeColor textColor s).
Proof.
  unfold saveNodeEdit. case_match.
  - destruct (saveMultipleNodeEdit_fields nodeColor textColor s)
      as (_ & _ & Hm & Hnc & Hcc & Hc & Hn).
    apply counters_cover_ext; try done.
    + intros k. by rewrite Hn.
    + intros k. by rewrite Hc.
  - repeat (case_match; try done).
    all: apply counters_cover_ext; cbn; try done.
    all: intros k [<-|?]%lookup_insert_is_Some'; done.
Qed.

Lemma counters_cover_clearAll confirmed s :
  counters_cover s → counters_cover (clearAll confirmed s).
Proof.
  intros [Hids Hstore]. unfold clearAll. destruct confirmed; [|done].
  split; [split; apply keys_below_empty|done].
Qed.

Lemma counters_cover_saveMindMap saveFileName now s :
  counters_cover s → counters_cover (saveMindMap saveFileName now s).
Proof.
  intros [[Hnodes Hconns] Hstore]. unfold saveMindMap. case_match; [done|].
  split; [done|]. intros name d. cbn.
  intros [[_ <-]|[_ Hd]]%object_set_Some; [|by apply (Hstore name)].
  split; cbn; intros e; by apply keys_below_entries.
Qed.

Lemma counters_cover_loadMindMap selectedFile confirmed s :
  counters_cover s → counters_cover (loadMindMap selectedFile confirmed s).
Proof.
  intros Hs. rewrite loadMindMap_eq.
  destruct selectedFile as [fileName|]; [|done].
  destruct Hs as [Hdoc Hstore].
  destruct (mindmaps s !! fileName) as [d|] eqn:Hd.
  - destruct (Hstore _ _ Hd) as [Hdn Hdc].
    split; [split|]; cbn; rewrite ?or_zero_id.
    + by apply keys_below_Map_of_entries.
    + by apply keys_below_Map_of_entries.
    + unfold store_ids_bounded. by destruct confirmed.
  - case_bool_decide; [|done].
    split; [split|]; cbn.
    + intros k [? Hk]. by rewrite lookup_empty in Hk.
    + intros k [? Hk]. by rewrite lookup_empty in Hk.
    + unfold store_ids_bounded. by destruct confirmed.
Qed.

Lemma handle_counters_cover e s :
  counters_cover s → counters_cover (handle e s).
Proof.
  intros Hs. destruct e; cbn;
    first [ by apply counters_cover_handleCanvasMouseMove
          | by apply counters_cover_deleteSelected
          | by apply counters_cover_clearAll
          | by apply counters_cover_handleNodeClick
          | by apply counters_cover_saveNodeEdit
          | by apply counters_cover_saveMindMap
          | by apply counters_cover_loadMindMap
          | by apply counters_cover_createNode
          | idtac ].
  - unfold handleCanvasClick. repeat case_match; try done.
    all: first [ by apply counters_cover_createNode
               | revert Hs; apply counters_cover_ext; by cbn ].
  - revert Hs. apply counters_cover_ext.
    all: by unfold_methods; repeat (case_match; cbn).
  - revert Hs. apply counters_cover_ext; by cbn.
  - revert Hs. apply counters_cover_ext; by cbn.
  - unfold handleKeyDown. repeat case_match; try done.
    all: first [ by apply counters_cover_deleteSelected
               | revert Hs; apply counters_cover_ext;
                 by unfold_methods; repeat (case_match; cbn) ].
  - revert Hs. apply counters_cover_ext.
    all: by unfold_methods; repeat (case_match; cbn).
  - revert Hs. apply counters_cover_ext; by cbn.
  - revert Hs. apply counters_cover_ext; by cbn.
  - revert Hs. apply counters_cover_ext; by cbn.
  - revert Hs. apply counters_cover_ext.
    all: by unfold_methods; repeat (case_match; cbn).
  - revert Hs. apply counters_cover_ext.
    all: by unfold_methods; repeat (case_match; cbn).
  - revert Hs. apply counters_cover_ext; by cbn.
  - revert Hs. apply counters_cover_ext; by cbn.
  - destruct Hs as [Hids Hstore]. unfold deleteSavedFile.
    destruct confirmed; [|done]. split; [done|].
    intros name d Hd. cbn in Hd.
    apply lookup_delete_Some in Hd as [_ Hd]. by apply (Hstore name).
  - destruct Hs as [_ Hstore]. by apply counters_cover_initial.
Qed.

Lemma keys_below_fresh {V} prefix c c' (m : gmap string V) :
  keys_below prefix c m → (c ≤ c')%N →
  m !! (prefix +:+ pretty (N.succ c')) = None.
Proof.
  intros Hm Hle. destruct (m !! _) as [v|] eqn:Hv; [|done].
  destruct (id_below_fresh prefix c').
  apply (id_below_mono prefix c); [done|]. apply Hm. by exists v.
Qed.

Lemma handle_counters_mono e s :
  keeps_counters e →
  (nodeCounter s ≤ nodeCounter (handle e s))%N ∧
  (connectionCounter s ≤ connectionCounter (handle e s))%N.
Proof.
  pose proof (deleteSelected_fields s) as (_ & _ & _ & Hdn & Hdc & _).
  pose proof handleCanvasMouseMove_fields as Hmove.
  pose proof saveMultipleNodeEdit_fields as Hbatch.
  intros Hkeeps. destruct e; try done; cbn.
  2: { destruct (Hmove x y s) as (_ & _ & _ & -> & -> & _). lia. }
  all: unfold_methods; repeat (case_match; cbn; try done).
  all: rewrite ?Hdn, ?Hdc.
  all: try (destruct (Hbatch nodeColor textColor s)
              as (_ & _ & _ & -> & -> & _)).
  all: lia.
Qed.

Lemma run_counters_mono events s :
  Forall keeps_counters events →
  (nodeCounter s ≤ nodeCounter (run events s))%N ∧
  (connectionCounter s ≤ connectionCounter (run events s))%N.
Proof.
  intros Hall. revert s.
  induction Hall as [|e events He _ IH]; intros s; [done|].
  change (run (e :: events) s) with (run events (handle e s)).
  destruct (handle_counters_mono e s He). destruct (IH (handle e s)). lia.
Qed.

Lemma run_counters_cover events :
  counters_cover (run events initial).
Proof.
  apply run_invariant; [apply handle_counters_cover|].
  apply counters_cover_initial. intros name d Hd.
  by rewrite lookup_empty in Hd.
Qed.

(** * Save and load *)

Arguments Map_of_entries : simpl never.
Arguments entries : simpl never.

(** C3 (as amended).  For a title whose trimmed form is neither empty nor
    [__proto__], saving under the title and loading the trimmed title
    reproduces the node set and the edge set, id for id and field for field,
    and restores both counters, whatever has become of the document in
    between, as long as the store still holds the saved record.  In a state
    that the application can be in, the ids restored were made by counter
    values not above the counters restored: every id created after the load,
    over any sequence of events that neither clears nor replaces the document
    nor reloads the page, differs from every restored id, and after any
    sequence of events at all a created id is not the id of a node or edge of
    the document. *)
Theorem save_load_roundtrip :
  (∀ s saveFileName now confirmed later,
     truthy (trim saveFileName) = true →
     trim saveFileName ≠ "__proto__" →
     let saved := saveMindMap saveFileName now s in
     mindmaps later !! trim saveFileName
       = mindmaps saved !! trim saveFileName →
     let loaded := loadMindMap (Some (trim saveFileName)) confirmed later in
     nodes loaded = nodes s ∧
     connections loaded = connections s ∧
     nodeCounter loaded = nodeCounter s ∧
     connectionCounter loaded = connectionCounter s) ∧
  (∀ events saveFileName now confirmed more,
     truthy (trim saveFileName) = true →
     let s := run events initial in
     let loaded :=
       loadMindMap (Some (trim saveFileName)) confirmed
         (saveMindMap saveFileName now s) in
     let t := run more loaded in
     ∀ x y text color textColor shape a b,
       let nodeId := (createNode x y text color textColor shape t).1 in
       let connectionId := (createConnection a b t).1 in
       nodes t !! nodeId = None ∧
       connections t !! connectionId = None ∧
       (Forall keeps_counters more →
        nodes loaded !! nodeId = None ∧
        connections loaded !! connectionId = None)).
Proof.
  split.
  - intros s saveFileName now confirmed later Hname Hproto saved Hstored loaded.
    subst saved loaded. unfold saveMindMap in Hstored.
    rewrite Hname in Hstored. cbn in Hstored.
    rewrite object_set_stored, lookup_insert_eq in Hstored by done.
    rewrite loadMindMap_eq, Hstored. cbn.
    by rewrite !Map_of_entries_entries, !or_zero_id.
  - intros events saveFileName now confirmed more Hname s loaded t
      x y text color textColor shape a b nodeId connectionId.
    assert (counters_cover loaded) as Hloaded.
    { apply counters_cover_loadMindMap, counters_cover_saveMindMap,
        run_counters_cover. }
    assert (counters_cover t) as [[Hn Hc] _].
    { by apply run_invariant; [apply handle_counters_cover|]. }
    subst nodeId connectionId. cbn.
    split; [by eapply keys_below_fresh|].
    split; [by eapply keys_below_fresh|].
    intros Hkeeps. destruct Hloaded as [[Hln Hlc] _].
    destruct (run_counters_mono more loaded Hkeeps).
    split; by eapply keys_below_fresh.
Qed.

Lemma save_load_roundtrip_witness :
  let s :=
    run [ToolBtn Tool.node; CanvasClick 10 20 false; CanvasClick 30 40 false]
      initial in
  let loaded :=
    loadMindMap (Some "map") true
      (run [ClearBtn true] (saveMindMap " map " "2024-01-01T00:00:00.000Z" s))
  in
  nodes loaded = nodes s ∧ nodeCounter loaded = nodeCounter s ∧
  nodes loaded !!
    (createNode 0 0 "New Node" "#4A90E2" "#FFFFFF" "circle" loaded).1 = None.
Proof.
  intros s loaded.
  destruct save_load_roundtrip as [Hround Hfresh].
  destruct (Hround s " map " "2024-01-01T00:00:00.000Z" true
              (run [ClearBtn true]
                 (saveMindMap " map " "2024-01-01T00:00:00.000Z" s)))
    as (Hn & _ & Hc & _); [reflexivity|by vm_compute|reflexivity|].
  split; [exact Hn|]. split; [exact Hc|].
  pose proof (Hfresh
    [ToolBtn Tool.node; CanvasClick 10 20 false; CanvasClick 30 40 false;
     ConfirmSave " map " "2024-01-01T00:00:00.000Z"; ClearBtn true]
    " map " "2024-01-02T00:00:00.000Z" true [] eq_refl
    0%Q 0%Q "New Node" "#4A90E2" "#FFFFFF" "circle" "" "") as (_ & _ & Hkept).
  destruct (Hkept (Forall_nil_2 _)) as [Hnode _].
  vm_compute. vm_compute in Hnode. exact Hnode.
Defined.

(** C3 as the spec states it fails: the counters are reset by [clearAll]
    (and replaced by every load), so that ids are issued again.  After a
    document with the node [node_1] has been saved and loaded, clearing the
    canvas makes [node_1] the id of the next node created, the id of a loaded
    node. *)
Lemma save_load_counterexample :
  let s := run [WelcomeTimer 800 600] initial in
  let loaded :=
    loadMindMap (Some "map") true
      (saveMindMap "map" "2024-01-01T00:00:00.000Z" s) in
  let t := run [ClearBtn true] loaded in
  nodes loaded = nodes s ∧
  is_Some (nodes loaded !! "node_1") ∧
  (createNode 0 0 "New Node" "#4A90E2" "#FFFFFF" "circle" t).1 = "node_1" ∧
  ¬ (∀ k, is_Some (nodes loaded !! k) →
          (createNode 0 0 "New Node" "#4A90E2" "#FFFFFF" "circle" t).1 ≠ k).
Proof.
  intros s loaded t.
  assert (nodes loaded = nodes s) as Hsame.
  { by vm_compute. }
  assert (is_Some (nodes loaded !! "node_1")) as Hloaded.
  { rewrite Hsame. eexists. by vm_compute. }
  assert ((createNode 0 0 "New Node" "#4A90E2" "#FFFFFF" "circle" t).1
          = "node_1") as Hnew by (by vm_compute).
  clearbody loaded t.
  split; [done|]. split; [done|]. split; [done|].
  intros Hfresh. by apply (Hfresh "node_1").
Qed.

Lemma createConnection_stores_witness :
  let s :=
    run [ToolBtn Tool.node; CanvasClick 0 0 false; CanvasClick 100 0 false]
      initial in
  spec_addEdge "node_1" "node_2" s
    = (EdgeId "connection_1", (createConnection "node_1" "node_2" s).2) ∧
  connections s !! "connection_1" = None.
Proof.
  intros s.
  destruct (createConnection_stores "node_1" "node_2" s)
    as (_ & _ & _ & _ & _ & Hspec & Hnew).
  split.
  - rewrite Hspec; [reflexivity|eexists; vm_compute; reflexivity..].
  - apply Hnew, run_counters_cover.
Defined.

(** * Lines and their limit *)

(** What the wrapping loop knows of its lines: a finished line fits the limit
    or is a word of the text, and so does the line in progress unless it is
    empty. *)
Lemma wrap_step_fit limit (W : string → Prop) lines cur word :
  W word →
  (∀ l, l ∈ lines → (Z.of_nat (String.length l) ≤ limit)%Z ∨ W l) →
  cur = "" ∨ (Z.of_nat (String.length cur) ≤ limit)%Z ∨ W cur →
  let st := wrap_step limit (lines, cur) word in
  (∀ l, l ∈ st.1 → (Z.of_nat (String.length l) ≤ limit)%Z ∨ W l) ∧
  (st.2 = "" ∨ (Z.of_nat (String.length st.2) ≤ limit)%Z ∨ W st.2).
Proof.
  intros Hword Hlines Hcur. unfold wrap_step.
  destruct (truthy cur) eqn:Ht.
  - apply truthy_true in Ht.
    destruct (Z.leb_spec (Z.of_nat (String.length (cur +:+ " " +:+ word)))
                limit); cbn [fst snd].
    + split; [done|]. right. by left.
    + split; [|by right; right].
      intros l [Hl| ->%list_elem_of_singleton]%elem_of_app; [by apply Hlines|].
      by destruct Hcur as [?|?].
  - apply truthy_false in Ht as ->.
    destruct (Z.leb_spec (Z.of_nat (String.length word)) limit);
      cbn [fst snd].
    + split; [done|]. right. by left.
    + split; [|by left].
      intros l [Hl| ->%list_elem_of_singleton]%elem_of_app; [by apply Hlines|].
      by right.
Qed.

Lemma wrap_fold_fit limit (W : string → Prop) words lines cur :
  (∀ w, w ∈ words → W w) →
  (∀ l, l ∈ lines → (Z.of_nat (String.length l) ≤ limit)%Z ∨ W l) →
  cur = "" ∨ (Z.of_nat (String.length cur) ≤ limit)%Z ∨ W cur →
  ∀ l, l ∈ flush (foldl (wrap_step limit) (lines, cur) words) →
    (Z.of_nat (String.length l) ≤ limit)%Z ∨ W l.
Proof.
  revert lines cur. induction words as [|w ws IH]; intros lines cur HW Hl Hc.
  - cbn [foldl]. unfold flush. cbn [fst snd]. destruct (truthy cur) eqn:Ht.
    + intros l [?| ->%list_elem_of_singleton]%elem_of_app; [by apply Hl|].
      apply truthy_true in Ht. by destruct Hc as [?|?].
    + done.
  - cbn [foldl].
    destruct (wrap_step_fit limit W lines cur w) as [Hl' Hc']; [|done..|].
    { apply HW. by left. }
    destruct (wrap_step limit (lines, cur) w) as [lines' cur'].
    apply IH; [|done..]. intros w' Hw'. apply HW. by right.
Qed.

(** The loop never finishes an empty line under a limit that is not
    negative, and it has at most one line per word. *)
Lemma wrap_step_count limit lines cur word :
  let st := wrap_step limit (lines, cur) word in
  ((0 ≤ limit)%Z → (∀ l, l ∈ lines → l ≠ "") → ∀ l, l ∈ st.1 → l ≠ "") ∧
  length (flush st) ≤ S (length (flush (lines, cur))).
Proof.
  unfold wrap_step, flush. cbn [fst snd].
  destruct (truthy cur) eqn:Ht.
  - destruct (Z.leb_spec (Z.of_nat (String.length (cur +:+ " " +:+ word)))
                limit); cbn [fst snd].
    + split; [done|]. case_match; rewrite ?length_app; simpl; lia.
    + split.
      * intros _ Hl l [?| ->%list_elem_of_singleton]%elem_of_app;
          [by apply Hl|by apply truthy_true].
      * case_match; rewrite ?length_app; simpl; lia.
  - destruct (Z.leb_spec (Z.of_nat (String.length word)) limit);
      cbn [fst snd].
    + split; [done|]. case_match; rewrite ?length_app; simpl; lia.
    + split.
      * intros Hpos Hl l [?| ->%list_elem_of_singleton]%elem_of_app;
          [by apply Hl|]. intros ->. simpl in *. lia.
      * rewrite (proj2 (truthy_false "")) by done.
        rewrite ?length_app; simpl; lia.
Qed.

Lemma wrap_fold_count limit words lines cur :
  let st := foldl (wrap_step limit) (lines, cur) words in
  ((0 ≤ limit)%Z → (∀ l, l ∈ lines → l ≠ "") → ∀ l, l ∈ st.1 → l ≠ "") ∧
  length (flush st) ≤ length words + length (flush (lines, cur)).
Proof.
  revert lines cur. induction words as [|w ws IH]; intros lines cur.
  - cbn [foldl]. split; [done|]. simpl. lia.
  - cbn [foldl]. cbv zeta.
    destruct (wrap_step_count limit lines cur w) as [Hne Hlen].
    destruct (wrap_step limit (lines, cur) w) as [lines' cur'].
    destruct (IH lines' cur') as [Hne' Hlen']. split.
    + intros Hpos Hl. apply Hne'; [done|]. by apply Hne.
    + simpl. lia.
Qed.

(** X1.  Every line that [renderWrappedText] produces has at most
    [maxCharsPerLine] characters or is one single word of the text; under a
    limit that is not negative no line is empty; and there are never more
    lines than words. *)
Theorem renderWrappedText_lines_fit text size shape :
  let limit := maxCharsPerLine size shape in
  let lines := renderWrappedText text size shape in
  (∀ line, line ∈ lines →
     (Z.of_nat (String.length line) ≤ limit)%Z ∨ line ∈ split_space text) ∧
  ((0 ≤ limit)%Z → ∀ line, line ∈ lines → line ≠ "") ∧
  length lines ≤ length (split_space text).
Proof.
  intros limit lines. subst lines. unfold renderWrappedText. fold limit.
  rewrite wrap_lines_flush. split; [|split].
  - apply (wrap_fold_fit limit (λ w, w ∈ split_space text)); [done| |by left].
    intros l []%elem_of_nil.
  - intros Hpos line.
    destruct (wrap_fold_count limit (split_space text) [] "") as [Hne _].
    cbv zeta in Hne. unfold flush.
    destruct (foldl _ _ _) as [lines cur]. cbn [fst snd] in *.
    specialize (Hne Hpos (λ l H, False_ind _ (proj1 (elem_of_nil l) H))).
    destruct (truthy cur) eqn:Ht.
    + intros [?| ->%list_elem_of_singleton]%elem_of_app;
        [by apply Hne|by apply truthy_true].
    + by apply Hne.
  - destruct (wrap_fold_count limit (split_space text) [] "") as [_ Hlen].
    cbv zeta in Hlen. simpl in Hlen. lia.
Qed.

Lemma renderWrappedText_lines_fit_witness :
  Forall (λ line, line ≠ "") (renderWrappedText "New Node" 84 "circle").
Proof.
  apply Forall_forall.
  apply (renderWrappedText_lines_fit "New Node" 84 "circle").
  vm_compute. discriminate.
Defined.

(** * The legacy text helpers *)

Lemma string_take_length n s :
  String.length (string_take n s) = n `min` String.length s.
Proof.
  revert s. induction n as [|n IH]; intros [|c r]; simpl; try done.
  by rewrite IH.
Qed.

Lemma Qgtb_true a b : Qgtb a b = true ↔ (b < a)%Q.
Proof.
  unfold Qgtb. rewrite negb_true_iff, <-not_true_iff_false, Qle_bool_iff.
  split; [apply Qnot_le_lt|apply Qlt_not_le].
Qed.

Lemma Qgtb_false a b : Qgtb a b = false ↔ (a <= b)%Q.
Proof. unfold Qgtb. by rewrite negb_false_iff, Qle_bool_iff. Qed.

Lemma substring_end_below (q : Q) (n : nat) :
  (q < inject_Z (Z.of_nat n))%Q → substring_end q ≤ n.
Proof.
  intros Hq. unfold substring_end.
  assert (inject_Z (Qfloor q) < inject_Z (Z.of_nat n))%Q as Hlt.
  { eapply Qle_lt_trans; [apply Qfloor_le|done]. }
  rewrite <-Zlt_Qlt in Hlt. lia.
Qed.

Lemma substring_end_above (q : Q) :
  (q < inject_Z (Z.of_nat (substring_end q + 3)))%Q.
Proof.
  unfold substring_end. eapply Qlt_le_trans; [apply Qlt_floor|].
  rewrite <-Zle_Qle. lia.
Qed.

(** X2.  [truncateText] returns a text that is not longer than [maxLength]
    as it is.  A longer text is cut to its first [maxLength] characters (none
    for a negative [maxLength]) and gets three dots appended, so that the
    result is always longer than [maxLength], by up to three characters when
    [maxLength] is not negative. *)
Theorem truncateText_cases text maxLength :
  let result := truncateText text maxLength in
  ((inject_Z (Z.of_nat (String.length text)) <= maxLength)%Q →
   result = text) ∧
  ((maxLength < inject_Z (Z.of_nat (String.length text)))%Q →
   result = string_take (substring_end maxLength) text +:+ "..." ∧
   String.length result = substring_end maxLength + 3 ∧
   (maxLength < inject_Z (Z.of_nat (String.length result)))%Q ∧
   ((0 <= maxLength)%Q →
    (inject_Z (Z.of_nat (String.length result)) <= maxLength + 3)%Q)).
Proof.
  intros result. subst result. unfold truncateText. split.
  - intros Hfit. by rewrite (proj2 (Qgtb_false _ _) Hfit).
  - intros Hlong. rewrite (proj2 (Qgtb_true _ _) Hlong).
    split; [done|].
    assert (String.length
              (string_take (substring_end maxLength) text +:+ "...")
            = substring_end maxLength + 3) as Hlen.
    { rewrite string_length_app, string_take_length. simpl.
      pose proof (substring_end_below _ _ Hlong). lia. }
    rewrite Hlen. split; [done|]. split; [apply substring_end_above|].
    intros Hpos. unfold substring_end. rewrite Nat2Z.inj_add, Z2Nat.id.
    + rewrite inject_Z_plus. apply Qplus_le_l, Qfloor_le.
    + apply Qfloor_resp_le in Hpos. by vm_compute in Hpos |- *.
Qed.

Lemma truncateText_cases_witness :
  truncateText "mind" 4 = "mind" ∧
  String.length (truncateText "mindmap" 4) = 7.
Proof.
  destruct (truncateText_cases "mind" 4) as [Hfit _].
  destruct (truncateText_cases "mindmap" 4) as [_ Hcut].
  split; [apply Hfit; by vm_compute|].
  destruct Hcut as (_ & Hlen & _); [by vm_compute|].
  rewrite Hlen. reflexivity.
Defined.

(** X3.  The legacy [wrapText] returns a text of at most
    [floor(radius * 0.4)] characters as it is, and cuts a longer one to its
    first [max(1, maxChars - 3)] characters followed by three dots.  From
    [maxChars = 4] on the result never has more than [maxChars] characters;
    below that a non-empty text that does not fit is cut to its first
    character and the dots, four characters that exceed the budget. *)
Theorem wrapText_cases text radius :
  let maxChars := Qfloor (radius * 0.4) in
  let result := wrapText text radius in
  ((Z.of_nat (String.length text) ≤ maxChars)%Z → result = text) ∧
  ((maxChars < Z.of_nat (String.length text))%Z →
   result
   = string_take (Z.to_nat (Z.max 1 (maxChars - 3))) text +:+ "...") ∧
  ((4 ≤ maxChars)%Z → (Z.of_nat (String.length result) ≤ maxChars)%Z) ∧
  ((maxChars < 4)%Z → (maxChars < Z.of_nat (String.length text))%Z →
   text ≠ "" → String.length result = 4).
Proof.
  intros maxChars result. subst result. unfold wrapText. fold maxChars.
  destruct (Z.leb_spec (Z.of_nat (String.length text)) maxChars)
    as [Hfit|Hlong].
  - repeat split; try done; lia.
  - repeat split; try lia.
    + intros Hbig. rewrite string_length_app, string_take_length. simpl. lia.
    + intros Hsmall _ Hne. rewrite string_length_app, string_take_length.
      destruct text; [done|]. simpl. lia.
Qed.

Lemma wrapText_cases_witness :
  wrapText "Hello" 20 = "Hello" ∧
  (Z.of_nat (String.length (wrapText "Hello World" 20)) ≤ 8)%Z ∧
  String.length (wrapText "Hello" 5) = 4.
Proof.
  destruct (wrapText_cases "Hello" 20) as (Hfit & _).
  destruct (wrapText_cases "Hello World" 20) as (_ & _ & Hbig & _).
  destruct (wrapText_cases "Hello" 5) as (_ & _ & _ & Hsmall).
  split; [apply Hfit; by vm_compute|].
  split; [apply Hbig; by vm_compute|].
  apply Hsmall; by vm_compute.
Defined.

(** * Shapes *)

(** X4.  For a node with a positive size, [createNodeShape] draws a square,
    a rectangle or (for every other shape string, the empty one included) a
    circle of that size, centred on the node, filled with the node's colour;
    [renderWrappedText] makes the same case distinction on the shape, and
    its width budget for the text never exceeds the width of the shape
    drawn: for a circle it even fits the side of the inscribed square. *)
Theorem createNodeShape_holds_text node :
  (0 < Node.size node)%Q →
  let size := Node.size node in
  let element := createNodeShape node in
  let budget := maxWidth size (Node.shape node) in
  ShapeElement.fill element = Node.color node ∧
  (budget <= drawn_width (ShapeElement.geom element))%Q ∧
  match ShapeElement.geom element with
  | ShapeElement.rect x y width height rx =>
      (x + width / 2 == 0)%Q ∧ (y + height / 2 == 0)%Q ∧
      (Node.shape node = "square" ∧ width = size ∧ height = size ∨
       Node.shape node = "rectangle" ∧
       width = (size * 1.6)%Q ∧ height = (size * 0.8)%Q)
  | ShapeElement.circle r =>
      Node.shape node ≠ "square" ∧ Node.shape node ≠ "rectangle" ∧
      r = (size / 2)%Q ∧
      (2 * (budget * budget) <= (2 * r) * (2 * r))%Q
  end.
Proof.
  intros Hpos size element budget.
  subst element budget. unfold createNodeShape, maxWidth, or_number.
  assert (Qeq_bool (Node.size node) 0 = false) as ->.
  { apply not_true_iff_false. intros H%Qeq_bool_iff. rewrite H in Hpos.
    by vm_compute in Hpos. }
  fold size. change (0 < size)%Q in Hpos. clearbody size.
  assert (2 * (size / 2) == size)%Q as Hdiameter by field.
  assert (size * 0.7 <= 2 * (size / 2))%Q as Hcircle.
  { rewrite Hdiameter. lra. }
  assert (2 * (size * 0.7 * (size * 0.7)) <= 2 * (size / 2) * (2 * (size / 2)))%Q
    as Hinscribed.
  { rewrite Hdiameter. nra. }
  unfold or_string, truthy.
  destruct (String.eqb_spec (Node.shape node) "") as [->|Hne]; cbn.
  - repeat split; done.
  - destruct (String.eqb_spec (Node.shape node) "square") as [->|Hsq]; cbn.
    + split; [done|]. split; [lra|]. split; [field|]. split; [field|].
      by left.
    + destruct (String.eqb_spec (Node.shape node) "rectangle") as [->|Hre];
        cbn.
      * split; [done|]. split; [lra|]. split; [field|]. split; [field|].
        by right.
      * repeat split; done.
Qed.

Lemma createNodeShape_holds_text_witness :
  let node :=
    Node.mk "node_1" 0 0 "Hi" "#4A90E2" "#FFFFFF" "circle" 84 84 in
  (maxWidth 84 "circle"
   <= drawn_width (ShapeElement.geom (createNodeShape node)))%Q.
Proof.
  intros node.
  destruct (createNodeShape_holds_text node) as (_ & Hfits & _).
  - by vm_compute.
  - exact Hfits.
Defined.

(** * Well-formed documents *)

Lemma well_formed_ext s s' :
  (∀ k n, nodes s' !! k = Some n → nodes s !! k = Some n) →
  (∀ k c, connections s' !! k = Some c → connections s !! k = Some c) →
  mindmaps s' = mindmaps s →
  well_formed s → well_formed s'.
Proof.
  intros Hn Hc Hm [[Hnodes Hconns] Hstore]. split; [split|].
  - intros k n Hk. by apply Hnodes, Hn.
  - intros k c Hk. by apply Hconns, Hc.
  - by rewrite Hm.
Qed.

Lemma well_formed_constructor stored :
  (∀ name d, stored !! name = Some d → data_ok name d) →
  well_formed (constructor stored).
Proof.
  intros Hstored. split; [split|done]; intros k x Hk; cbn in Hk;
    by rewrite lookup_empty in Hk.
Qed.

Lemma well_formed_createNode x y text color textColor shape s :
  text ≠ "" → shape ≠ "" →
  well_formed s →
  well_formed (createNode x y text color textColor shape s).2.
Proof.
  intros Htext Hshape [[Hnodes Hconns] Hstore]. split; [split|done]; [|done].
  intros k n. cbn.
  intros [[<- <-]|[_ Hk]]%lookup_insert_Some; [done|by apply Hnodes].
Qed.

Lemma well_formed_moveNode nodeId x y s :
  well_formed s → well_formed (moveNode nodeId x y s).
Proof.
  intros Hs. unfold moveNode.
  destruct (nodes s !! nodeId) as [node|] eqn:Hnode; [|done].
  destruct Hs as [[Hnodes Hconns] Hstore]. split; [split|done]; [|done].
  intros k n. cbn.
  intros [[<- <-]|[_ Hk]]%lookup_insert_Some; [|by apply Hnodes].
  by apply Hnodes in Hnode.
Qed.

Lemma well_formed_handleCanvasMouseMove x y s :
  well_formed s → well_formed (handleCanvasMouseMove x y s).
Proof.
  intros Hs. unfold handleCanvasMouseMove.
  set (s1 := if _ && _ then _ else s).
  assert (well_formed s1) as Hs1.
  { subst s1. destruct (_ && _); [|done].
    apply (foldl_invariant well_formed); [done|].
    intros t k. apply well_formed_moveNode. }
  clearbody s1. unfold updateTempConnection, clearTempConnection.
  repeat case_match; try done.
  all: revert Hs1; by apply well_formed_ext.
Qed.

Lemma well_formed_deleteSelected s :
  well_formed s → well_formed (deleteSelected s).
Proof.
  destruct (shrinks_deleteSelected s) as (g & (Hg & Hn & Hc) & ->).
  apply graph_update_fields in Hg as (_ & _ & Hm & _).
  apply well_formed_ext; cbn; [| |done].
  - intros k n Hk. by eapply lookup_weaken.
  - intros k c Hk. by eapply lookup_weaken.
Qed.

Lemma well_formed_completeConnection nodeId s :
  well_formed s → well_formed (completeConnection nodeId s).
Proof.
  intros Hs. unfold completeConnection.
  set (s1 := match connectionStart s with Some _ => _ | None => _ end).
  assert (well_formed s1) as Hs1.
  { subst s1. destruct (connectionStart s) as [start|]; [|done].
    destruct (truthy start && bool_decide (start ≠ nodeId)) eqn:Hg; [|done].
    apply andb_prop in Hg as [Hstart%truthy_true _].
    destruct Hs as [[Hnodes Hconns] Hstore]. split; [split|done]; [done|].
    intros k c. cbn.
    intros [[<- <-]|[_ Hk]]%lookup_insert_Some; [done|by apply Hconns]. }
  clearbody s1. revert Hs1. apply well_formed_ext.
  all: unfold clearTempConnection; by case_match; cbn.
Qed.

Lemma well_formed_handleNodeClick ctrlKey metaKey nodeId s :
  well_formed s → well_formed (handleNodeClick ctrlKey metaKey nodeId s).
Proof.
  intros Hs. unfold handleNodeClick.
  repeat (case_match; try done);
    try by apply well_formed_completeConnection.
  all: revert Hs; apply well_formed_ext.
  all: by unfold_methods; repeat (case_match; cbn).
Qed.

Lemma batch_edited_ok c tc sh k node :
  node_ok k node → node_ok k (batch_edited c tc sh node).
Proof.
  intros (Hid & Htext & Hshape & Hsize & Hradius). unfold batch_edited.
  repeat split; cbn; try done.
  destruct sh as [sh|]; [|done].
  destruct (truthy sh) eqn:Hsh; [by apply truthy_true|done].
Qed.

Lemma well_formed_saveNodeEdit nodeText nodeColor textColor s :
  well_formed s →
  well_formed (saveNodeEdit nodeText nodeColor textColor s).
Proof.
  intros Hs. pose proof Hs as [[Hnodes Hconns] Hstore].
  unfold saveNodeEdit. case_match.
  - unfold saveMultipleNodeEdit.
    destruct (currentEditingNodes s) as [editing|]; [|done].
    split; [split|]; cbn.
    + intros k n. rewrite saveMultipleNodeEdit_fold_lookup.
      destruct (decide _); [|by apply Hnodes].
      destruct (nodes s !! k) as [n'|] eqn:Hk; [|done].
      intros [= <-]. by apply batch_edited_ok, Hnodes.
    + by rewrite saveMultipleNodeEdit_fold_graph.
    + by rewrite saveMultipleNodeEdit_fold_graph.
  - destruct (currentEditingNode s) as [editingId|]; [|done].
    destruct (truthy editingId); [|done].
    destruct (nodes s !! editingId) as [node|] eqn:Hnode; [|done].
    destruct (Hnodes _ _ Hnode) as (Hid & Htext & Hshape & Hsize & Hradius).
    split; [split|done]; [|done].
    intros k n. cbn.
    intros [[<- <-]|[_ Hk]]%lookup_insert_Some; [|by apply Hnodes].
    repeat split; cbn; try done.
    + destruct (truthy (trim nodeText)) eqn:Ht; [by apply truthy_true|done].
    + unfold or_string. repeat case_match; try done; by apply truthy_true.
Qed.

Lemma well_formed_clearAll confirmed s :
  well_formed s → well_formed (clearAll confirmed s).
Proof.
  intros [Hdoc Hstore]. unfold clearAll. destruct confirmed; [|done].
  split; [split|done]; intros k x Hk; cbn in Hk;
    by rewrite lookup_empty in Hk.
Qed.

Lemma well_formed_saveMindMap saveFileName now s :
  well_formed s → well_formed (saveMindMap saveFileName now s).
Proof.
  intros [[Hnodes Hconns] Hstore]. unfold saveMindMap.
  destruct (truthy (trim saveFileName)) eqn:Hname; [|done].
  apply truthy_true in Hname. split; [done|]. intros name d. cbn.
  intros [[<- <-]|[_ Hd]]%object_set_Some; [|by apply Hstore].
  split; [done|]. split; [done|]. split; cbn; unfold entries.
  - intros [k n] Hin%elem_of_map_to_list. by apply Hnodes.
  - intros [k c] Hin%elem_of_map_to_list. by apply Hconns.
Qed.

Lemma well_formed_loadMindMap selectedFile confirmed s :
  well_formed s → well_formed (loadMindMap selectedFile confirmed s).
Proof.
  intros Hs. rewrite loadMindMap_eq.
  destruct selectedFile as [fileName|]; [|done].
  destruct Hs as [Hdoc Hstore].
  destruct (mindmaps s !! fileName) as [d|] eqn:Hd.
  - destruct (Hstore _ _ Hd) as (_ & _ & Hdn & Hdc).
    split; [split|]; cbn.
    + intros k n Hk%Map_of_entries_lookup. by apply (Hdn (k, n)).
    + intros k c Hk%Map_of_entries_lookup. by apply (Hdc (k, c)).
    + by destruct confirmed.
  - case_bool_decide; [|done].
    split; [split|]; cbn.
    + intros k n Hk. by rewrite lookup_empty in Hk.
    + intros k c Hk. by rewrite lookup_empty in Hk.
    + by destruct confirmed.
Qed.

Lemma handle_well_formed e s : well_formed s → well_formed (handle e s).
Proof.
  intros Hs. destruct e; cbn;
    first [ by apply well_formed_handleCanvasMouseMove
          | by apply well_formed_deleteSelected
          | by apply well_formed_clearAll
          | by apply well_formed_handleNodeClick
          | by apply well_formed_saveNodeEdit
          | by apply well_formed_saveMindMap
          | by apply well_formed_loadMindMap
          | by apply well_formed_createNode
          | idtac ].
  - unfold handleCanvasClick. repeat case_match; try done.
    all: first [ by apply well_formed_createNode
               | revert Hs; apply well_formed_ext; by cbn ].
  - revert Hs. apply well_formed_ext.
    all: by unfold_methods; repeat (case_match; cbn).
  - revert Hs. apply well_formed_ext; by cbn.
  - revert Hs. apply well_formed_ext; by cbn.
  - unfold handleKeyDown. repeat case_match; try done.
    all: first [ by apply well_formed_deleteSelected
               | revert Hs; apply well_formed_ext;
                 by unfold_methods; repeat (case_match; cbn) ].
  - revert Hs. apply well_formed_ext.
    all: by unfold_methods; repeat (case_match; cbn).
  - revert Hs. apply well_formed_ext; by cbn.
  - revert Hs. apply well_formed_ext; by cbn.
  - revert Hs. apply well_formed_ext; by cbn.
  - revert Hs. apply well_formed_ext.
    all: by unfold_methods; repeat (case_match; cbn).
  - revert Hs. apply well_formed_ext.
    all: by unfold_methods; repeat (case_match; cbn).
  - revert Hs. apply well_formed_ext; by cbn.
  - revert Hs. apply well_formed_ext; by cbn.
  - destruct Hs as [Hdoc Hstore]. unfold deleteSavedFile.
    destruct confirmed; [|done]. split; [done|].
    intros name d Hd. cbn in Hd.
    apply lookup_delete_Some in Hd as [_ Hd]. by apply Hstore.
  - destruct Hs as [_ Hstore]. by apply well_formed_constructor.
Qed.

Lemma run_well_formed events : well_formed (run events initial).
Proof.
  apply run_invariant; [apply handle_well_formed|].
  apply well_formed_constructor. intros name d Hd.
  by rewrite lookup_empty in Hd.
Qed.

(** X5.  In every state that the application can be in, the size of every
    node is the size computed from its current text and shape, its radius is
    that size, and the size is at least 60: no handler sets a size of its
    own, and a load restores only nodes that were saved in such a state. *)
Theorem node_size_follows_text events k node :
  nodes (run events initial) !! k = Some node →
  Node.size node = baseSize (Node.text node) (Node.shape node) ∧
  Node.radius node = Node.size node ∧
  (60 <= Node.size node)%Q.
Proof.
  intros Hk. destruct (run_well_formed events) as [[Hnodes _] _].
  destruct (Hnodes _ _ Hk) as (_ & _ & _ & Hsize & Hradius).
  split; [done|]. split; [done|]. rewrite Hsize. apply baseSize_min.
Qed.

Lemma node_size_follows_text_witness :
  ∃ node,
    nodes (run [WelcomeTimer 800 600; CanvasMouseMove 5 5] initial)
      !! "node_1" = Some node ∧
    (60 <= Node.size node)%Q.
Proof.
  eexists. split; [vm_compute; reflexivity|].
  eapply (node_size_follows_text [WelcomeTimer 800 600; CanvasMouseMove 5 5]
            "node_1").
  vm_compute. reflexivity.
Defined.

(** X6.  In every state that the application can be in, no node has an empty
    text or an empty shape: nodes are created with a fixed text and the
    circle shape, an edit keeps the old text when the input is blank, and it
    replaces a shape only by a non-empty one. *)
Theorem node_text_never_empty events k node :
  nodes (run events initial) !! k = Some node →
  Node.text node ≠ "" ∧ Node.shape node ≠ "".
Proof.
  intros Hk. destruct (run_well_formed events) as [[Hnodes _] _].
  by destruct (Hnodes _ _ Hk) as (_ & Htext & Hshape & _).
Qed.

Lemma node_text_never_empty_witness :
  ∃ node,
    nodes
      (run [WelcomeTimer 800 600; NodeDblClick "node_1";
            SaveEdit "   " "#FF0000" "#000000"] initial)
      !! "node_1" = Some node ∧
    Node.text node ≠ "".
Proof.
  eexists. split; [vm_compute; reflexivity|].
  eapply (node_text_never_empty
            [WelcomeTimer 800 600; NodeDblClick "node_1";
             SaveEdit "   " "#FF0000" "#000000"] "node_1").
  vm_compute. reflexivity.
Defined.

(** X7.  In every state that the application can be in, every node and every
    edge is stored under its own [id] field, and every edge has a non-empty
    start id. *)
Theorem keys_are_ids events :
  let s := run events initial in
  (∀ k node, nodes s !! k = Some node → Node.id node = k) ∧
  (∀ k c, connections s !! k = Some c →
     Connection.id c = k ∧ Connection.start c ≠ "").
Proof.
  intros s. destruct (run_well_formed events) as [[Hnodes Hconns] _].
  split.
  - intros k node Hk. by destruct (Hnodes _ _ Hk).
  - intros k c Hk. by apply Hconns.
Qed.

Lemma keys_are_ids_witness :
  ∃ c,
    connections
      (run [WelcomeTimer 800 600; ToolBtn Tool.node; CanvasClick 5 5 false;
            ToolBtn Tool.connection; NodeClick "node_1" false false;
            NodeClick "node_2" false false] initial)
      !! "connection_1" = Some c ∧
    Connection.id c = "connection_1".
Proof.
  eexists. split; [vm_compute; reflexivity|].
  eapply (keys_are_ids
            [WelcomeTimer 800 600; ToolBtn Tool.node; CanvasClick 5 5 false;
             ToolBtn Tool.connection; NodeClick "node_1" false false;
             NodeClick "node_2" false false]).
  vm_compute. reflexivity.
Defined.

(** X8.  In every state that the application can be in, every record of the
    store is kept under a non-empty file name, carries that name as its
    title, and lists every node and every edge under its own id, every node
    with the size computed from its text and shape. *)
Theorem stored_records_named events name d :
  mindmaps (run events initial) !! name = Some d →
  name ≠ "" ∧
  MindmapData.title d = name ∧
  (∀ k node, (k, node) ∈ MindmapData.nodes d →
     Node.id node = k ∧
     Node.size node = baseSize (Node.text node) (Node.shape node)) ∧
  (∀ k c, (k, c) ∈ MindmapData.connections d → Connection.id c = k).
Proof.
  intros Hd. destruct (run_well_formed events) as [_ Hstore].
  destruct (Hstore _ _ Hd) as (Htitle & Hname & Hdn & Hdc).
  split; [done|]. split; [done|]. split.
  - intros k node Hin. by destruct (Hdn _ Hin) as (? & _ & _ & ? & _).
  - intros k c Hin. by destruct (Hdc _ Hin).
Qed.

Lemma stored_records_named_witness :
  ∃ d,
    mindmaps
      (run [WelcomeTimer 800 600; ConfirmSave " plan " "2024-01-01"] initial)
      !! "plan" = Some d ∧
    MindmapData.title d = "plan".
Proof.
  eexists. split; [vm_compute; reflexivity|].
  eapply (stored_records_named
            [WelcomeTimer 800 600; ConfirmSave " plan " "2024-01-01"] "plan").
  vm_compute. reflexivity.
Defined.

(** * The preview line *)

Lemma updateTempConnection_fields x y s :
  isConnecting (updateTempConnection x y s) = isConnecting s ∧
  connectionStart (updateTempConnection x y s) = connectionStart s.
Proof. unfold_methods. by repeat (case_match; cbn). Qed.

Lemma handle_preview_ok e s : preview_ok s → preview_ok (handle e s).
Proof.
  unfold preview_ok. intros Hs.
  pose proof (shrinks_deleteSelected s) as (g & (Hg & _) & Hdel).
  apply graph_update_fields in Hg
    as (_ & _ & _ & _ & _ & _ & Hgi & Hgs & Hgt & _).
  destruct e; cbn.
  2: { unfold handleCanvasMouseMove.
       set (s1 := if _ && _ then _ else s).
       assert (graph_update s s1) as Hs1.
       { subst s1. destruct (_ && _);
           [apply graph_update_move_all|apply graph_update_refl]. }
       apply graph_update_fields in Hs1
         as (_ & _ & _ & _ & _ & _ & Hi & Hc & Ht & _).
       rewrite <-Hi, <-Hc, <-Ht in Hs. clearbody s1.
       destruct (isConnecting s1 && truthy_opt (connectionStart s1)) eqn:Hg1;
         [|done].
       apply andb_prop in Hg1 as [Hi1 Hc1].
       destruct (updateTempConnection_fields x y s1) as [-> ->]. done. }
  all: rewrite ?Hdel.
  all: unfold_methods; repeat (case_match; cbn; try done).
  all: rewrite ?Hdel; cbn; rewrite ?Hgi, ?Hgs, ?Hgt; try done.
  all: try (unfold saveMultipleNodeEdit; case_match; cbn; [|done];
            rewrite saveMultipleNodeEdit_fold_graph; cbn; done).
  all: intros Ht; destruct (Hs Ht) as [Hi _]; rewrite Hi in *;
    cbn in *; congruence.
Qed.

(** X9.  In every state that the application can be in, a preview line
    exists only while a connection is in progress from a remembered,
    non-empty start id: switching the tool, completing the connection and
    the Escape key all remove it. *)
Theorem preview_only_while_connecting events :
  let s := run events initial in
  tempConnection s ≠ None →
  isConnecting s = true ∧ ∃ start, connectionStart s = Some start ∧ start ≠ "".
Proof.
  intros s Htemp.
  assert (preview_ok s) as Hs.
  { apply run_invariant; [apply handle_preview_ok|]. by intros []. }
  destruct (Hs Htemp) as [Hi Hc]. split; [done|].
  destruct (connectionStart s) as [start|]; [|done].
  exists start. split; [done|]. by apply truthy_true.
Qed.

Lemma preview_only_while_connecting_witness :
  isConnecting
    (run [WelcomeTimer 800 600; ToolBtn Tool.connection;
          NodeClick "node_1" false false; CanvasMouseMove 30 40] initial)
  = true.
Proof.
  apply (preview_only_while_connecting
           [WelcomeTimer 800 600; ToolBtn Tool.connection;
            NodeClick "node_1" false false; CanvasMouseMove 30 40]).
  vm_compute. discriminate.
Defined.

(** * Deleting the selection *)

Lemma delete_nodes_fold_nodes l s k :
  nodes (foldl (λ st nodeId, deleteNode nodeId st) s l) !! k
  = if decide (k ∈ l) then None else nodes s !! k.
Proof.
  revert s. induction l as [|a l IH]; intros s; cbn [foldl].
  - destruct (decide (k ∈ [])) as [[]%elem_of_nil|]; done.
  - rewrite IH, deleteNode_nodes.
    destruct (decide (k ∈ l)) as [Hin|Hnin];
      destruct (decide (k ∈ a :: l)) as [Hin'|Hnin']; try done.
    + destruct Hnin'. by right.
    + apply elem_of_cons in Hin' as [->|?]; [|done]. apply lookup_delete_eq.
    + apply lookup_delete_ne. intros ->. apply Hnin'. by left.
Qed.

Lemma delete_nodes_fold_connections l s k c :
  (connections (foldl (λ st nodeId, deleteNode nodeId st) s l) !! k = Some c) ↔
  (connections s !! k = Some c) ∧
  (Connection.start c ∉ l) ∧ (Connection.end_ c ∉ l).
Proof.
  revert s. induction l as [|a l IH]; intros s; cbn [foldl].
  - split; [|by intros [? _]]. intros H. split; [done|].
    split; apply not_elem_of_nil.
  - rewrite IH, deleteNode_connections_Some, !not_elem_of_cons. tauto.
Qed.

Lemma delete_all_nodes s ks :
  nodes (foldl (λ st k, deleteConnection k st) s ks) = nodes s ∧
  selectedNodes (foldl (λ st k, deleteConnection k st) s ks)
  = selectedNodes s.
Proof. by rewrite delete_all_graph. Qed.

(** X10.  [deleteSelected] removes exactly the selected nodes, the selected
    edges and the edges that start or end at a selected node; every other
    node and edge stays as it is, the selection is empty afterwards, and if
    every edge had its end points in the node set before, so it has
    after. *)
Theorem deleteSelected_removes_selection s :
  let s' := deleteSelected s in
  selectedNodes s' = [] ∧
  selectedConnections s' = [] ∧
  (∀ k, nodes s' !! k
        = if decide (k ∈ selectedNodes s) then None else nodes s !! k) ∧
  (∀ k c,
     (connections s' !! k = Some c) ↔
     (connections s !! k = Some c) ∧
     (k ∉ selectedConnections s) ∧
     (Connection.start c ∉ selectedNodes s) ∧
     (Connection.end_ c ∉ selectedNodes s)) ∧
  (edges_closed s → edges_closed s').
Proof.
  intros s'. subst s'. unfold deleteSelected. cbn.
  destruct (delete_all_nodes s (selectedConnections s)) as [Hn Hsel].
  assert (∀ k c,
    (connections
      (foldl (λ st nodeId, deleteNode nodeId st)
         (foldl (λ st k, deleteConnection k st) s (selectedConnections s))
         (selectedNodes
            (foldl (λ st k, deleteConnection k st) s
               (selectedConnections s)))) !! k = Some c) ↔
    (connections s !! k = Some c) ∧ (k ∉ selectedConnections s) ∧
    (Connection.start c ∉ selectedNodes s) ∧
    (Connection.end_ c ∉ selectedNodes s)) as Hconns.
  { intros k c. rewrite delete_nodes_fold_connections, Hsel.
    rewrite delete_all_lookup. destruct (decide _); [|tauto].
    split; [by intros [? _]|]. by intros (_ & ? & _). }
  split; [done|]. split; [done|]. split; [|split; [done|]].
  - intros k. by rewrite delete_nodes_fold_nodes, Hsel, Hn.
  - intros Hclosed k c (Hc & _ & Ha & Hb)%Hconns. cbn.
    rewrite !delete_nodes_fold_nodes, Hsel, Hn, !decide_False by done.
    by apply (Hclosed k).
Qed.

Lemma deleteSelected_removes_selection_witness :
  edges_closed
    (deleteSelected
       (run [ToolBtn Tool.node; CanvasClick 0 0 false;
             CanvasClick 9 9 false; ToolBtn Tool.connection;
             NodeClick "node_1" false false; NodeClick "node_2" false false;
             ToolBtn Tool.select; NodeClick "node_2" false false] initial)).
Proof.
  apply deleteSelected_removes_selection.
  intros k c Hc%elem_of_map_to_list.
  vm_compute in Hc. apply list_elem_of_singleton in Hc.
  injection Hc as -> ->.
  split; eexists; vm_compute; reflexivity.
Defined.

(** * Deleting twice, deleting what is not there *)

Lemma graph_update_eq s s' :
  graph_update s s' → nodes s' = nodes s → connections s' = connections s →
  s' = s.
Proof.
  unfold graph_update. intros Hg Hn Hc. rewrite Hg, Hn, Hc. by destruct s.
Qed.

Lemma graph_update_eq2 s s' s'' :
  graph_update s s' → graph_update s s'' →
  nodes s' = nodes s'' → connections s' = connections s'' → s' = s''.
Proof.
  unfold graph_update. intros Hg Hg' Hn Hc. rewrite Hg, Hg', Hn, Hc. done.
Qed.

(** X11.  Deleting is idempotent: a second [deleteNode] or
    [deleteConnection] of the same id changes nothing.  [deleteNode] keeps
    exactly the edges that do not start or end at its id, also when the id
    is not a node: it then still removes the edges that name it, and changes
    nothing at all when no edge does, as in a model whose edges all have
    their end points. *)
Theorem delete_twice_is_delete_once s id :
  deleteNode id (deleteNode id s) = deleteNode id s ∧
  deleteConnection id (deleteConnection id s) = deleteConnection id s ∧
  (connections s !! id = None → deleteConnection id s = s) ∧
  (nodes s !! id = None → edges_closed s → deleteNode id s = s) ∧
  (∀ k c,
     (connections (deleteNode id s) !! k = Some c) ↔
     (connections s !! k = Some c) ∧
     Connection.start c ≠ id ∧ Connection.end_ c ≠ id).
Proof.
  assert (∀ t, graph_update t (deleteNode id t)) as Hg.
  { intros t. apply graph_update_deleteNode, graph_update_refl. }
  split; [|split; [|split; [|split; [|apply deleteNode_connections_Some]]]].
  - apply (graph_update_eq2 s); [|apply Hg|..].
    + eapply (foldl_invariant (graph_update s) (λ t (_ : unit), deleteNode id t)
                [(); ()]); [apply graph_update_refl|].
      intros t _. apply graph_update_deleteNode.
    + rewrite !deleteNode_nodes. apply map_eq. intros k.
      destruct (decide (k = id)) as [->|Hne];
        by rewrite ?lookup_delete_eq, ?lookup_delete_ne.
    + apply map_eq. intros k. rewrite !deleteNode_connections.
      destruct (connections s !! k) as [c|]; [|done].
      destruct (decide _) as [|Hn]; [done|]. by rewrite decide_False.
  - unfold deleteConnection, set_connections. cbn. f_equal.
    apply map_eq. intros k.
    destruct (decide (k = id)) as [->|Hne];
      by rewrite ?lookup_delete_eq, ?lookup_delete_ne.
  - intros Hnone. unfold deleteConnection.
    rewrite delete_id by done. by destruct s.
  - intros Hnone Hclosed. apply graph_update_eq; [apply Hg|..].
    + rewrite deleteNode_nodes. by apply delete_id.
    + apply map_eq. intros k. rewrite deleteNode_connections.
      destruct (connections s !! k) as [c|] eqn:Hc; [|done].
      destruct (decide _) as [[<-|<-]|]; [..|done];
        destruct (Hclosed k c Hc) as [[? Ha] [? Hb]]; congruence.
Qed.

Lemma delete_twice_is_delete_once_witness :
  deleteNode "node_7" (run [WelcomeTimer 800 600] initial)
  = run [WelcomeTimer 800 600] initial.
Proof.
  apply (proj1 (proj2 (proj2 (proj2
    (delete_twice_is_delete_once (run [WelcomeTimer 800 600] initial)
       "node_7"))))).
  - vm_compute. reflexivity.
  - intros k c Hc. vm_compute in Hc. discriminate.
Defined.

(** * Selection *)

Lemma set_add_elem x y l : y ∈ set_add x l ↔ y ∈ l ∨ y = x.
Proof.
  unfold set_add, set_has. case_bool_decide as Hin.
  - split; [by left|]. by intros [?| ->].
  - rewrite elem_of_app, list_elem_of_singleton. done.
Qed.

Lemma set_delete_elem x y l : y ∈ set_delete x l ↔ y ∈ l ∧ y ≠ x.
Proof. unfold set_delete. rewrite list_elem_of_filter. tauto. Qed.

Lemma set_delete_add x l : x ∉ l → set_delete x (l ++ [x]) = l.
Proof.
  unfold set_delete. intros Hx. rewrite filter_app.
  rewrite filter_cons_False, filter_nil, app_nil_r by (by intros []).
  induction l as [|a l IH]; [done|].
  apply not_elem_of_cons in Hx as [Hne Hx].
  rewrite filter_cons_True by done. by rewrite IH.
Qed.

(** X12.  [toggleNodeSelection] flips the membership of its node in the
    selection and of no other node, keeps the selected edges and the
    document, and never makes a node selected twice.  Toggling a node that was
    not selected and toggling it again gives back the selection as it was;
    after two toggles of any node the same nodes are selected. *)
Theorem toggleNodeSelection_flips nodeId s :
  let s' := toggleNodeSelection nodeId s in
  (nodeId ∈ selectedNodes s' ↔ nodeId ∉ selectedNodes s) ∧
  (∀ k, k ≠ nodeId → k ∈ selectedNodes s' ↔ k ∈ selectedNodes s) ∧
  s' = set_selectedNodes (selectedNodes s') s ∧
  (NoDup (selectedNodes s) → NoDup (selectedNodes s')) ∧
  (nodeId ∉ selectedNodes s → toggleNodeSelection nodeId s' = s) ∧
  (∀ k, k ∈ selectedNodes (toggleNodeSelection nodeId s')
        ↔ k ∈ selectedNodes s).
Proof.
  assert (∀ t,
    (nodeId ∈ selectedNodes (toggleNodeSelection nodeId t)
     ↔ nodeId ∉ selectedNodes t) ∧
    (∀ k, k ≠ nodeId → k ∈ selectedNodes (toggleNodeSelection nodeId t)
                       ↔ k ∈ selectedNodes t)) as Hflip.
  { intros t. unfold toggleNodeSelection, set_has.
    case_bool_decide as Hin; cbn.
    - split; [|intros k Hk]; rewrite set_delete_elem; tauto.
    - split; [|intros k Hk]; rewrite set_add_elem; tauto. }
  intros s'. destruct (Hflip s) as [Hid Hother].
  split; [done|]. split; [done|]. split; [|split; [|split]].
  - subst s'. unfold toggleNodeSelection. by destruct (set_has _ _).
  - subst s'. unfold toggleNodeSelection, set_has, set_add, set_delete, set_has.
    intros Hnd. case_bool_decide as Hin; cbn.
    + by apply NoDup_filter.
    + apply NoDup_app. split; [done|]. split; [|apply NoDup_singleton].
      intros x Hx ->%list_elem_of_singleton. done.
  - intros Hnin. subst s'.
    unfold toggleNodeSelection, set_has, set_add, set_has.
    rewrite (bool_decide_eq_false_2 _ Hnin). cbn.
    rewrite bool_decide_eq_true_2
      by (apply elem_of_app; right; by apply list_elem_of_singleton).
    cbn. pose proof (set_delete_add nodeId _ Hnin) as Hd.
    unfold set_delete in Hd. rewrite Hd. by destruct s.
  - intros k. subst s'.
    destruct (Hflip (toggleNodeSelection nodeId s)) as [Hid' Hother'].
    destruct (decide (k = nodeId)) as [->|Hne].
    + rewrite Hid', Hid. destruct (decide (nodeId ∈ selectedNodes s)); tauto.
    + by rewrite Hother', Hother.
Qed.

Lemma toggleNodeSelection_flips_witness :
  toggleNodeSelection "node_2"
    (toggleNodeSelection "node_2"
       (run [NodeClick "node_1" false false] initial))
  = run [NodeClick "node_1" false false] initial.
Proof.
  apply toggleNodeSelection_flips. vm_compute.
  intros ?%list_elem_of_singleton. discriminate.
Defined.

(** * From two clicks to an edge *)

Lemma handleCanvasMouseMove_idle x y s :
  isDragging s = false →
  ∃ t, handleCanvasMouseMove x y s = set_tempConnection t s.
Proof.
  unfold handleCanvasMouseMove. intros ->. cbn.
  destruct (isConnecting s && truthy_opt (connectionStart s));
    [|exists (tempConnection s); by destruct s].
  unfold updateTempConnection, clearTempConnection.
  repeat case_match; try (exists (tempConnection s); by destruct s).
  all: by eexists.
Qed.

Lemma mouse_moves_idle moves s :
  isDragging s = false →
  ∃ t, foldl (λ st p, handleCanvasMouseMove p.1 p.2 st) s moves
       = set_tempConnection t s.
Proof.
  revert s. induction moves as [|p moves IH]; intros s Hs; cbn [foldl].
  - exists (tempConnection s). by destruct s.
  - destruct (handleCanvasMouseMove_idle p.1 p.2 s Hs) as [t ->].
    destruct (IH (set_tempConnection t s) Hs) as [t' ->]. by exists t'.
Qed.

(** X13.  Under the connection tool, a click on node [a], any mouse movement
    over the canvas, and a click on another node [b] add exactly one edge,
    from [a] to [b], under the next edge id; the connection in progress and
    its preview line are gone, [a] is the selected node and no node is
    changed.  Neither click looks whether [a] or [b] is a node of the
    document. *)
Theorem two_clicks_make_one_edge s a b moves ctrlKey metaKey ctrlKey' metaKey' :
  currentTool s = Tool.connection →
  isConnecting s = false →
  isDragging s = false →
  a ≠ "" → a ≠ b →
  let s1 := handleNodeClick ctrlKey metaKey a s in
  let s2 := foldl (λ st p, handleCanvasMouseMove p.1 p.2 st) s1 moves in
  let s' := handleNodeClick ctrlKey' metaKey' b s2 in
  let id := "connection_" +:+ pretty (N.succ (connectionCounter s)) in
  connections s' = <[id := Connection.mk id a b]> (connections s) ∧
  connectionCounter s' = N.succ (connectionCounter s) ∧
  isConnecting s' = false ∧
  connectionStart s' = None ∧
  tempConnection s' = None ∧
  currentTool s' = Tool.connection ∧
  selectedNodes s' = [a] ∧
  selectedConnections s' = [] ∧
  nodes s' = nodes s ∧
  nodeCounter s' = nodeCounter s.
Proof.
  intros Htool Hconn Hdrag Ha Hab s1 s2 s' id.
  assert (s1 = startConnection a s) as Hs1.
  { subst s1. unfold handleNodeClick. by rewrite Htool, Hconn. }
  destruct (mouse_moves_idle moves s1) as [t Ht].
  { rewrite Hs1. cbn. done. }
  subst s'. fold s2 in Ht |- *. rewrite Ht, Hs1.
  apply truthy_true in Ha.
  unfold handleNodeClick, startConnection, completeConnection, selectNode,
    createConnection, clearSelection, clearTempConnection.
  cbn. rewrite Htool. cbn.
  rewrite bool_decide_eq_true_2 by congruence. rewrite Ha. cbn.
  rewrite bool_decide_eq_true_2 by done. cbn.
  by destruct t.
Qed.

Lemma two_clicks_make_one_edge_witness :
  let s :=
    run [ToolBtn Tool.node; CanvasClick 10 10 false; CanvasClick 200 10 false;
         ToolBtn Tool.connection] initial in
  connections
    (handleNodeClick false false "node_2"
       (foldl (λ st p, handleCanvasMouseMove p.1 p.2 st)
          (handleNodeClick false false "node_1" s) [(100%Q, 10%Q)]))
  = <[("connection_" +:+ pretty (N.succ (connectionCounter s))) :=
        Connection.mk ("connection_" +:+ pretty (N.succ (connectionCounter s)))
          "node_1" "node_2"]> (connections s).
Proof.
  intros s.
  assert (currentTool s = Tool.connection) as Htool by (by vm_compute).
  assert (isConnecting s = false) as Hconn by (by vm_compute).
  assert (isDragging s = false) as Hdrag by (by vm_compute).
  clearbody s.
  apply (two_clicks_make_one_edge s "node_1" "node_2" [(100%Q, 10%Q)]
           false false false false Htool Hconn Hdrag); discriminate.
Defined.

(** * Where nodes and edges come from *)

Lemma handle_connections_sub e s :
  match e with
  | NodeClick _ _ _ | ConfirmLoad _ _ => True
  | _ => connections (handle e s) ⊆ connections s
  end.
Proof.
  destruct e; cbn; try done.
  2: by destruct (handleCanvasMouseMove_fields x y s) as (_&_&_&_&_& -> &_).
  all: unfold_methods; repeat (case_match; cbn; try done);
    try apply map_empty_subseteq; try apply deleteSelected_fields.
  all: by destruct (saveMultipleNodeEdit_fields nodeColor textColor s)
         as (_&_&_&_&_& -> &_).
Qed.

(** X14.  An edge that is in the document after an event and was not there
    before has one of two origins.  Either the event is a click on the node
    where the edge ends, under the connection tool, while a connection is in
    progress from the node where the edge starts: then the two nodes differ,
    the start is not the empty id and the edge has the next edge id.  Or the
    event loads a stored document that holds the edge.  No other event adds or
    changes an edge. *)
Theorem edges_come_from_clicks_or_loads e s k c :
  connections (handle e s) !! k = Some c →
  connections s !! k = Some c ∨
  (∃ ctrlKey metaKey,
     e = NodeClick (Connection.end_ c) ctrlKey metaKey ∧
     currentTool s = Tool.connection ∧
     isConnecting s = true ∧
     connectionStart s = Some (Connection.start c) ∧
     Connection.start c ≠ Connection.end_ c ∧
     Connection.start c ≠ "" ∧
     k = "connection_" +:+ pretty (N.succ (connectionCounter s)) ∧
     Connection.id c = k) ∨
  (∃ fileName confirmed d,
     e = ConfirmLoad (Some fileName) confirmed ∧
     mindmaps s !! fileName = Some d ∧
     (k, c) ∈ MindmapData.connections d).
Proof.
  intros Hk. pose proof (handle_connections_sub e s) as Hsub.
  destruct e; try (left; by eapply lookup_weaken).
  - (* a click on a node *)
    clear Hsub. cbn in Hk. unfold handleNodeClick in Hk.
    destruct (currentTool s) eqn:Htool.
    + left. revert Hk. unfold_methods. by repeat (case_match; cbn).
    + by left.
    + destruct (isConnecting s) eqn:Hconn; cbn in Hk;
        [|left; revert Hk; unfold_methods; by repeat (case_match; cbn)].
      case_bool_decide as Hstart; [|by left].
      unfold completeConnection in Hk.
      destruct (connectionStart s) as [start|] eqn:Hcs;
        [|left; revert Hk; unfold_methods; by repeat (case_match; cbn)].
      destruct (truthy start) eqn:Htruthy; cbn in Hk;
        [|left; revert Hk; unfold_methods; by repeat (case_match; cbn)].
      case_bool_decide as Hne;
        [|left; revert Hk; unfold_methods; by repeat (case_match; cbn)].
      assert (<[("connection_" +:+ pretty (N.succ (connectionCounter s))) :=
                 Connection.mk
                   ("connection_" +:+ pretty (N.succ (connectionCounter s)))
                   start nodeId]> (connections s) !! k = Some c) as Hk'.
      { revert Hk. unfold_methods. by repeat (case_match; cbn). }
      apply lookup_insert_Some in Hk' as [[<- <-]|[_ ?]]; [|by left].
      right; left. exists ctrlKey, metaKey. cbn.
      apply truthy_true in Htruthy. done.
  - (* loading *)
    clear Hsub. cbn in Hk. rewrite loadMindMap_eq in Hk.
    destruct selectedFile as [fileName|]; [|by left].
    destruct (mindmaps s !! fileName) as [d|] eqn:Hd.
    + right; right. exists fileName, confirmed, d.
      split; [done|]. split; [done|].
      apply Map_of_entries_lookup. revert Hk. unfold clearAll.
      by destruct confirmed.
    + case_bool_decide; [|by left].
      cbn in Hk. by rewrite lookup_empty in Hk.
Qed.

Lemma edges_come_from_clicks_or_loads_witness :
  ∃ ctrlKey metaKey,
    NodeClick "b" true false = NodeClick "b" ctrlKey metaKey ∧
    currentTool (run [ToolBtn Tool.connection; NodeClick "a" false false]
                   initial) = Tool.connection.
Proof.
  destruct (edges_come_from_clicks_or_loads (NodeClick "b" true false)
    (run [ToolBtn Tool.connection; NodeClick "a" false false] initial)
    "connection_1" (Connection.mk "connection_1" "a" "b") eq_refl)
    as [H|[(ctrlKey & metaKey & He & Ht & _)|(? & ? & ? & H & _)]].
  - vm_compute in H. discriminate.
  - by exists ctrlKey, metaKey.
  - discriminate.
Defined.

Lemma handle_nodes_dom e s k :
  match e with
  | CanvasClick _ _ _ | WelcomeTimer _ _ | ConfirmLoad _ _ => True
  | _ => is_Some (nodes (handle e s) !! k) → is_Some (nodes s !! k)
  end.
Proof.
  destruct e; cbn; try done.
  1: by destruct (handleCanvasMouseMove_fields x y s) as (_&_&_&_&_&_& ->).
  all: unfold_methods; repeat (case_match; cbn; try done);
    rewrite ?lookup_empty; try (by intros []).
  all: try (destruct (deleteSelected_fields s) as (_&_&_&_&_& Hsub &_);
            intros [n Hn]; exists n; by eapply lookup_weaken).
  all: try (by destruct (saveMultipleNodeEdit_fields nodeColor textColor s)
              as (_&_&_&_&_&_& ->)).
  all: rewrite lookup_insert_is_Some'; intros [->|?]; done.
Qed.

(** X15.  A node id that is in the document after an event and was not
    before has one of three origins: a click on the canvas under the node
    tool (also a click that lands on an existing node), the welcome timer, both
    with the next node id, or the loading of a stored document that holds the
    id.  No other event adds a node. *)
Theorem nodes_come_from_clicks_or_loads e s k :
  is_Some (nodes (handle e s) !! k) →
  is_Some (nodes s !! k) ∨
  (k = "node_" +:+ pretty (N.succ (nodeCounter s)) ∧
   ((∃ x y onNode, e = CanvasClick x y onNode ∧ currentTool s = Tool.node) ∨
    (∃ clientWidth clientHeight, e = WelcomeTimer clientWidth clientHeight))) ∨
  (∃ fileName confirmed d node,
     e = ConfirmLoad (Some fileName) confirmed ∧
     mindmaps s !! fileName = Some d ∧
     (k, node) ∈ MindmapData.nodes d).
Proof.
  intros Hk. pose proof (handle_nodes_dom e s k) as Hdom.
  destruct e; try (left; by apply Hdom).
  - clear Hdom. cbn in Hk. unfold handleCanvasClick in Hk.
    destruct (currentTool s) eqn:Htool.
    + left. revert Hk. unfold_methods. by case_match.
    + cbn in Hk. apply lookup_insert_is_Some' in Hk as [<-|?]; [|by left].
      right; left. split; [done|]. left. by exists x, y, onNode.
    + by left.
  - clear Hdom. cbn in Hk. rewrite loadMindMap_eq in Hk.
    destruct selectedFile as [fileName|]; [|by left].
    destruct (mindmaps s !! fileName) as [d|] eqn:Hd.
    + destruct Hk as [node Hk].
      right; right. exists fileName, confirmed, d, node.
      split; [done|]. split; [done|].
      apply Map_of_entries_lookup. revert Hk. unfold clearAll.
      by destruct confirmed.
    + case_bool_decide; [|by left].
      destruct Hk as [node Hk]. cbn in Hk. by rewrite lookup_empty in Hk.
  - clear Hdom. cbn in Hk. unfold createWelcomeNode in Hk. cbn in Hk.
    apply lookup_insert_is_Some' in Hk as [<-|?]; [|by left].
    right; left. split; [done|]. right. by exists clientWidth, clientHeight.
Qed.

Lemma nodes_come_from_clicks_or_loads_witness :
  currentTool (run [ToolBtn Tool.node] initial) = Tool.node.
Proof.
  destruct (nodes_come_from_clicks_or_loads (CanvasClick 5 5 true)
    (run [ToolBtn Tool.node] initial) "node_1")
    as [[n H]|[[_ [(x & y & onNode & _ & Ht)|(? & ? & H)]]
              |(? & ? & ? & ? & H & _)]].
  - by eexists.
  - vm_compute in H. discriminate.
  - exact Ht.
  - discriminate.
  - discriminate.
Defined.

(** * Editing one node *)

Lemma id_below_nonempty prefix counter id :
  prefix ≠ "" → id_below prefix counter id → id ≠ "".
Proof.
  intros Hp (k & -> & _) H. destruct prefix as [|c prefix]; [done|].
  apply (f_equal String.length) in H. rewrite string_length_app in H.
  discriminate.
Qed.

Lemma graph_update_editing s s' :
  graph_update s s' → currentEditingNodes s' = currentEditingNodes s.
Proof. unfold graph_update. by intros ->. Qed.

Lemma handleCanvasMouseMove_editing x y s :
  currentEditingNodes (handleCanvasMouseMove x y s) = currentEditingNodes s.
Proof.
  unfold handleCanvasMouseMove. set (s1 := if _ && _ then _ else s).
  assert (graph_update s s1) as Hs1
    by (subst s1; destruct (_ && _);
        [apply graph_update_move_all|apply graph_update_refl]).
  rewrite <-(graph_update_editing _ _ Hs1). clearbody s1.
  unfold_methods. by repeat (case_match; cbn).
Qed.

Lemma deleteSelected_editing s :
  currentEditingNodes (deleteSelected s) = currentEditingNodes s.
Proof.
  destruct (shrinks_deleteSelected s) as (g & (Hg & _) & ->).
  by rewrite <-(graph_update_editing _ _ Hg).
Qed.

Lemma handle_batch_list_ok e s : batch_list_ok s → batch_list_ok (handle e s).
Proof.
  unfold batch_list_ok. intros Hs editing.
  destruct e; cbn;
    rewrite ?handleCanvasMouseMove_editing, ?deleteSelected_editing;
    try apply Hs.
  all: unfold handleKeyDown, saveNodeEdit, saveMultipleNodeEdit.
  all: unfold_methods; repeat (case_match; cbn; try done);
    rewrite ?deleteSelected_editing; try apply Hs.
  all: first [ intros Hed; apply Hs; congruence
             | intros [= <-]; by case_bool_decide ].
Qed.

Lemma run_batch_list_ok events : batch_list_ok (run events initial).
Proof. apply run_invariant; [apply handle_batch_list_ok|]. by intros editing. Qed.

(** X16.  In every state the application reaches, with at most one node
    selected, a double click on a node followed by Save closes the dialog and
    keeps the edges and the selection.  When no list of a batch edit is left
    over, the node gets the two colours of the dialog and the trimmed text of
    the dialog, or keeps its text when the trimmed text is empty; shape,
    position and id stay, size and radius are
    [max(60, longestWord*8 + wordCount*4)] (times 1.4 for a circle) of the
    resulting text, the old size when the text does not change, and no other
    node changes.  When a list is left over (the dialog of a batch edit was
    closed by a click on its backdrop, which does not reset the list), Save
    is a batch edit of that list instead: the text of the dialog is dropped,
    and every listed node gets the two colours and the shape of the node that
    was double-clicked, with its size computed from its own text. *)
Theorem edit_then_save events nodeId node nodeText nodeColor textColor :
  let s := run events initial in
  nodes s !! nodeId = Some node →
  length (selectedNodes s) ≤ 1 →
  let s' := saveNodeEdit nodeText nodeColor textColor (editNode nodeId s) in
  let size_of := λ text shape,
    let words := split_space text in
    let longestWord := max_list (String.length <$> words) in
    let wordCount := length words in
    let base :=
      Qmax 60 (inject_Z (Z.of_nat (longestWord * 8 + wordCount * 4))) in
    (if String.eqb shape "circle" then base * 1.4 else base)%Q in
  connections s' = connections s ∧
  selectedNodes s' = selectedNodes s ∧
  currentEditingNode s' = None ∧
  currentEditingNodes s' = None ∧
  match currentEditingNodes s with
  | None =>
      let text :=
        if truthy (trim nodeText) then trim nodeText else Node.text node in
      let size := size_of text (Node.shape node) in
      nodes s' = <[nodeId := Node.mk nodeId (Node.x node) (Node.y node) text
                               nodeColor textColor (Node.shape node) size
                               size]> (nodes s) ∧
      (text = Node.text node → size = Node.size node)
  | Some editing =>
      1 < length editing ∧
      (∀ k n, k ∈ editing → nodes s !! k = Some n →
         let size := size_of (Node.text n) (Node.shape node) in
         nodes s' !! k
         = Some (Node.mk (Node.id n) (Node.x n) (Node.y n) (Node.text n)
                   nodeColor textColor (Node.shape node) size size)) ∧
      (∀ k, k ∉ editing → nodes s' !! k = nodes s !! k) ∧
      (∀ k, nodes s !! k = None → nodes s' !! k = None)
  end.
Proof.
  intros s Hnode Hsel s' size_of.
  destruct (run_well_formed events) as [[Hnodes _] _].
  destruct (Hnodes nodeId node Hnode) as (Hid & _ & Hshape & Hsize & _).
  destruct (run_counters_cover events) as [[Hkeys _] _].
  pose proof (run_batch_list_ok events) as Hbatch.
  assert (truthy nodeId = true) as Hne.
  { apply truthy_true, (id_below_nonempty "node_" (nodeCounter s)); [done|].
    apply Hkeys. by exists node. }
  apply truthy_true in Hshape.
  fold s in Hnodes, Hkeys, Hbatch.
  assert (editNode nodeId s
          = set_selectedShape (Some (Node.shape node))
              (set_currentEditingNode (Some nodeId) s)) as Hedit.
  { unfold editNode. rewrite bool_decide_eq_false_2 by lia.
    rewrite Hnode. unfold or_string. by rewrite Hshape. }
  subst s'. rewrite Hedit. clear Hedit. unfold saveNodeEdit. cbn.
  destruct (currentEditingNodes s) as [editing|] eqn:Hed.
  - pose proof (Hbatch editing Hed) as Hlen.
    rewrite bool_decide_eq_true_2 by done.
    unfold saveMultipleNodeEdit. cbn. rewrite Hed.
    rewrite saveMultipleNodeEdit_fold_graph. cbn.
    split; [done|]. split; [done|]. split; [done|]. split; [done|].
    split; [done|]. split; [|split].
    + intros k n Hk Hn.
      rewrite saveMultipleNodeEdit_fold_lookup, decide_True by done.
      cbn. rewrite Hn. cbn. unfold batch_edited. by rewrite Hshape.
    + intros k Hk.
      by rewrite saveMultipleNodeEdit_fold_lookup, decide_False.
    + intros k Hk. rewrite saveMultipleNodeEdit_fold_lookup. cbn.
      rewrite Hk. by destruct (decide _).
  - rewrite Hne, Hnode. unfold or_string. rewrite !Hshape. cbn.
    rewrite Hid. repeat split; try done.
    intros Htext. subst size_of. cbn. rewrite Htext, Hsize. done.
Qed.

Lemma edit_then_save_witness :
  let s := run [WelcomeTimer 800 600] initial in
  Node.text <$>
    nodes (saveNodeEdit "  Plan  " "#ff0000" "#000000" (editNode "node_1" s))
      !! "node_1"
  = Some "Plan".
Proof.
  intros s.
  assert (nodes s !! "node_1"
          = Some (Node.mk "node_1" (800 / 2) (600 / 2) "Welcome to MindMap!"
                    "#4A90E2" "#FFFFFF" "circle"
                    (baseSize "Welcome to MindMap!" "circle")
                    (baseSize "Welcome to MindMap!" "circle"))) as Hnode
    by (by vm_compute).
  assert (length (selectedNodes s) ≤ 1) as Hsel by (vm_compute; lia).
  assert (currentEditingNodes s = None) as Hed by (by vm_compute).
  pose proof (edit_then_save [WelcomeTimer 800 600] "node_1" _
                "  Plan  " "#ff0000" "#000000" Hnode Hsel) as H.
  cbv zeta in H. fold s in H. rewrite Hed in H.
  destruct H as (_ & _ & _ & _ & H & _).
  rewrite H, lookup_insert_eq. by vm_compute.
Defined.

(** * The stored documents *)

Lemma object_set_ne {V} (obj : gmap string V) key v j :
  key ≠ j → object_set obj key v !! j = obj !! j.
Proof.
  intros Hne. unfold object_set.
  destruct (obj !! key), (String.eqb key "__proto__");
    by rewrite ?lookup_insert_ne.
Qed.

Lemma handle_mindmaps e s :
  match e with
  | ConfirmSave _ _ | DeleteFileBtn _ _ => True
  | _ => mindmaps (handle e s) = mindmaps s
  end.
Proof.
  destruct e; cbn; try done.
  2: by destruct (handleCanvasMouseMove_fields x y s) as (_&_& -> &_).
  all: unfold_methods; repeat (case_match; cbn; try done);
    try apply deleteSelected_fields.
  all: by destruct (saveMultipleNodeEdit_fields nodeColor textColor s)
         as (_&_& -> &_).
Qed.

(** X17.  What every event makes of the stored documents.  A save under a
    name whose trimmed form is not empty writes one entry, under the trimmed
    name, made of the nodes, edges and counters of the document at that time
    and of the time of the save, and leaves every other entry; except that a
    save under [__proto__] writes nothing when the store has no own entry of
    that name.  A save under a blank name writes nothing.  A confirmed
    deletion removes the entry of its name, a declined one nothing.  Every
    other event, also clearing the canvas, loading a document and reloading
    the page, leaves the stored documents as they are. *)
Theorem store_changes_by_save_and_delete e s :
  mindmaps (handle e s)
  = match e with
    | ConfirmSave saveFileName now =>
        let fileName := trim saveFileName in
        if String.eqb fileName "" then mindmaps s
        else if String.eqb fileName "__proto__"
                && bool_decide (mindmaps s !! "__proto__" = None)
        then mindmaps s
        else <[fileName :=
                 MindmapData.mk fileName (map_to_list (nodes s))
                   (map_to_list (connections s)) (nodeCounter s)
                   (connectionCounter s) now]> (mindmaps s)
    | DeleteFileBtn fileName true => delete fileName (mindmaps s)
    | _ => mindmaps s
    end.
Proof.
  pose proof (handle_mindmaps e s) as H.
  destruct e; try done; cbn.
  - unfold saveMindMap, truthy, object_set.
    destruct (String.eqb_spec (trim saveFileName) "") as [|Hname]; [done|].
    cbn. destruct (String.eqb_spec (trim saveFileName) "__proto__") as [Hp|Hp].
    + rewrite Hp. by destruct (mindmaps s !! "__proto__") eqn:Hown.
    + cbn. by destruct (mindmaps s !! trim saveFileName).
  - by destruct confirmed.
Qed.

Lemma run_mindmaps_lookup name events s :
  Forall (λ e, ¬ touches_file name e) events →
  mindmaps (run events s) !! name = mindmaps s !! name.
Proof.
  revert s. induction events as [|e events IH]; intros s Hev; [done|].
  apply Forall_cons in Hev as [He Hev].
  change (run (e :: events) s) with (run events (handle e s)).
  rewrite IH by done. pose proof (handle_mindmaps e s) as H.
  destruct e; try (by rewrite H); cbn in *.
  - unfold saveMindMap. destruct (truthy (trim saveFileName)); cbn; [|done].
    by rewrite object_set_ne.
  - destruct confirmed; cbn; [|done]. by rewrite lookup_delete_ne.
Qed.

(** X18.  A document saved under a name whose trimmed form is neither empty
    nor [__proto__] is restored by [loadMindMap], given the trimmed name as
    the text of the selected item, after any sequence of events that holds no
    save under that name and no confirmed deletion of it: the store then has
    an entry of that name, and the loaded nodes, edges and counters are those
    of the document at the time of the save, whatever was drawn, deleted,
    cleared or loaded in between, and also after a reload of the page.  (What
    text the list shows for a name is set through [innerHTML] and is not
    part of the model.) *)
Theorem saved_document_survives s saveFileName now events confirmed :
  truthy (trim saveFileName) = true →
  trim saveFileName ≠ "__proto__" →
  Forall (λ e, ¬ touches_file (trim saveFileName) e) events →
  let later := run events (saveMindMap saveFileName now s) in
  let loaded := loadMindMap (Some (trim saveFileName)) confirmed later in
  is_Some (mindmaps later !! trim saveFileName) ∧
  nodes loaded = nodes s ∧
  connections loaded = connections s ∧
  nodeCounter loaded = nodeCounter s ∧
  connectionCounter loaded = connectionCounter s ∧
  mindmaps loaded = mindmaps later.
Proof.
  intros Hname Hproto Hev later loaded.
  assert (mindmaps later !! trim saveFileName
          = Some (MindmapData.mk (trim saveFileName) (entries (nodes s))
                    (entries (connections s)) (nodeCounter s)
                    (connectionCounter s) now)) as Hstored.
  { subst later. rewrite run_mindmaps_lookup by done.
    unfold saveMindMap. rewrite Hname. cbn.
    rewrite object_set_stored by done. apply lookup_insert_eq. }
  split; [by rewrite Hstored|].
  subst loaded. clearbody later. rewrite loadMindMap_eq, Hstored. cbn.
  rewrite !Map_of_entries_entries, !or_zero_id.
  unfold clearAll. by destruct confirmed.
Qed.

Lemma saved_document_survives_witness :
  let s := run [WelcomeTimer 800 600] initial in
  let later :=
    run [ClearBtn true; ConfirmSave "other" "2024"; Reload]
      (saveMindMap " map " "2023" s) in
  nodes (loadMindMap (Some (trim " map ")) false later) = nodes s.
Proof.
  intros s later.
  apply (saved_document_survives s " map " "2023"
           [ClearBtn true; ConfirmSave "other" "2024"; Reload] false).
  - by vm_compute.
  - by vm_compute.
  - repeat constructor; cbn; try tauto. by vm_compute.
Defined.

(** X19.  [loadMindMap] does nothing without a selected file, and nothing
    when the selected name is neither an own entry of the store nor the name
    of a member of [Object.prototype].  For the name of such a member that
    is not an own entry ([constructor], [toString], [__proto__], ...) the
    test of line 1104 passes and the document is emptied and both counters
    are set to 0.  For an own entry the nodes, the edges and the two
    counters are replaced by the stored ones.  In every case the answer to
    the confirmation of [clearAll] only decides whether the selection is
    emptied: the document is replaced also when the answer is no, and a
    connection in progress, the tool, the view and the stored documents
    stay. *)
Theorem loadMindMap_ignores_the_answer fileName s :
  let yes := loadMindMap (Some fileName) true s in
  let no := loadMindMap (Some fileName) false s in
  let members :=
    ["constructor"; "__defineGetter__"; "__defineSetter__"; "hasOwnProperty";
     "__lookupGetter__"; "__lookupSetter__"; "isPrototypeOf";
     "propertyIsEnumerable"; "toString"; "valueOf"; "__proto__";
     "toLocaleString"] in
  loadMindMap None true s = s ∧
  loadMindMap None false s = s ∧
  no = set_selectedConnections (selectedConnections s)
         (set_selectedNodes (selectedNodes s) yes) ∧
  (mindmaps s !! fileName = None → fileName ∉ members → yes = s ∧ no = s) ∧
  (mindmaps s !! fileName = None → fileName ∈ members →
     nodes yes = ∅ ∧ connections yes = ∅ ∧
     nodeCounter yes = 0%N ∧ connectionCounter yes = 0%N ∧
     yes = set_connectionCounter 0
             (set_nodeCounter 0
                (set_connections ∅ (set_nodes ∅ (clearSelection s))))) ∧
  (∀ d, mindmaps s !! fileName = Some d →
     nodes yes = Map_of_entries (MindmapData.nodes d) ∧
     connections yes = Map_of_entries (MindmapData.connections d) ∧
     nodeCounter yes = MindmapData.nodeCounter d ∧
     connectionCounter yes = MindmapData.connectionCounter d ∧
     selectedNodes yes = [] ∧
     selectedConnections yes = [] ∧
     connectionStart yes = connectionStart s ∧
     isConnecting yes = isConnecting s ∧
     currentTool yes = currentTool s ∧
     zoom yes = zoom s ∧
     mindmaps yes = mindmaps s).
Proof.
  cbv zeta. rewrite !loadMindMap_eq. unfold clearAll, Object_prototype_keys.
  destruct (mindmaps s !! fileName) as [d|] eqn:Hd.
  - split; [done|]. split; [done|]. split; [done|].
    split; [done|]. split; [done|].
    intros ? [= <-]. cbn. by rewrite !or_zero_id.
  - split; [done|]. split; [done|]. case_bool_decide as Hin.
    + split; [done|]. split; [done|]. split; [|done]. intros _ _.
      unfold clearSelection. done.
    + split; [by destruct s|]. split; [|split; done].
      intros _ _. split; [done|]. by destruct s.
Qed.

Lemma loadMindMap_ignores_the_answer_witness :
  nodes (loadMindMap (Some "constructor") true
           (run [WelcomeTimer 800 600] initial)) = ∅.
Proof.
  assert (mindmaps (run [WelcomeTimer 800 600] initial) !! "constructor"
          = None) as Hc by (by vm_compute).
  exact (proj1 (proj1 (proj2 (proj2 (proj2 (proj2
           (loadMindMap_ignores_the_answer "constructor"
              (run [WelcomeTimer 800 600] initial))))))
           Hc (list_elem_of_here _ _))).
Defined.

(** * The limits of the zoom *)

Lemma run_replicate_zoom e (f : Q → Q) n s :
  (∀ t, zoom (handle e t) = f (zoom t)) →
  zoom (run (replicate n e) s) = Nat.iter n f (zoom s).
Proof.
  intros Hf. revert s. induction n as [|n IH]; intros s; [done|].
  change (run (replicate (S n) e) s) with (run (replicate n e) (handle e s)).
  by rewrite IH, Hf, Nat.iter_succ_r.
Qed.

Lemma iter_le (f : Q → Q) n a b :
  (∀ x y, (x <= y)%Q → (f x <= f y)%Q) →
  (a <= b)%Q → (Nat.iter n f a <= Nat.iter n f b)%Q.
Proof. intros Hf Hab. induction n as [|n IH]; [done|]. cbn. by apply Hf. Qed.

(** After [k] steps of a monotone step function that takes the bound [hi]
    to [lo] or below and never leaves [lo, hi], every further step stays at
    [lo]. *)
Lemma iter_reaches_low (f : Q → Q) lo hi k n z :
  (∀ x y, (x <= y)%Q → (f x <= f y)%Q) →
  (∀ x, (lo <= f x)%Q) →
  (∀ x, (x <= lo)%Q → (f x <= lo)%Q) →
  (Nat.iter k f hi <= lo)%Q →
  (lo <= z)%Q → (z <= hi)%Q → k ≤ n →
  (Nat.iter n f z == lo)%Q.
Proof.
  intros Hmono Hlo Hfix Hk Hz1 Hz2 Hn.
  replace n with ((n - k) + k) by lia. rewrite Nat.iter_add.
  assert (Nat.iter k f z <= lo)%Q as Hdown.
  { eapply Qle_trans; [|apply Hk]. by apply iter_le. }
  assert (lo <= Nat.iter k f z)%Q as Hup.
  { destruct k; [done|]. cbn. apply Hlo. }
  apply Qle_antisym.
  - apply (Nat.iter_invariant (n - k) Q f (λ y, (y <= lo)%Q)); [|done].
    intros x Hx. by apply Hfix.
  - destruct (n - k); [done|]. cbn. apply Hlo.
Qed.

Lemma iter_reaches_high (f : Q → Q) lo hi k n z :
  (∀ x y, (x <= y)%Q → (f x <= f y)%Q) →
  (∀ x, (f x <= hi)%Q) →
  (∀ x, (hi <= x)%Q → (hi <= f x)%Q) →
  (hi <= Nat.iter k f lo)%Q →
  (lo <= z)%Q → (z <= hi)%Q → k ≤ n →
  (Nat.iter n f z == hi)%Q.
Proof.
  intros Hmono Hhi Hfix Hk Hz1 Hz2 Hn.
  replace n with ((n - k) + k) by lia. rewrite Nat.iter_add.
  assert (hi <= Nat.iter k f z)%Q as Hup.
  { eapply Qle_trans; [apply Hk|]. by apply iter_le. }
  apply Qle_antisym.
  - destruct (n - k); [|cbn; apply Hhi].
    cbn. destruct k; [exact Hz2|]. cbn. apply Hhi.
  - apply (Nat.iter_invariant (n - k) Q f (λ y, (hi <= y)%Q)); [|done].
    intros x Hx. by apply Hfix.
Qed.

(** X20.  From any zoom factor between 0.1 and 3: 33 wheel steps with a
    positive [deltaY], or 19 presses of the zoom-out button, bring the zoom to
    its lower limit 0.1; 36 wheel steps with a [deltaY] that is not positive,
    or 19 presses of the zoom-in button, bring it to its upper limit 3; and
    every further step of the same kind leaves it there. *)
Theorem zoom_reaches_its_limits s n deltaY :
  zoom_in_range s →
  ((0 < deltaY)%Q → 33 ≤ n →
   (zoom (run (wheel_steps n deltaY) s) == 0.1)%Q) ∧
  ((deltaY <= 0)%Q → 36 ≤ n →
   (zoom (run (wheel_steps n deltaY) s) == 3)%Q) ∧
  (19 ≤ n → (zoom (run (replicate n ZoomOutBtn) s) == 0.1)%Q) ∧
  (19 ≤ n → (zoom (run (replicate n ZoomInBtn) s) == 3)%Q).
Proof.
  intros [Hlo Hhi]. split; [|split; [|split]].
  - intros Hd%Qgtb_true Hn. unfold wheel_steps.
    rewrite (run_replicate_zoom _ (λ z, Qmax 0.1 (Qmin 3 (z * 0.9)))%Q)
      by (intros t; cbn; by rewrite Hd).
    apply (iter_reaches_low _ 0.1 3 33); [| | | |exact Hlo|exact Hhi|exact Hn].
    + intros x y Hxy. apply Q.max_le_compat_l, Q.min_le_compat_l. lra.
    + intros x. apply Q.le_max_l.
    + intros x Hx. apply Q.max_lub; [lra|].
      eapply Qle_trans; [apply Q.le_min_r|]. lra.
    + by vm_compute.
  - intros Hd%Qgtb_false Hn. unfold wheel_steps.
    rewrite (run_replicate_zoom _ (λ z, Qmax 0.1 (Qmin 3 (z * 1.1)))%Q)
      by (intros t; cbn; by rewrite Hd).
    apply (iter_reaches_high _ 0.1 3 36); [| | | |exact Hlo|exact Hhi|exact Hn].
    + intros x y Hxy. apply Q.max_le_compat_l, Q.min_le_compat_l. lra.
    + intros x. apply clamp_in_range.
    + intros x Hx. eapply Qle_trans; [|apply Q.le_max_r].
      apply Q.min_glb; lra.
    + by vm_compute.
  - intros Hn.
    rewrite (run_replicate_zoom _ (λ z, Qmax 0.1 (z / 1.2))%Q) by done.
    apply (iter_reaches_low _ 0.1 3 19); [| | | |exact Hlo|exact Hhi|exact Hn].
    + intros x y Hxy. apply Q.max_le_compat_l.
      apply Qle_shift_div_l; [by vm_compute|].
      assert (x / 1.2 * 1.2 == x)%Q as -> by (by field). done.
    + intros x. apply Q.le_max_l.
    + intros x Hx. apply Q.max_lub; [lra|].
      apply Qle_shift_div_r; [by vm_compute|]. lra.
    + by vm_compute.
  - intros Hn.
    rewrite (run_replicate_zoom _ (λ z, Qmin 3 (z * 1.2))%Q) by done.
    apply (iter_reaches_high _ 0.1 3 19); [| | | |exact Hlo|exact Hhi|exact Hn].
    + intros x y Hxy. apply Q.min_le_compat_l. lra.
    + intros x. apply Q.le_min_l.
    + intros x Hx. apply Q.min_glb; lra.
    + by vm_compute.
Qed.

Lemma zoom_reaches_its_limits_witness :
  (zoom (run (wheel_steps 40 120) (run [ZoomInBtn] initial)) == 0.1)%Q.
Proof.
  assert (zoom_in_range (run [ZoomInBtn] initial)) as Hrange
    by (split; by vm_compute).
  assert (0 < 120)%Q as Hdelta by (by vm_compute).
  assert (33 ≤ 40) as Hn by lia.
  exact (proj1 (zoom_reaches_its_limits (run [ZoomInBtn] initial) 40 120
                  Hrange) Hdelta Hn).
Defined.

(** * Clicking and dragging on the canvas *)

Lemma run_zoom_in_range events : zoom_in_range (run events initial).
Proof.
  apply run_invariant; [apply handle_zoom_in_range|]. split; by vm_compute.
Qed.

(** X21.  In every state the application reaches, a click on the canvas
    under the node tool makes a node with the next node id, and the layer
    transform of [updateTransform] shows the centre of that node at the
    place of the click: the division by the zoom and the subtraction of the
    pan undo the transform. *)
Theorem new_node_is_under_the_pointer events x y onNode :
  let s := run events initial in
  currentTool s = Tool.node →
  let s' := handleCanvasClick x y onNode s in
  ∃ node,
    nodes s' !! ("node_" +:+ pretty (N.succ (nodeCounter s))) = Some node ∧
    Node.text node = "New Node" ∧
    let p := shown_at (updateTransform s')
               (Point.mk (Node.x node) (Node.y node)) in
    (Point.x p == x)%Q ∧ (Point.y p == y)%Q.
Proof.
  intros s Htool s'. subst s'. unfold handleCanvasClick. rewrite Htool.
  destruct (run_zoom_in_range events) as [Hlo _]. fold s in Hlo.
  eexists. split; [apply lookup_insert_eq|]. split; [done|]. cbn.
  split; field; intros Hz; rewrite Hz in Hlo; by vm_compute in Hlo.
Qed.

Lemma new_node_is_under_the_pointer_witness :
  let s := run [ZoomInBtn; ToolBtn Tool.node] initial in
  ∃ node,
    nodes (handleCanvasClick 120 60 false s)
      !! ("node_" +:+ pretty (N.succ (nodeCounter s))) = Some node ∧
    Node.text node = "New Node" ∧
    let p := shown_at (updateTransform (handleCanvasClick 120 60 false s))
               (Point.mk (Node.x node) (Node.y node)) in
    (Point.x p == 120)%Q ∧ (Point.y p == 60)%Q.
Proof.
  intros s.
  assert (currentTool s = Tool.node) as Htool by (by vm_compute).
  exact (new_node_is_under_the_pointer [ZoomInBtn; ToolBtn Tool.node]
           120 60 false Htool).
Defined.

Lemma moveNode_lookup nodeId x y s k :
  nodes (moveNode nodeId x y s) !! k
  = if decide (k = nodeId) then moved_to x y <$> nodes s !! k
    else nodes s !! k.
Proof.
  unfold moveNode.
  destruct (nodes s !! nodeId) as [node|] eqn:Hnode; cbn.
  - destruct (decide (k = nodeId)) as [->|Hne].
    + by rewrite lookup_insert_eq, Hnode.
    + by rewrite lookup_insert_ne.
  - destruct (decide (k = nodeId)) as [->|Hne]; [by rewrite Hnode|done].
Qed.

Lemma move_all_lookup x y l s k :
  nodes (foldl (λ st nodeId, moveNode nodeId x y st) s l) !! k
  = if decide (k ∈ l) then moved_to x y <$> nodes s !! k else nodes s !! k.
Proof.
  revert s. induction l as [|a l IH]; intros s; cbn [foldl].
  - destruct (decide (k ∈ [])) as [[]%elem_of_nil|]; done.
  - rewrite IH, moveNode_lookup.
    destruct (decide (k = a)) as [->|Hne].
    + destruct (decide (a ∈ a :: l)) as [_|[]]; [|by left].
      destruct (decide (a ∈ l)); [|done]. by destruct (nodes s !! a).
    + destruct (decide (k ∈ l)) as [Hin|Hnin].
      * destruct (decide (k ∈ a :: l)) as [_|[]]; [done|by right].
      * destruct (decide (k ∈ a :: l)) as [[?|?]%elem_of_cons|]; done.
Qed.

Lemma updateTempConnection_nodes x y s :
  nodes (updateTempConnection x y s) = nodes s.
Proof. unfold_methods. by repeat (case_match; cbn). Qed.

Lemma handleCanvasMouseMove_lookup x y s k :
  isDragging s = true →
  nodes (handleCanvasMouseMove x y s) !! k
  = if decide (k ∈ selectedNodes s)
    then moved_to (x / zoom s - Point.x (pan s) - Point.x (dragOffset s))
           (y / zoom s - Point.y (pan s) - Point.y (dragOffset s))
         <$> nodes s !! k
    else nodes s !! k.
Proof.
  intros Hdrag. unfold handleCanvasMouseMove. rewrite Hdrag. cbn.
  set (s1 := if bool_decide _ then _ else s).
  assert (nodes (if isConnecting s1 && truthy_opt (connectionStart s1)
                 then updateTempConnection x y s1 else s1) = nodes s1) as ->.
  { destruct (_ && _); [apply updateTempConnection_nodes|done]. }
  subst s1. case_bool_decide as Hlen; [apply move_all_lookup|].
  destruct (selectedNodes s); [|cbn in Hlen; lia].
  destruct (decide _) as [[]%elem_of_nil|]; done.
Qed.

Lemma handleCanvasMouseMove_frame x y s :
  selectedNodes (handleCanvasMouseMove x y s) = selectedNodes s ∧
  isDragging (handleCanvasMouseMove x y s) = isDragging s ∧
  connections (handleCanvasMouseMove x y s) = connections s.
Proof.
  split; [|split];
    [| |by destruct (handleCanvasMouseMove_fields x y s) as (_&_&_&_&_& -> &_)].
  all: unfold handleCanvasMouseMove; set (s1 := if _ && _ then _ else s).
  all: assert (graph_update s s1) as Hs1
    by (subst s1; destruct (_ && _);
        [apply graph_update_move_all|apply graph_update_refl]).
  all: unfold graph_update in Hs1; rewrite Hs1; clearbody s1.
  all: unfold_methods; by repeat (case_match; cbn).
Qed.

(** X22.  A mouse move while dragging gives every selected node the same
    position, the pointer position in document coordinates minus the drag
    offset, and keeps the other fields of these nodes; so the nodes of a
    selection of several are put on one point.  Nodes that are not selected
    and all edges stay as they are. *)
Theorem drag_puts_selection_on_one_point x y s :
  isDragging s = true →
  let s' := handleCanvasMouseMove x y s in
  let newX := (x / zoom s - Point.x (pan s) - Point.x (dragOffset s))%Q in
  let newY := (y / zoom s - Point.y (pan s) - Point.y (dragOffset s))%Q in
  (∀ k node, k ∈ selectedNodes s → nodes s !! k = Some node →
     nodes s' !! k = Some (moved_to newX newY node)) ∧
  (∀ k k' node node', k ∈ selectedNodes s → k' ∈ selectedNodes s →
     nodes s' !! k = Some node → nodes s' !! k' = Some node' →
     Node.x node = Node.x node' ∧ Node.y node = Node.y node') ∧
  (∀ k, k ∉ selectedNodes s → nodes s' !! k = nodes s !! k) ∧
  connections s' = connections s ∧
  selectedNodes s' = selectedNodes s.
Proof.
  intros Hdrag s' newX newY.
  assert (∀ k, k ∈ selectedNodes s →
            nodes s' !! k = moved_to newX newY <$> nodes s !! k) as Hsel.
  { intros k Hk. subst s'. rewrite handleCanvasMouseMove_lookup by done.
    by rewrite decide_True. }
  split; [|split; [|split; [|split]]].
  - intros k node Hk Hnode. by rewrite Hsel, Hnode.
  - intros k k' node node' Hk Hk'. rewrite !Hsel by done.
    destruct (nodes s !! k), (nodes s !! k'); cbn; try done.
    by intros [= <-] [= <-].
  - intros k Hk. subst s'. rewrite handleCanvasMouseMove_lookup by done.
    by rewrite decide_False.
  - apply handleCanvasMouseMove_frame.
  - apply handleCanvasMouseMove_frame.
Qed.

Lemma drag_puts_selection_on_one_point_witness :
  let s :=
    run [ToolBtn Tool.node; CanvasClick 10 10 false; CanvasClick 200 10 false;
         ToolBtn Tool.select; NodeClick "node_1" false false;
         NodeClick "node_2" true false;
         CanvasMouseDown (Some "node_1") 10 10 false false] initial in
  connections (handleCanvasMouseMove 50 50 s) = connections s.
Proof.
  intros s.
  assert (isDragging s = true) as Hdrag by (by vm_compute).
  clearbody s.
  exact (proj1 (proj2 (proj2 (proj2
           (drag_puts_selection_on_one_point 50 50 s Hdrag))))).
Defined.

(** X23.  Under the select tool, pressing the mouse button on a node that is
    the only selected node or is not selected, without Ctrl or Meta, and then
    moving the mouse moves that node by the way the pointer went divided by
    the zoom, so the node stays under the pointer where it was grabbed.  The
    node is then the selected node, and no other node and no edge has
    changed. *)
Theorem dragged_node_follows_pointer s nodeId node x0 y0 x1 y1 :
  currentTool s = Tool.select →
  nodes s !! nodeId = Some node →
  nodeId ∉ selectedNodes s ∨ selectedNodes s = [nodeId] →
  let s' :=
    handleCanvasMouseMove x1 y1
      (handleCanvasMouseDown (Some nodeId) x0 y0 false false s) in
  (∃ x' y',
     nodes s' !! nodeId = Some (moved_to x' y' node) ∧
     (x' == Node.x node + (x1 - x0) / zoom s)%Q ∧
     (y' == Node.y node + (y1 - y0) / zoom s)%Q) ∧
  (∀ k, k ≠ nodeId → nodes s' !! k = nodes s !! k) ∧
  connections s' = connections s ∧
  selectedNodes s' = [nodeId] ∧
  isDragging s' = true.
Proof.
  intros Htool Hnode Hsel.
  set (down := handleCanvasMouseDown (Some nodeId) x0 y0 false false s).
  intros s'.
  assert (isDragging down = true ∧ selectedNodes down = [nodeId] ∧
          nodes down = nodes s ∧ connections down = connections s ∧
          zoom down = zoom s ∧ pan down = pan s ∧
          dragOffset down
          = Point.mk (x0 / zoom s - Point.x (pan s) - Node.x node)
              (y0 / zoom s - Point.y (pan s) - Node.y node))
    as (Hdrag & Hdsel & Hdn & Hdc & Hdz & Hdp & Hdo).
  { subst down. unfold handleCanvasMouseDown. rewrite Htool, Hnode. cbn.
    unfold set_has, set_add, set_has, clearSelection.
    destruct Hsel as [Hnin|Heq].
    - by rewrite (bool_decide_eq_false_2 _ Hnin).
    - rewrite Heq. rewrite bool_decide_eq_true_2 by (by left). done. }
  destruct (handleCanvasMouseMove_frame x1 y1 down) as (Hsame & Hdrag' & Hconn).
  fold s' in Hsame, Hdrag', Hconn.
  assert (∀ k, nodes s' !! k
               = if decide (k = nodeId)
                 then moved_to
                        (x1 / zoom s - Point.x (pan s)
                         - (x0 / zoom s - Point.x (pan s) - Node.x node))
                        (y1 / zoom s - Point.y (pan s)
                         - (y0 / zoom s - Point.y (pan s) - Node.y node))
                      <$> nodes s !! k
                 else nodes s !! k) as Hmoved.
  { intros k. subst s'. rewrite handleCanvasMouseMove_lookup by done.
    rewrite Hdsel, Hdn, Hdz, Hdp, Hdo. cbn.
    destruct (decide (k ∈ [nodeId])) as [->%list_elem_of_singleton|Hk].
    - by rewrite decide_True.
    - rewrite decide_False; [done|]. intros ->. apply Hk. by left. }
  split; [|split; [|split; [|split]]].
  - eexists _, _. split.
    + by rewrite Hmoved, decide_True, Hnode.
    + unfold Qdiv. split; ring.
  - intros k Hk. by rewrite Hmoved, decide_False.
  - by rewrite Hconn.
  - by rewrite Hsame.
  - by rewrite Hdrag'.
Qed.

Lemma dragged_node_follows_pointer_witness :
  let s :=
    run [ZoomInBtn; ToolBtn Tool.node; CanvasClick 10 10 false;
         ToolBtn Tool.select] initial in
  selectedNodes
    (handleCanvasMouseMove 70 40
       (handleCanvasMouseDown (Some "node_1") 12 8 false false s))
  = ["node_1"].
Proof.
  intros s.
  assert (currentTool s = Tool.select) as Htool by (by vm_compute).
  assert (∃ node, nodes s !! "node_1" = Some node) as [node Hnode]
    by (eexists; by vm_compute).
  assert ("node_1" ∉ selectedNodes s ∨ selectedNodes s = ["node_1"]) as Hsel
    by (left; vm_compute; apply not_elem_of_nil).
  clearbody s.
  exact (proj1 (proj2 (proj2 (proj2
           (dragged_node_follows_pointer s "node_1" node 12 8 70 40
              Htool Hnode Hsel))))).
Defined.

(** * The preview line and the view *)

Lemma run_pan_origin events : pan (run events initial) = Point.mk 0 0.
Proof.
  apply (run_invariant (λ s, pan s = Point.mk 0 0)); [|done].
  intros e t Ht. pose proof (handle_view e t) as H.
  destruct e; try (by rewrite (proj2 H)); done.
Qed.

Lemma updateTempConnection_line x y s start node :
  connectionStart s = Some start → start ≠ "" →
  nodes s !! start = Some node →
  nodes (updateTempConnection x y s) = nodes s ∧
  tempConnection (updateTempConnection x y s)
  = Some (Node.x node, Node.y node, x, y).
Proof.
  intros Hstart Hne%truthy_true Hnode.
  unfold updateTempConnection, clearTempConnection.
  rewrite Hstart, Hne, Hnode. by destruct (tempConnection s).
Qed.

(** X24.  While a connection is in progress from a node of the document, a
    mouse move draws the preview line from the centre of that node to the
    pointer position as the canvas reports it, without the division by the
    zoom that node positions get.  The line is in the transformed layer, and
    in every state the application reaches the pan is (0, 0): so the end of
    the preview is shown at zoom times the pointer position, which is the
    pointer position only at zoom 1 or at the origin. *)
Theorem preview_end_is_scaled events x y start :
  let s := run events initial in
  isConnecting s = true →
  connectionStart s = Some start →
  start ≠ "" →
  is_Some (nodes s !! start) →
  let s' := handleCanvasMouseMove x y s in
  ∃ node,
    nodes s' !! start = Some node ∧
    tempConnection s' = Some (Node.x node, Node.y node, x, y) ∧
    let p := shown_at (updateTransform s') (Point.mk x y) in
    (Point.x p == zoom s * x)%Q ∧ (Point.y p == zoom s * y)%Q ∧
    ((Point.x p == x)%Q ↔ (zoom s == 1)%Q ∨ (x == 0)%Q).
Proof.
  intros s Hconn Hstart Hne Hnode s'.
  pose proof (run_pan_origin events) as Hpan. fold s in Hpan.
  destruct (handleCanvasMouseMove_view x y s) as [Hz Hp].
  fold s' in Hz, Hp.
  assert (∃ node, nodes s' !! start = Some node ∧
            tempConnection s' = Some (Node.x node, Node.y node, x, y))
    as (node & Hn & Ht).
  { subst s'. clear Hz Hp. unfold handleCanvasMouseMove.
    set (s1 := if _ && _ then _ else s).
    assert (graph_update s s1 ∧ is_Some (nodes s1 !! start))
      as [Hg [node Hn]].
    { subst s1. destruct (_ && _); [|split; [apply graph_update_refl|done]].
      split; [apply graph_update_move_all|].
      rewrite move_all_lookup. destruct Hnode as [n ->].
      destruct (decide _); by eexists. }
    apply graph_update_fields in Hg
      as (_ & _ & _ & _ & _ & _ & Hgi & Hgs & _).
    rewrite <-Hgi in Hconn. rewrite <-Hgs in Hstart. clearbody s1.
    rewrite Hconn, Hstart. cbn. rewrite (proj2 (truthy_true start) Hne).
    destruct (updateTempConnection_line x y s1 start node Hstart Hne Hn)
      as [-> ->].
    by exists node. }
  exists node. split; [done|]. split; [done|].
  unfold updateTransform. rewrite Hz, Hp, Hpan. cbn.
  split; [ring|]. split; [ring|].
  split.
  - intros H.
    destruct (Qeq_dec x 0) as [|Hx]; [by right|left].
    assert (zoom s == (zoom s * (x + 0)) / x)%Q as -> by (by field).
    rewrite H. by field.
  - intros [->| ->]; ring.
Qed.

Lemma preview_end_is_scaled_witness :
  let s :=
    run [ToolBtn Tool.node; CanvasClick 10 10 false; ZoomInBtn;
         ToolBtn Tool.connection; NodeClick "node_1" false false] initial in
  ∃ node,
    nodes (handleCanvasMouseMove 100 50 s) !! "node_1" = Some node ∧
    tempConnection (handleCanvasMouseMove 100 50 s)
    = Some (Node.x node, Node.y node, 100%Q, 50%Q) ∧
    let p := shown_at (updateTransform (handleCanvasMouseMove 100 50 s))
               (Point.mk 100 50) in
    (Point.x p == zoom s * 100)%Q ∧ (Point.y p == zoom s * 50)%Q ∧
    ((Point.x p == 100)%Q ↔ (zoom s == 1)%Q ∨ (100 == 0)%Q).
Proof.
  intros s.
  assert (isConnecting s = true) as Hconn by (by vm_compute).
  assert (connectionStart s = Some "node_1") as Hstart by (by vm_compute).
  assert (is_Some (nodes s !! "node_1")) as Hnode
    by (eexists; by vm_compute).
  assert ("node_1" ≠ "") as Hne by discriminate.
  exact (preview_end_is_scaled
           [ToolBtn Tool.node; CanvasClick 10 10 false; ZoomInBtn;
            ToolBtn Tool.connection; NodeClick "node_1" false false]
           100 50 "node_1" Hconn Hstart Hne Hnode).
Defined.
